(** * Meeting-minutes backend: filename date extraction and retried remote calls

    A shallow embedding of [services/date_extractor.py] (class
    [DateExtractor]) and of the three methods of [GeminiService] in
    [services/gemini_service.py], with the retry policy that decorates
    them and what each of their attempts asks of the provider, and with
    the properties of the specification stated and proved about them.

    A second part embeds the helpers and the handlers of the three
    routers ([routers/transcribe.py], [routers/refine.py],
    [routers/summarize.py]), the validators of [models.py] and the
    extension check of [services/audio_service.py], with further
    properties read off the code.

    Python values are modelled as follows.
    - A [str] is the list of its code points.  A code point is an [ascii],
      so the model covers the filenames whose code points are below 256
      (ASCII and Latin-1); the character classes of [re] below are the
      classes of CPython on exactly that range.
    - An [int] is a [Z].
    - A call that may raise returns a [res]: [Ret v] or [Raise e].
    - [None] where the code has [Optional[...]] is [option]'s [None]. *)

From Stdlib Require Import String Ascii List ZArith Arith Bool Lia.
From Stdlib Require Import DecimalString Sorted.
Import ListNotations.

Set Implicit Arguments.

(* ================================================================== *)
(** * Python values, exceptions and the exception monad *)
(* ================================================================== *)

Module Py.

Definition str := list ascii.

(** A string literal of the source. *)
Definition lit (s : string) : str := list_ascii_of_string s.

(** The exception classes that occur in the two services.
    [ConnectionError] stands for the class and for its subclasses
    (reset, refused, aborted, broken pipe); [OtherException] is any
    class that is neither a timeout nor a connection failure, with its
    class name (quota, authentication, a rejected payload, the
    [Exception] of a failed file processing, ...). *)
#[warnings="-register-all"] Inductive exn :=
| ValueError (msg : string)
| IndexError (msg : string)
| TypeError (msg : string)
| OverflowError (msg : string)
| TimeoutError (msg : string)
| ConnectionError (msg : string)
| OtherException (cls msg : string)
| RetryError (last_attempt : option exn).
(** [tenacity.RetryError(last_attempt)], with the exception that the
    last attempt raised, [None] when the last attempt returned. *)

Inductive res (A : Type) :=
| Ret (v : A)
| Raise (e : exn).
Arguments Ret {A} v.
Arguments Raise {A} e.

Definition bind {A B} (m : res A) (k : A -> res B) : res B :=
  match m with
  | Ret v => k v
  | Raise e => Raise e
  end.

(** [bool(s)] of a string: the empty string is falsy. *)
Definition truthy (s : str) : bool :=
  match s with [] => false | _ :: _ => true end.

Definition is_digit (a : ascii) : bool :=
  let n := nat_of_ascii a in (48 <=? n) && (n <=? 57).

Definition digit_value (a : ascii) : Z := (Z.of_nat (nat_of_ascii a) - 48)%Z.

Definition digit_char (d : Z) : ascii := ascii_of_nat (Z.to_nat (48 + d)).

(** The value of a decimal digit string, most significant digit first. *)
Definition digits_value (s : str) : Z :=
  fold_left (fun acc a => (10 * acc + digit_value a)%Z) s 0%Z.

(** [int(s)] on a [str].  On a non-empty string of decimal digits it is
    the number denoted; on the empty string, or when a character is not
    a digit, it raises [ValueError].  (Signs, surrounding blanks and
    digit-group underscores, which [int] also accepts, never reach it
    from the groups of the patterns below and are left out.) *)
Definition int (s : str) : res Z :=
  if truthy s && forallb is_digit s then Ret (digits_value s)
  else Raise (ValueError "invalid literal for int() with base 10").

(** [s.lower()] on the modelled range: the ASCII capitals and the
    Latin-1 capitals (0xC0-0xDE except 0xD7) move down by 32. *)
Definition lower_char (a : ascii) : ascii :=
  let n := nat_of_ascii a in
  if ((65 <=? n) && (n <=? 90))
     || ((192 <=? n) && (n <=? 222) && negb (n =? 215))
  then ascii_of_nat (n + 32) else a.

Definition lower (s : str) : str := map lower_char s.

(** Unicode white space below 256: what [str.isspace], [str.strip] and
    the class [\s] of [re] accept. *)
Definition is_space (a : ascii) : bool :=
  let n := nat_of_ascii a in
  ((9 <=? n) && (n <=? 13)) || ((28 <=? n) && (n <=? 32))
  || (n =? 133) || (n =? 160).

Fixpoint lstrip (s : str) : str :=
  match s with
  | a :: s' => if is_space a then lstrip s' else s
  | [] => []
  end.

(** [s.strip()]: white space removed at both ends. *)
Definition strip (s : str) : str := rev (lstrip (rev (lstrip s))).

Definition str_eqb (s t : str) : bool :=
  if list_eq_dec ascii_dec s t then true else false.

(** [d.get(key)] on a dict written as its list of items. *)
Fixpoint dict_get (d : list (str * str)) (key : str) : option str :=
  match d with
  | [] => None
  | (k, v) :: d' => if str_eqb k key then Some v else dict_get d' key
  end.

End Py.

Import Py.

Declare Scope py_scope.
Delimit Scope py_scope with py.
Notation "x <- m ;; k" := (bind m (fun x => k))
  (at level 61, m at next level, right associativity) : py_scope.
Open Scope py_scope.

(* ================================================================== *)
(** * The fragment of [re] that the patterns use *)
(* ================================================================== *)

(** Every pattern of [DateExtractor.PATTERNS] is a sequence of greedy
    repetitions of a one-character class, some of them inside a capturing
    group.  [re.search] tries the start positions from the left and, at a
    start position, explores the repetition counts from the longest to the
    shortest, backtracking into an earlier repetition when the rest of the
    pattern fails. *)

Module Re.

Inductive cclass :=
| Digit                      (* \d *)
| Letter                     (* [a-zA-Z], with re.IGNORECASE *)
| Space                      (* \s *)
| OneOf (cs : list ascii).   (* [-_]  [-_,]  \. *)

Definition is_letter (a : ascii) : bool :=
  let n := nat_of_ascii a in
  ((65 <=? n) && (n <=? 90)) || ((97 <=? n) && (n <=? 122)).

Definition in_class (c : cclass) (a : ascii) : bool :=
  match c with
  | Digit => is_digit a
  | Letter => is_letter a
  | Space => is_space a
  | OneOf cs => existsb (Ascii.eqb a) cs
  end.

(** [cls{lo,hi}], greedy; [hi = None] is an open upper bound. *)
Record atom := { cls : cclass; lo : nat; hi : option nat }.

Inductive node :=
| Plain (a : atom)      (* x{lo,hi}   *)
| Capture (a : atom).   (* (x{lo,hi}) *)

Definition regex := list node.

Definition atom_of (n : node) : atom :=
  match n with Plain a => a | Capture a => a end.

Definition captures (n : node) : bool :=
  match n with Plain _ => false | Capture _ => true end.

(** Length of the longest prefix of [s] made of characters of [c], cut at
    [limit] characters. *)
Fixpoint span (c : cclass) (limit : option nat) (s : str) : nat :=
  match limit with
  | Some O => O
  | _ =>
    match s with
    | a :: s' =>
      if in_class c a then S (span c (option_map pred limit) s') else O
    | [] => O
    end
  end.

(** Try the counts [k], [k-1], ..., [lo] in that order. *)
Fixpoint backtrack {A} (lo k : nat) (try : nat -> option A) : option A :=
  if k <? lo then None
  else match try k with
       | Some r => Some r
       | None => match k with
                 | O => None
                 | S k' => backtrack lo k' try
                 end
       end.

(** Match [r] at the beginning of [s]: the number of characters consumed
    and the captured groups, in order. *)
Fixpoint match_here (r : regex) (s : str) : option (nat * list str) :=
  match r with
  | [] => Some (O, [])
  | n :: r' =>
    let a := atom_of n in
    backtrack (lo a) (span (cls a) (hi a) s)
      (fun k =>
         match match_here r' (skipn k s) with
         | Some (len, gs) =>
           Some (k + len, if captures n then firstn k s :: gs else gs)
         | None => None
         end)
  end.

(** A match object: where the match starts and ends, and [m.groups()]. *)
Record Match := { m_start : nat; m_end : nat; groups : list str }.

Fixpoint search_from (r : regex) (pos : nat) (s : str) : option Match :=
  match match_here r s with
  | Some (len, gs) =>
    Some {| m_start := pos; m_end := pos + len; groups := gs |}
  | None =>
    match s with
    | [] => None
    | _ :: s' => search_from r (S pos) s'
    end
  end.

(** [re.search(pattern, string, re.IGNORECASE)]. *)
Definition search (r : regex) (s : str) : option Match := search_from r O s.

(** Pattern syntax. *)
Definition exactly (n : nat) (c : cclass) : atom :=
  {| cls := c; lo := n; hi := Some n |}.                 (* x{n}   *)
Definition between (m n : nat) (c : cclass) : atom :=
  {| cls := c; lo := m; hi := Some n |}.                 (* x{m,n} *)
Definition one (c : cclass) : atom := exactly 1 c.       (* x      *)
Definition opt (c : cclass) : atom := between 0 1 c.     (* x?     *)
Definition star (c : cclass) : atom :=
  {| cls := c; lo := 0; hi := None |}.                   (* x*     *)
Definition plus (c : cclass) : atom :=
  {| cls := c; lo := 1; hi := None |}.                   (* x+     *)

End Re.

Import Re.

(* ================================================================== *)
(** * The fragment of [datetime] that [_format_date] uses *)
(* ================================================================== *)

Module Datetime.

Local Open Scope Z_scope.

Definition MINYEAR : Z := 1.
Definition MAXYEAR : Z := 9999.

(** The largest C [int]; an argument beyond it does not convert. *)
Definition INT_MAX : Z := 2147483647.

Definition is_leap (y : Z) : bool :=
  (y mod 4 =? 0) && (negb (y mod 100 =? 0) || (y mod 400 =? 0)).

Definition DAYS_IN_MONTH : list Z :=
  [0; 31; 28; 31; 30; 31; 30; 31; 31; 30; 31; 30; 31].

Definition days_in_month (y m : Z) : Z :=
  if (m =? 2) && is_leap y then 29 else nth (Z.to_nat m) DAYS_IN_MONTH 0.

Record datetime := { year : Z; month : Z; day : Z }.

(** [datetime(year, month, day)]: the fields are checked in this order
    and the first one out of range raises [ValueError]. *)
Definition make (y m d : Z) : res datetime :=
  if (INT_MAX <? Z.abs y) || (INT_MAX <? Z.abs m) || (INT_MAX <? Z.abs d)
  then Raise (OverflowError "Python int too large to convert to C int")
  else if (y <? MINYEAR) || (MAXYEAR <? y)
  then Raise (ValueError "year is out of range")
  else if (m <? 1) || (12 <? m)
  then Raise (ValueError "month must be in 1..12")
  else if (d <? 1) || (days_in_month y m <? d)
  then Raise (ValueError "day is out of range for month")
  else Ret {| year := y; month := m; day := d |}.

(** [%m] and [%d]: two decimal digits. *)
Definition two_digits (n : Z) : str :=
  [digit_char (n / 10); digit_char (n mod 10)].

Definition four_digits (n : Z) : str :=
  [digit_char (n / 1000); digit_char (n / 100 mod 10);
   digit_char (n / 10 mod 10); digit_char (n mod 10)].

Fixpoint drop_zeros (s : str) : str :=
  match s with
  | a :: s' => if Ascii.eqb a "0" then drop_zeros s' else s
  | [] => []
  end.

(** [%Y] is printed by the C library.  Between 1000 and 9999 it is the
    four digits of the year everywhere; below 1000 the result depends on
    the platform: glibc prints the year without leading zeros ("999"),
    other C libraries pad it to four digits ("0999").  [year_padded]
    says which of the two the running platform does. *)
Definition format_year (year_padded : bool) (y : Z) : str :=
  if year_padded then four_digits y else drop_zeros (four_digits y).

(** [dt.strftime('%Y-%m-%d')]. *)
Definition strftime_ymd (year_padded : bool) (dt : datetime) : str :=
  format_year year_padded (year dt) ++ lit "-"
    ++ two_digits (month dt) ++ lit "-" ++ two_digits (day dt).

(** The dates of the Gregorian calendar that [datetime] represents. *)
Definition valid_date (y m d : Z) : Prop :=
  MINYEAR <= y <= MAXYEAR /\ 1 <= m <= 12 /\ 1 <= d <= days_in_month y m.

Definition valid_dateb (y m d : Z) : bool :=
  (MINYEAR <=? y) && (y <=? MAXYEAR) && (1 <=? m) && (m <=? 12)
  && (1 <=? d) && (d <=? days_in_month y m).

(** The [datetime] of a (year, month, day). *)
Definition date (y m d : Z) : datetime :=
  {| year := y; month := m; day := d |}.

End Datetime.

(* ================================================================== *)
(** * [services/date_extractor.py] *)
(* ================================================================== *)

Module DateExtractor.

(** [DateExtractor.MONTHS] *)
Definition MONTHS : list (str * str) :=
  [ (lit "january", lit "01"); (lit "jan", lit "01");
    (lit "february", lit "02"); (lit "feb", lit "02");
    (lit "march", lit "03"); (lit "mar", lit "03");
    (lit "april", lit "04"); (lit "apr", lit "04");
    (lit "may", lit "05");
    (lit "june", lit "06"); (lit "jun", lit "06");
    (lit "july", lit "07"); (lit "jul", lit "07");
    (lit "august", lit "08"); (lit "aug", lit "08");
    (lit "september", lit "09"); (lit "sep", lit "09");
    (lit "sept", lit "09");
    (lit "october", lit "10"); (lit "oct", lit "10");
    (lit "november", lit "11"); (lit "nov", lit "11");
    (lit "december", lit "12"); (lit "dec", lit "12") ].

Inductive format_type :=
| ymd | mdy | ymd_compact | written | written_reversed.

Definition dash_underscore : cclass := OneOf ["-"; "_"]%char.      (* [-_] *)
Definition dash_underscore_comma : cclass :=
  OneOf ["-"; "_"; ","]%char.                                      (* [-_,] *)
Definition dot : cclass := OneOf ["."]%char.                       (* \. *)

(** (\d{4})[-_](\d{1,2})[-_](\d{1,2}) *)
Definition iso_pattern : regex :=
  [ Capture (exactly 4 Digit); Plain (one dash_underscore);
    Capture (between 1 2 Digit); Plain (one dash_underscore);
    Capture (between 1 2 Digit) ].

(** (\d{4})\.(\d{1,2})\.(\d{1,2}) *)
Definition dotted_iso_pattern : regex :=
  [ Capture (exactly 4 Digit); Plain (one dot);
    Capture (between 1 2 Digit); Plain (one dot);
    Capture (between 1 2 Digit) ].

(** (\d{1,2})[-_](\d{1,2})[-_](\d{4}) *)
Definition us_pattern : regex :=
  [ Capture (between 1 2 Digit); Plain (one dash_underscore);
    Capture (between 1 2 Digit); Plain (one dash_underscore);
    Capture (exactly 4 Digit) ].

(** (\d{1,2})\.(\d{1,2})\.(\d{4}) *)
Definition dotted_us_pattern : regex :=
  [ Capture (between 1 2 Digit); Plain (one dot);
    Capture (between 1 2 Digit); Plain (one dot);
    Capture (exactly 4 Digit) ].

(** (\d{4})(\d{2})(\d{2}) *)
Definition compact_pattern : regex :=
  [ Capture (exactly 4 Digit); Capture (exactly 2 Digit);
    Capture (exactly 2 Digit) ].

(** ([a-zA-Z]+)\s*[-_]?\s*(\d{1,2})\s*[-_,]?\s*(\d{4}) *)
Definition written_pattern : regex :=
  [ Capture (plus Letter); Plain (star Space); Plain (opt dash_underscore);
    Plain (star Space); Capture (between 1 2 Digit); Plain (star Space);
    Plain (opt dash_underscore_comma); Plain (star Space);
    Capture (exactly 4 Digit) ].

(** (\d{1,2})\s+([a-zA-Z]+)\s+(\d{4}) *)
Definition written_reversed_pattern : regex :=
  [ Capture (between 1 2 Digit); Plain (plus Space);
    Capture (plus Letter); Plain (plus Space);
    Capture (exactly 4 Digit) ].

(** [DateExtractor.PATTERNS], in the order of the source. *)
Definition PATTERNS : list (regex * format_type) :=
  [ (iso_pattern, ymd);
    (dotted_iso_pattern, ymd);
    (us_pattern, mdy);
    (dotted_us_pattern, mdy);
    (compact_pattern, ymd_compact);
    (written_pattern, written);
    (written_reversed_pattern, written_reversed) ].

(** [a, b, c = groups]: unpacking a tuple of another length raises
    [ValueError]. *)
Definition unpack3 (t : list str) : res (str * str * str) :=
  match t with
  | [a; b; c] => Ret (a, b, c)
  | _ => Raise (ValueError "wrong number of values to unpack")
  end.

(** [_month_to_number] *)
Definition _month_to_number (month_name : str) : option str :=
  dict_get MONTHS (strip (lower month_name)).

Section Runtime.

(** Whether the C library pads [%Y] to four digits. *)
Variable year_padded : bool.

(** [_format_date]: the [ValueError] of an impossible date is caught
    and turned into [None]. *)
Definition _format_date (year month day : Z) : res (option str) :=
  match Datetime.make year month day with
  | Ret date_obj => Ret (Some (Datetime.strftime_ymd year_padded date_obj))
  | Raise (ValueError _) => Ret None
  | Raise e => Raise e
  end.

(** [_parse_match], on [match.groups()]. *)
Definition _parse_match (groups : list str) (ft : format_type)
  : res (option str) :=
  match ft with
  | ymd | ymd_compact =>
    t <- unpack3 groups ;;
    let '(year, month, day) := t in
    y <- int year ;; m <- int month ;; d <- int day ;;
    _format_date y m d
  | mdy =>
    t <- unpack3 groups ;;
    let '(month, day, year) := t in
    y <- int year ;; m <- int month ;; d <- int day ;;
    _format_date y m d
  | written =>
    t <- unpack3 groups ;;
    let '(month_name, day, year) := t in
    match _month_to_number month_name with
    | Some month =>
      if truthy month then
        y <- int year ;; m <- int month ;; d <- int day ;;
        _format_date y m d
      else Ret None
    | None => Ret None
    end
  | written_reversed =>
    t <- unpack3 groups ;;
    let '(day, month_name, year) := t in
    match _month_to_number month_name with
    | Some month =>
      if truthy month then
        y <- int year ;; m <- int month ;; d <- int day ;;
        _format_date y m d
      else Ret None
    | None => Ret None
    end
  end.

(** The [for] loop of [extract_date] over the patterns still to try.
    A match that parses to a non-empty date returns it; a match that
    parses to [None], or whose parsing raises [ValueError] or
    [IndexError], goes on with the next pattern; any other exception
    leaves the function. *)
Fixpoint try_patterns (patterns : list (regex * format_type))
         (filename : str) : res (option str) :=
  match patterns with
  | [] => Ret None
  | (pattern, ft) :: rest =>
    match search pattern filename with
    | Some m =>
      match _parse_match (groups m) ft with
      | Ret (Some date) =>
        if truthy date then Ret (Some date)
        else try_patterns rest filename
      | Ret None => try_patterns rest filename
      | Raise (ValueError _) | Raise (IndexError _) =>
        try_patterns rest filename
      | Raise e => Raise e
      end
    | None => try_patterns rest filename
    end
  end.

(** [extract_date]; the argument is [None] or a string. *)
Definition extract_date (filename : option str) : res (option str) :=
  match filename with
  | None => Ret None
  | Some s => if truthy s then try_patterns PATTERNS s else Ret None
  end.

End Runtime.

End DateExtractor.

Import DateExtractor.

(* ================================================================== *)
(** * The retry decorator of [services/gemini_service.py] *)
(* ================================================================== *)

(** The three methods of [GeminiService] are decorated with
    [@retry(stop=stop_after_attempt(3),
            wait=wait_exponential(multiplier=1, min=2, max=30),
            retry=retry_if_exception_type((TimeoutError, ConnectionError)))].
    [Tenacity] is the loop of [tenacity] (release 8) behind that decorator:
    [Retrying.__call__] and [Retrying.iter] over a [RetryCallState], and
    the three strategies the decorator names. *)

Module Tenacity.

Local Open Scope Z_scope.

Section Retrying.

(** The type of what the decorated function returns. *)
Variable A : Type.

Record RetryCallState := {
  attempt_number : nat;           (* starts at 1 *)
  outcome : option (res A);       (* result or exception of the last attempt *)
  idle_for : Z                    (* seconds slept so far *)
}.

Record Retrying := {
  stop : RetryCallState -> bool;
  wait : RetryCallState -> Z;
  retry : RetryCallState -> bool;
  reraise : bool                  (* False unless the decorator sets it *)
}.

Inductive action :=
| DoAttempt
| DoSleep (seconds : Z)
| Finish (r : res A).   (* [iter] returns the result or raises *)

(** [Retrying.iter].  (The branch for [tenacity.TryAgain], an exception
    that the wrapped function raises to ask for another attempt, is left
    out: nothing in the services raises it.) *)
Definition iter (r : Retrying) (st : RetryCallState) : action :=
  match outcome st with
  | None => DoAttempt
  | Some fut =>
    if negb (retry r st) then Finish fut          (* return fut.result() *)
    else if stop r st then
      match fut with
      | Raise e =>
        if reraise r then Finish (Raise e)        (* retry_exc.reraise() *)
        else Finish (Raise (RetryError (Some e))) (* raise retry_exc from e *)
      | Ret _ => Finish (Raise (RetryError None))
      end
    else DoSleep (wait r st)
  end.

Definition set_outcome (st : RetryCallState) (o : res A) : RetryCallState :=
  {| attempt_number := attempt_number st; outcome := Some o;
     idle_for := idle_for st |}.

(** [idle_for += sleep], then [prepare_for_next_attempt]. *)
Definition next_attempt (st : RetryCallState) (sleep : Z) : RetryCallState :=
  {| attempt_number := S (attempt_number st); outcome := None;
     idle_for := idle_for st + sleep |}.

(** What a run did to the outside: how many times the decorated
    function was invoked, and the sleeps, oldest first. *)
Record Effects := { calls : nat; sleeps : list Z }.

(** The decorated function is a unit of work whose outcome may change
    from one invocation to the next: [fn k] is the outcome of its
    invocation number [k], counted from 0. *)
Definition unit_of_work := nat -> res A.

(** The [while True] loop of [Retrying.__call__]; [None] when [fuel]
    iterations were not enough. *)
Fixpoint call_loop (fuel : nat) (r : Retrying) (fn : unit_of_work)
         (st : RetryCallState) (w : Effects) : option (res A * Effects) :=
  match fuel with
  | O => None
  | S fuel' =>
    match iter r st with
    | DoAttempt =>
      call_loop fuel' r fn (set_outcome st (fn (calls w)))
                {| calls := S (calls w); sleeps := sleeps w |}
    | DoSleep d =>
      call_loop fuel' r fn (next_attempt st d)
                {| calls := calls w; sleeps := sleeps w ++ [d] |}
    | Finish res => Some (res, w)
    end
  end.

Definition initial_state : RetryCallState :=
  {| attempt_number := 1; outcome := None; idle_for := 0 |}.

Definition call (fuel : nat) (r : Retrying) (fn : unit_of_work)
  : option (res A * Effects) :=
  call_loop fuel r fn initial_state {| calls := O; sleeps := [] |}.

(** [stop_after_attempt(n)] *)
Definition stop_after_attempt (max_attempt_number : nat)
  : RetryCallState -> bool :=
  fun st => (max_attempt_number <=? attempt_number st)%nat.

(** [wait_exponential(multiplier, min, max)], with [exp_base = 2]. *)
Definition exponential_delay (multiplier min max : Z) (attempt : nat) : Z :=
  let exp := 2 ^ (Z.of_nat attempt - 1) in
  let result := multiplier * exp in
  Z.max (Z.max 0 min) (Z.min result max).

Definition wait_exponential (multiplier min max : Z)
  : RetryCallState -> Z :=
  fun st => exponential_delay multiplier min max (attempt_number st).

(** [retry_if_exception_type(types)]: retry when the attempt failed
    with an instance of one of [types]. *)
Definition retry_if_exception_type (isinstance : exn -> bool)
  : RetryCallState -> bool :=
  fun st =>
    match outcome st with
    | Some (Raise e) => isinstance e
    | _ => false
    end.

End Retrying.

End Tenacity.

Module GeminiService.

Import Tenacity.

(** [isinstance(e, (TimeoutError, ConnectionError))] *)
Definition transient (e : exn) : bool :=
  match e with
  | TimeoutError _ | ConnectionError _ => true
  | _ => false
  end.

Definition max_attempts : nat := 3.
Definition multiplier : Z := 1.
Definition min_delay : Z := 2.
Definition max_delay : Z := 30.

(** The decorator of [transcribe_audio], [refine_transcript] and
    [generate_summary]. *)
Definition retry_policy : Retrying str :=
  {| stop := stop_after_attempt (A := str) max_attempts;
     wait := wait_exponential (A := str) multiplier min_delay max_delay;
     retry := retry_if_exception_type (A := str) transient;
     reraise := false |}.

(** The clause that closes the [try] block of each method,
    [except Exception as e: logger.error(...); raise]: the block ends as
    it would without the clause. *)
Definition log_and_reraise (block : res str) : res str :=
  match block with
  | Ret text => Ret text
  | Raise e => Raise e
  end.

(** The retry wrapper of the decorator around a unit of work: [block k]
    is the outcome of the run number [k], counted from 0, of the [try]
    block of a method.  What a block does (its calls to the provider, its
    polling, [response.text.strip()]) is spelled out below. *)
Definition retried (fuel : nat) (block : nat -> res str)
  : option (res str * Effects) :=
  call fuel retry_policy (fun k => log_and_reraise (block k)).

(** [genai.types.File.State], the states of an uploaded file. *)
Inductive State := STATE_UNSPECIFIED | PROCESSING | ACTIVE | FAILED.

(** What the provider answers during one run of the [try] block of
    [transcribe_audio]: to [genai.upload_file] (the state of the file
    that it returns, or an error), to the successive [genai.get_file], to
    [model.generate_content] (a response, taken as the outcome of its
    [text] property, or an error) and to [genai.delete_file]. *)
Record Genai :=
  { upload_file : res State;
    get_file : nat -> res State;
    generate_content : res (res str);
    delete_file : res unit }.

(** What one run of a [try] block asked of the provider: the number of
    its requests, and the number of times it slept two seconds while
    polling. *)
Record Usage := { requests : nat; polls : nat }.

(** [while audio_file.state.name == "PROCESSING": await asyncio.sleep(2);
    audio_file = genai.get_file(audio_file.name)], after [polled] polls.
    The loop has no bound of its own: [None] when [patience] polls were
    not enough. *)
Fixpoint wait_while_processing (patience : nat) (get : nat -> res State)
         (polled : nat) (state : State) : option (res State * nat) :=
  match state with
  | PROCESSING =>
    match patience with
    | O => None
    | S patience' =>
      match get polled with
      | Ret state' => wait_while_processing patience' get (S polled) state'
      | Raise e => Some (Raise e, S polled)
      end
    end
  | _ => Some (Ret state, polled)
  end.

(** [response.text.strip()] *)
Definition stripped_text (response : res str) : res str :=
  text <- response ;; Ret (strip text).

(** The [try] block of [transcribe_audio], up to its [except] clause. *)
Definition transcribe_block (patience : nat) (g : Genai)
  : option (res str * Usage) :=
  match upload_file g with
  | Raise e => Some (Raise e, {| requests := 1; polls := 0 |})
  | Ret uploaded =>
    match wait_while_processing patience (get_file g) 0 uploaded with
    | None => None
    | Some (Raise e, n) =>
      Some (Raise e, {| requests := 1 + n; polls := n |})
    | Some (Ret FAILED, n) =>
      Some (Raise (OtherException "Exception"
                                  "File processing failed: FAILED"),
            {| requests := 1 + n; polls := n |})
    | Some (Ret _, n) =>
      match generate_content g with
      | Raise e => Some (Raise e, {| requests := 2 + n; polls := n |})
      | Ret response =>
        match delete_file g with
        | Ret _
        | Raise _ =>        (* except Exception as e: logger.warning(...) *)
          Some (stripped_text response,
                {| requests := 3 + n; polls := n |})
        end
      end
    end
  end.

(** The [try] block of [refine_transcript] and of [generate_summary]: one
    [model.generate_content], whose response is taken as the outcome of
    its [text] property, then [response.text.strip()]. *)
Definition text_block (response : res str) : option (res str * Usage) :=
  Some (stripped_text response, {| requests := 1; polls := 0 |}).

(** The loop of [Retrying.__call__] under the decorator, around [try]
    blocks that may not end: [block k] is the run number [k] of the
    block, [None] when it does not end.  The result comes with the
    attempts and the sleeps of the wrapper, and with what each run
    asked of the provider. *)
Fixpoint attempt_loop (fuel : nat) (block : nat -> option (res str * Usage))
         (st : RetryCallState str) (w : Effects) (used : list Usage)
  : option (res str * Effects * list Usage) :=
  match fuel with
  | O => None
  | S fuel' =>
    match iter retry_policy st with
    | @DoAttempt _ =>
      match block (calls w) with
      | None => None
      | Some (o, u) =>
        attempt_loop fuel' block (set_outcome st (log_and_reraise o))
                     {| calls := S (calls w); sleeps := sleeps w |}
                     (used ++ [u])
      end
    | @DoSleep _ d =>
      attempt_loop fuel' block (next_attempt st d)
                   {| calls := calls w; sleeps := sleeps w ++ [d] |} used
    | @Finish _ result => Some (result, w, used)
    end
  end.

Definition decorated (fuel : nat) (block : nat -> option (res str * Usage))
  : option (res str * Effects * list Usage) :=
  attempt_loop fuel block (initial_state str)
               {| calls := O; sleeps := [] |} [].

(** [GeminiService.transcribe_audio]: [provider k] is what the provider
    answers during the attempt number [k]. *)
Definition transcribe_audio (fuel patience : nat) (provider : nat -> Genai)
  : option (res str * Effects * list Usage) :=
  decorated fuel (fun k => transcribe_block patience (provider k)).

(** [GeminiService.refine_transcript]: [provider k] is the response to
    the attempt number [k]. *)
Definition refine_transcript (fuel : nat) (provider : nat -> res str)
  : option (res str * Effects * list Usage) :=
  decorated fuel (fun k => text_block (provider k)).

(** [GeminiService.generate_summary] *)
Definition generate_summary (fuel : nat) (provider : nat -> res str)
  : option (res str * Effects * list Usage) :=
  decorated fuel (fun k => text_block (provider k)).

End GeminiService.

Import Tenacity GeminiService.

(* ================================================================== *)
(** * Notions used to state the properties *)
(* ================================================================== *)

Module Spec.

(** A captured group of [a]: characters of its class, as many as its
    bounds allow. *)
Definition group_ok (a : atom) (g : str) : Prop :=
  forallb (in_class (cls a)) g = true
  /\ lo a <= length g
  /\ (forall n, hi a = Some n -> length g <= n).

(** The groups of a match of [r], one per capturing node. *)
Fixpoint groups_shape (r : regex) (gs : list str) : Prop :=
  match r with
  | [] => gs = []
  | Plain _ :: r' => groups_shape r' gs
  | Capture a :: r' =>
    match gs with
    | g :: gs' => group_ok a g /\ groups_shape r' gs'
    | [] => False
    end
  end.

(** [r] matches in [s] at position [i]. *)
Definition occurs_at (r : regex) (s : str) (i : nat) : Prop :=
  match_here r (skipn i s) <> None.

(** Position [i] is where the first (leftmost) occurrence of [r] in [s]
    starts. *)
Definition first_occurrence (r : regex) (s : str) (i : nat) : Prop :=
  occurs_at r s i /\ forall j, j < i -> match_here r (skipn j s) = None.

(** What one pattern proposes for a filename: the date that its first
    occurrence parses to, if it occurs and parses to a date. *)
Definition candidate (year_padded : bool) (p : regex * format_type)
           (filename : str) : option str :=
  match search (fst p) filename with
  | Some m =>
    match _parse_match year_padded (groups m) (snd p) with
    | Ret (Some date) => Some date
    | _ => None
    end
  | None => None
  end.

(** First valid wins, in the words of the specification: the candidate
    of the earliest pattern that has one. *)
Fixpoint first_valid (year_padded : bool)
         (patterns : list (regex * format_type)) (filename : str)
  : option str :=
  match patterns with
  | [] => None
  | p :: rest =>
    match candidate year_padded p filename with
    | Some date => Some date
    | None => first_valid year_padded rest filename
    end
  end.

(** The (year, month, day) that the groups of a match stand for under
    an interpretation rule; nothing when the month word is not in the
    month table. *)
Definition interpret (gs : list str) (ft : format_type)
  : option (Z * Z * Z) :=
  match gs with
  | [a; b; c] =>
    match ft with
    | ymd | ymd_compact =>
      Some (digits_value a, digits_value b, digits_value c)
    | mdy => Some (digits_value c, digits_value a, digits_value b)
    | written =>
      match _month_to_number a with
      | Some mon => Some (digits_value c, digits_value mon, digits_value b)
      | None => None
      end
    | written_reversed =>
      match _month_to_number b with
      | Some mon => Some (digits_value c, digits_value mon, digits_value a)
      | None => None
      end
    end
  | _ => None
  end.

(** The date that a (year, month, day) prints as, if it is one. *)
Definition date_of (year_padded : bool) (t : option (Z * Z * Z))
  : option str :=
  match t with
  | Some (y, m, d) =>
    if Datetime.valid_dateb y m d
    then Some (Datetime.strftime_ymd year_padded (Datetime.date y m d))
    else None
  | None => None
  end.

(** The occurrence of [r] at position [i] of [s] denotes the valid date
    (y, m, d) under the rule [ft]. *)
Definition denotes (r : regex) (ft : format_type) (s : str) (i : nat)
           (y m d : Z) : Prop :=
  exists len gs,
    match_here r (skipn i s) = Some (len, gs)
    /\ interpret gs ft = Some (y, m, d)
    /\ Datetime.valid_date y m d.

(** A string of [n] decimal digits. *)
Definition digits (n : nat) (s : str) : Prop :=
  length s = n /\ forallb is_digit s = true.

(** [Y-M-D], the fields joined by hyphens. *)
Definition dashed (Y M D : str) : str := Y ++ lit "-" ++ M ++ lit "-" ++ D.

(** [filename] contains the substring [Y-M-D], four, two and two digits
    that are a valid date. *)
Definition contains_ymd (filename Y M D : str) : Prop :=
  digits 4 Y /\ digits 2 M /\ digits 2 D
  /\ Datetime.valid_date (digits_value Y) (digits_value M) (digits_value D)
  /\ exists pre post, filename = pre ++ dashed Y M D ++ post.

(** "For all filenames containing a valid YYYY-MM-DD substring,
    extractDate returns exactly that date", read literally. *)
Definition returns_every_contained_date (year_padded : bool) : Prop :=
  forall filename Y M D,
    contains_ymd filename Y M D ->
    extract_date year_padded (Some filename) = Ret (Some (dashed Y M D)).

(** "For all filenames containing both an ISO-pattern and a US-pattern
    date substring, the ISO interpretation wins", read literally: when an
    occurrence of the ISO pattern and an occurrence of the US pattern both
    denote dates, the date of some ISO occurrence is returned. *)
Definition iso_wins_when_contained (year_padded : bool) : Prop :=
  forall filename i j y m d yu mu du,
    denotes iso_pattern ymd filename i y m d ->
    denotes us_pattern mdy filename j yu mu du ->
    exists i' y' m' d',
      denotes iso_pattern ymd filename i' y' m' d'
      /\ extract_date year_padded (Some filename)
         = Ret (Some (Datetime.strftime_ymd year_padded
                        (Datetime.date y' m' d'))).

(** The delay in the words of the specification:
    [min(maxDelay, baseDelay * multiplier^(attempt-1))]. *)
Definition spec_delay (base_delay maxd mult : Z) (attempt : nat) : Z :=
  Z.min maxd (base_delay * mult ^ (Z.of_nat attempt - 1)).

(** The sleep that the policy of [GeminiService] prescribes after attempt
    number [k]. *)
Definition delay_after (k : nat) : Z :=
  exponential_delay multiplier min_delay max_delay k.

(** An outcome after which the policy of [GeminiService] does not retry:
    a value, or an error that is neither a timeout nor a connection
    error. *)
Definition settled (o : res str) : bool :=
  match o with
  | Ret _ => true
  | Raise e => negb (transient e)
  end.


(** The patterns other than the one for a written date, month first, in
    their order. *)
Definition other_patterns : list (regex * format_type) :=
  [ (iso_pattern, ymd);
    (dotted_iso_pattern, ymd);
    (us_pattern, mdy);
    (dotted_us_pattern, mdy);
    (compact_pattern, ymd_compact);
    (written_reversed_pattern, written_reversed) ].

(** [filename] is a written date with letters glued in front of its month
    word: the letters [pre], then the month name [w] and the rest of a
    text that the written pattern matches from [w] on, with [w] as its
    month word. *)
Definition glued_written_date (filename pre w tail : str) : Prop :=
  filename = pre ++ w ++ tail
  /\ pre <> [] /\ forallb is_letter pre = true
  /\ In (lower w) (map fst MONTHS)
  /\ exists len d y,
      match_here written_pattern (w ++ tail) = Some (len, [w; d; y]).

(** "If the month word of a written date is immediately preceded by
    other letters, extract_date returns absence", read literally. *)
Definition glued_dates_are_lost (year_padded : bool) : Prop :=
  forall filename pre w tail,
    glued_written_date filename pre w tail ->
    extract_date year_padded (Some filename) = Ret None.

(** A state of the retry loop under that policy agrees with what the loop
    has done so far: one invocation per attempt made, and one sleep after
    each attempt but the current one. *)
Definition consistent (st : RetryCallState str) (w : Effects) : Prop :=
  1 <= attempt_number st <= max_attempts
  /\ sleeps w = map delay_after (seq 1 (attempt_number st - 1))
  /\ calls w = match outcome st with
               | None => attempt_number st - 1
               | Some _ => attempt_number st
               end.

(** Iterations of the loop that are enough to finish from a state. *)
Definition fuel_needed (st : RetryCallState str) : nat :=
  2 * (max_attempts - attempt_number st)
  + match outcome st with None => 2 | Some _ => 1 end.

(** [date] is a year field followed by [-MM-DD], month and day on two
    digits each. *)
Definition padded_month_day (date : str) : Prop :=
  exists y m1 m2 d1 d2,
    date = y ++ ["-"; m1; m2; "-"; d1; d2]%char
    /\ forallb is_digit (y ++ [m1; m2; d1; d2]) = true /\ y <> [].

End Spec.

Import Spec.

(* ================================================================== *)
(** * More of [DateExtractor] and further notions *)
(* ================================================================== *)

Module SupportedFormats.

(** [DateExtractor.get_supported_formats] *)
Definition get_supported_formats : list str :=
  [ lit "2023-10-27_Meeting.mp3";
    lit "Meeting_10-27-2023.mp3";
    lit "2023.10.27-standup.wav";
    lit "October 27 2023 meeting.m4a";
    lit "27 October 2023 standup.mp3";
    lit "20231027_call.wav" ].

End SupportedFormats.

Import SupportedFormats.

Module Notions.

(** The length of the longest run of consecutive decimal digits in [s]. *)
Fixpoint longest_digit_run (s : str) : nat :=
  match s with
  | [] => 0
  | _ :: s' => Nat.max (span Digit None s) (longest_digit_run s')
  end.

(** Seconds slept in all. *)
Definition total (l : list Z) : Z := fold_right Z.add 0%Z l.

End Notions.

Import Notions.

(* ================================================================== *)
(** * More of [re]: anchors, optional groups, [re.match], [re.findall] *)
(* ================================================================== *)

(** The patterns of the routers and of the request models use, beyond the
    repetitions of a character class, the anchors [^] and [$], negated
    classes, the dot, and an optional non-capturing group.  [Rx] is a
    backtracking matcher for these, written with a continuation for what
    is left of the pattern. *)

Module Rx.

Inductive cset :=
| Class (c : cclass)           (* \d  \s  [...] *)
| Except (cs : list ascii).    (* [^...]; the dot is [^\n] *)

Definition in_cset (c : cset) (a : ascii) : bool :=
  match c with
  | Class c => in_class c a
  | Except cs => negb (existsb (Ascii.eqb a) cs)
  end.

Inductive rx :=
| Eps                                          (* the empty pattern *)
| Rep (c : cset) (lo : nat) (hi : option nat)  (* x{lo,hi}, greedy *)
| Bol                                          (* ^ *)
| Eol                                          (* $ *)
| Seq (r1 r2 : rx)                             (* r1r2 *)
| Cap (r : rx)                                 (* (r) *)
| Opt (r : rx).                                (* (?:r)?, greedy *)

(** A position in the text: the character before it, what lies ahead,
    and its index. *)
Record cursor := { before : option ascii; ahead : str; offset : nat }.

Definition start (s : str) : cursor :=
  {| before := None; ahead := s; offset := 0 |}.

(** Length of the longest prefix of [s] made of characters of [c], cut at
    [limit] characters. *)
Fixpoint span_of (c : cset) (limit : option nat) (s : str) : nat :=
  match limit with
  | Some O => O
  | _ =>
    match s with
    | a :: s' =>
      if in_cset c a then S (span_of c (option_map pred limit) s') else O
    | [] => O
    end
  end.

Definition advance (n : nat) (c : cursor) : cursor :=
  {| before := match n with
               | O => before c
               | S m => nth_error (ahead c) m
               end;
     ahead := skipn n (ahead c);
     offset := offset c + n |}.

Definition is_newline (a : ascii) : bool := Ascii.eqb a "010".

(** [^]: the beginning of the text and, with [re.MULTILINE], the position
    after a newline. *)
Definition at_bol (multiline : bool) (c : cursor) : bool :=
  match before c with
  | None => true
  | Some a => multiline && is_newline a
  end.

(** [$]: the end of the text and the position before a newline that ends
    the text; with [re.MULTILINE], the position before any newline. *)
Definition at_eol (multiline : bool) (c : cursor) : bool :=
  match ahead c with
  | [] => true
  | a :: rest =>
    is_newline a && (multiline || match rest with [] => true | _ => false end)
  end.

(** Match [r] at [c] and hand the position reached and the groups closed so
    far to [k]; when [k] fails, the alternatives of [r] are tried in the
    order of [re]: longer repetitions first, an optional group first taken
    and then left out. *)
Fixpoint run {R} (multiline : bool) (r : rx) (c : cursor) (caps : list str)
         (k : cursor -> list str -> option R) : option R :=
  match r with
  | Eps => k c caps
  | Rep cs lo hi =>
    backtrack lo (span_of cs hi (ahead c)) (fun n => k (advance n c) caps)
  | Bol => if at_bol multiline c then k c caps else None
  | Eol => if at_eol multiline c then k c caps else None
  | Seq r1 r2 =>
    run multiline r1 c caps (fun c' caps' => run multiline r2 c' caps' k)
  | Cap r1 =>
    run multiline r1 c caps
        (fun c' caps' =>
           k c' (caps' ++ [firstn (offset c' - offset c) (ahead c)]))
  | Opt r1 =>
    match run multiline r1 c caps k with
    | Some x => Some x
    | None => k c caps
    end
  end.

(** A match from [c]: how many characters it spans, and its groups. *)
Definition match_at (multiline : bool) (r : rx) (c : cursor)
  : option (nat * list str) :=
  run multiline r c []
      (fun c' caps => Some (offset c' - offset c, caps)).

(** [re.match(r, s)], as the groups of the match. *)
Definition rmatch (r : rx) (s : str) : option (list str) :=
  match match_at false r (start s) with
  | Some (_, caps) => Some caps
  | None => None
  end.

(** The scan of [re.findall]: the matches that do not overlap, from the
    left; [skip] characters are still inside the last match.  (A match is
    never empty for the patterns below, which all ask for a character.) *)
Fixpoint scan (multiline : bool) (r : rx) (prev : option ascii) (s : str)
         (skip : nat) : list (list str) :=
  match skip with
  | S n =>
    match s with
    | [] => []
    | a :: s' => scan multiline r (Some a) s' n
    end
  | O =>
    match match_at multiline r
                   {| before := prev; ahead := s; offset := 0 |} with
    | Some (len, caps) =>
      caps :: match s with
              | [] => []
              | a :: s' => scan multiline r (Some a) s' (pred len)
              end
    | None =>
      match s with
      | [] => []
      | a :: s' => scan multiline r (Some a) s' O
      end
    end
  end.

(** [re.findall(r, s)] (with [re.MULTILINE] or without) for a pattern
    with one group: the text of the group in each match. *)
Definition findall (multiline : bool) (r : rx) (s : str) : list str :=
  map (fun caps => hd [] caps) (scan multiline r None s O).

(** Pattern syntax. *)
Definition chr (a : ascii) : rx := Rep (Class (OneOf [a])) 1 (Some 1).
Definition digit (lo hi : nat) : rx := Rep (Class Digit) lo (Some hi).
Definition not_newline : cset := Except ["010"%char].   (* . *)

Fixpoint cat (l : list rx) : rx :=
  match l with
  | [] => Eps
  | [r] => r
  | r :: l' => Seq r (cat l')
  end.

End Rx.

Import Rx.

(* ================================================================== *)
(** * More of [str]: [in], [count], [sorted], [str(int)] *)
(* ================================================================== *)

Module PyStr.

(** [s.startswith(p)] *)
Fixpoint starts_with (p s : str) : bool :=
  match p, s with
  | [], _ => true
  | a :: p', b :: s' => Ascii.eqb a b && starts_with p' s'
  | _ :: _, [] => false
  end.

(** [sub in s] *)
Fixpoint contains (sub s : str) : bool :=
  starts_with sub s
  || match s with
     | [] => false
     | _ :: s' => contains sub s'
     end.

(** The scan of [s.count(sub)]: occurrences that do not overlap, from the
    left; [skip] characters are still inside the last occurrence. *)
Fixpoint count_from (sub s : str) (skip : nat) : nat :=
  match skip with
  | S n =>
    match s with
    | [] => 0
    | _ :: s' => count_from sub s' n
    end
  | O =>
    if starts_with sub s
    then S (match s with
            | [] => 0
            | _ :: s' => count_from sub s' (pred (length sub))
            end)
    else match s with
         | [] => 0
         | _ :: s' => count_from sub s' 0
         end
  end.

(** [s.count(sub)] *)
Definition count (s sub : str) : nat := count_from sub s 0.

(** [str(n)] of a natural number. *)
Definition str_of_nat (n : nat) : str :=
  lit (NilEmpty.string_of_uint (Nat.to_uint n)).

(** [s < t]: the order of strings, by code points. *)
Fixpoint str_ltb (s t : str) : bool :=
  match s, t with
  | _, [] => false
  | [], _ :: _ => true
  | a :: s', b :: t' =>
    if nat_of_ascii a <? nat_of_ascii b then true
    else if nat_of_ascii b <? nat_of_ascii a then false
    else str_ltb s' t'
  end.

(** [set.add]: a set is kept as the list of its members, each once. *)
Definition set_add (x : str) (members : list str) : list str :=
  if existsb (str_eqb x) members then members else members ++ [x].

Fixpoint insert_sorted (x : str) (l : list str) : list str :=
  match l with
  | [] => [x]
  | y :: l' => if str_ltb y x then y :: insert_sorted x l' else x :: l
  end.

(** [sorted(l)] *)
Definition sorted (l : list str) : list str :=
  fold_right insert_sorted [] l.

End PyStr.

Import PyStr.

(* ================================================================== *)
(** * The validators of [models.py] *)
(* ================================================================== *)

Module Models.

(** The patterns of [TranscriptRequest.validate_date_format]:
    ^\d{4}-\d{2}-\d{2}$   ^\d{2}/\d{2}/\d{4}$   ^\d{2}-\d{2}-\d{4}$ *)
Definition date_patterns : list rx :=
  [ cat [Bol; digit 4 4; chr "-"; digit 2 2; chr "-"; digit 2 2; Eol];
    cat [Bol; digit 2 2; chr "/"; digit 2 2; chr "/"; digit 4 4; Eol];
    cat [Bol; digit 2 2; chr "-"; digit 2 2; chr "-"; digit 4 4; Eol] ].

Definition matches (r : rx) (v : str) : bool :=
  match rmatch r v with Some _ => true | None => false end.

(** [TranscriptRequest.validate_date_format] *)
Definition validate_date_format (v : str) : res str :=
  if negb (existsb (fun pattern => matches pattern v) date_patterns)
  then Raise (ValueError "Date must be in a valid format (e.g., YYYY-MM-DD)")
  else Ret v.

(** [RefinementRequest.validate_speaker_mapping]; the dict is the list of
    its items. *)
Definition validate_speaker_mapping (v : list (str * str))
  : res (list (str * str)) :=
  match v with
  | [] => Raise (ValueError "speaker_mapping cannot be empty")
  | _ =>
    if existsb (fun kv => negb (truthy (strip (fst kv)))
                          || negb (truthy (strip (snd kv)))) v
    then Raise (ValueError "Speaker mapping keys and values cannot be empty")
    else Ret v
  end.

End Models.

(* ================================================================== *)
(** * The helpers of the routers *)
(* ================================================================== *)

Module Routers.

(** \[([^\]]+)\](?:\s*\[\d{1,2}:\d{2}\])?:   in [extract_speakers] *)
Definition speaker_pattern : rx :=
  cat [ chr "["; Cap (Rep (Except ["]"]%char) 1 None); chr "]";
        Opt (cat [ Rep (Class Space) 0 None; chr "["; digit 1 2; chr ":";
                   digit 2 2; chr "]" ]);
        chr ":" ].

(** ^\d{1,2}:\d{2}$ *)
Definition timestamp_pattern : rx :=
  cat [Bol; digit 1 2; chr ":"; digit 2 2; Eol].

(** The loop of [extract_speakers] over the matches. *)
Fixpoint collect_speakers (found : list str) (speakers : list str)
  : list str :=
  match found with
  | [] => speakers
  | m :: rest =>
    match rmatch timestamp_pattern m with
    | None => collect_speakers rest (set_add m speakers)
    | Some _ => collect_speakers rest speakers
    end
  end.

(** [routers/transcribe.py]: [extract_speakers] *)
Definition extract_speakers (transcript : str) : list str :=
  let found := findall false speaker_pattern transcript in
  sorted (collect_speakers found []).

(** ^##\s+(.+)$   with re.MULTILINE, in [extract_sections] *)
Definition section_pattern : rx :=
  cat [ Bol; chr "#"; chr "#"; Rep (Class Space) 1 None;
        Cap (Rep not_newline 1 None); Eol ].

(** [routers/summarize.py]: [extract_sections] *)
Definition extract_sections (markdown : str) : list str :=
  findall true section_pattern markdown.

Definition replaced_message (placeholder real_name : str) (n : nat) : str :=
  lit "Replaced '" ++ placeholder ++ lit "' with '" ++ real_name
      ++ lit "' (" ++ str_of_nat n ++ lit " occurrences)".

(** The loop of [detect_changes] over the items of the mapping. *)
Fixpoint replacements (original refined : str) (mapping : list (str * str))
  : list str :=
  match mapping with
  | [] => []
  | (placeholder, real_name) :: rest =>
    (if contains placeholder original && contains real_name refined
     then
       let original_count :=
           count original (lit "[" ++ placeholder ++ lit "]") in
       let original_count :=
           if original_count =? 0 then count original placeholder
           else original_count in
       if 0 <? original_count
       then [replaced_message placeholder real_name original_count]
       else []
     else [])
      ++ replacements original refined rest
  end.

(** [routers/refine.py]: [detect_changes] *)
Definition detect_changes (original refined : str)
           (mapping : list (str * str)) : list str :=
  let changes := replacements original refined mapping in
  if str_eqb (strip original) (strip refined)
  then changes ++ [lit "No changes were necessary"]
  else match changes with
       | [] => [lit "Speaker names updated and grammar adjusted"]
       | _ => changes
       end.

End Routers.

Import Models Routers.

(* ================================================================== *)
(** * Further notions for the routers and the models *)
(* ================================================================== *)

Module Shapes.

(** A pattern without a capturing group. *)
Fixpoint no_cap (r : rx) : bool :=
  match r with
  | Cap _ => false
  | Seq r1 r2 => no_cap r1 && no_cap r2
  | Opt r1 => no_cap r1
  | _ => true
  end.

(** The character before the position that follows [pre], when [prev] is
    the character before [pre]. *)
Definition prev_char (prev : option ascii) (pre : str) : option ascii :=
  last (map Some pre) prev.

Definition newline : ascii := "010"%char.

(** [A/B/C], the fields joined by slashes. *)
Definition slashed (A B C : str) : str := A ++ lit "/" ++ B ++ lit "/" ++ C.

(** The three layouts that [validate_date_format] knows:
    YYYY-MM-DD, MM/DD/YYYY and MM-DD-YYYY, digits only. *)
Definition date_layout (body : str) : Prop :=
  exists A B C,
    (body = dashed A B C /\ digits 4 A /\ digits 2 B /\ digits 2 C)
    \/ (body = slashed A B C /\ digits 2 A /\ digits 2 B /\ digits 4 C)
    \/ (body = dashed A B C /\ digits 2 A /\ digits 2 B /\ digits 4 C).

(** The number of occurrences that [detect_changes] reports for a
    placeholder: those of the bracketed placeholder and, when there is
    none, those of the placeholder itself. *)
Definition occurrences (original placeholder : str) : nat :=
  let bracketed := count original (lit "[" ++ placeholder ++ lit "]") in
  if bracketed =? 0 then count original placeholder else bracketed.

(** The items of the mapping that [detect_changes] reports as replaced. *)
Definition replaced (original refined : str) (item : str * str) : bool :=
  contains (fst item) original && contains (snd item) refined.

(** Strings in increasing order. *)
Definition str_lt (s t : str) : Prop := str_ltb s t = true.

End Shapes.

Import Shapes.

(* ================================================================== *)
(** * [pathlib]: the suffix of a path *)
(* ================================================================== *)

(** [Path(p).suffix] of a POSIX path, as CPython computes it up to 3.13:
    the name is the last component that is neither empty nor a single
    dot; its suffix starts at its last dot, when this dot is neither the
    first nor the last character of the name. *)

Module Pathlib.

(** [s.split(sep)] for a separator of one character. *)
Fixpoint split (sep : ascii) (s : str) : list str :=
  match s with
  | [] => [[]]
  | a :: s' =>
    if Ascii.eqb a sep then [] :: split sep s'
    else match split sep s' with
         | part :: parts => (a :: part) :: parts
         | [] => [[a]]
         end
  end.

Definition parts (path : str) : list str :=
  filter (fun x => truthy x && negb (str_eqb x (lit ".")))
         (split "/" path).

(** [PurePath.name] *)
Definition name (path : str) : str := last (parts path) [].

(** [s.rfind(c)], [None] for -1. *)
Fixpoint rfind (c : ascii) (s : str) : option nat :=
  match s with
  | [] => None
  | a :: s' =>
    match rfind c s' with
    | Some i => Some (S i)
    | None => if Ascii.eqb a c then Some 0 else None
    end
  end.

(** [PurePath.suffix] *)
Definition suffix (path : str) : str :=
  let name := name path in
  match rfind "." name with
  | Some i => if (0 <? i) && (i <? length name - 1) then skipn i name else []
  | None => []
  end.

End Pathlib.

Import Pathlib.

(* ================================================================== *)
(** * The settings and the audio service *)
(* ================================================================== *)

Module Config.

(** The settings that the routers read. *)
Record Settings :=
  { max_file_size_mb : N;
    allowed_audio_extensions : list str }.

Definition max_file_size_bytes (settings : Settings) : N :=
  (max_file_size_mb settings * 1024 * 1024)%N.

(** The values of the settings when the environment sets none. *)
Definition defaults : Settings :=
  {| max_file_size_mb := 100;
     allowed_audio_extensions :=
       [lit ".mp3"; lit ".wav"; lit ".m4a"; lit ".ogg"; lit ".webm"] |}.

End Config.

Module AudioService.

(** [os.path.join(directory, file)] for a [file] that does not begin
    with a slash. *)
Definition path_join (directory file : str) : str :=
  match rev directory with
  | [] => file
  | last_char :: _ =>
    if Ascii.eqb last_char "/" then directory ++ file
    else directory ++ lit "/" ++ file
  end.

(** What the disk does for one request: [aiofiles.open(file_path, 'wb')],
    which creates the file when it returns; writing the content and
    closing the file; [os.path.exists(temp_path)] at the end of the
    request; and [os.remove(temp_path)]. *)
Record Disk :=
  { open_file : res unit;
    write_file : res unit;
    path_exists : bool;
    remove_file : res unit }.

(** [save_temp_file]: [unique_id] is [uuid.uuid4().hex[:12]].  Beside
    its outcome, the file that it has created: a write that fails leaves
    the file that [open] created. *)
Definition save_temp_file (temp_dir unique_id : str) (disk : Disk)
           (extension : str) : res str * option str :=
  let filename := lit "audio_" ++ unique_id ++ extension in
  let file_path := path_join temp_dir filename in
  match open_file disk with
  | Raise e => (Raise e, None)
  | Ret _ =>
    match write_file disk with
    | Ret _ => (Ret file_path, Some file_path)
    | Raise e => (Raise e, Some file_path)   (* except IOError: raise *)
    end
  end.

(** [validate_extension] *)
Definition validate_extension (filename : str) (allowed : list str) : bool :=
  let extension := lower (suffix filename) in
  existsb (str_eqb extension) allowed.

End AudioService.

(* ================================================================== *)
(** * The three endpoints *)
(* ================================================================== *)

Module Endpoints.

Import Config AudioService.

(** What a handler leaves to FastAPI: a response body, or an
    [HTTPException]. *)
Inductive reply (A : Type) :=
| Ok (body : A)
| HTTPException (status_code : nat) (detail : str).
Arguments Ok {A} body.
Arguments HTTPException {A} status_code detail.

Definition status {A} (r : reply A) : nat :=
  match r with
  | Ok _ => 200
  | HTTPException status_code _ => status_code
  end.

(** How the [try] block of a handler ends. *)
Inductive ending (A : Type) :=
| Returned (body : A)
| RaisedHTTP (status_code : nat) (detail : str)
| Raised (e : exn).
Arguments Returned {A} body.
Arguments RaisedHTTP {A} status_code detail.
Arguments Raised {A} e.

(** [sep.join(l)] *)
Fixpoint join (sep : str) (l : list str) : str :=
  match l with
  | [] => []
  | [x] => x
  | x :: l' => x ++ sep ++ join sep l'
  end.

Definition str_of_N (n : N) : str :=
  lit (NilEmpty.string_of_uint (N.to_uint n)).

(** The fields of the responses; the processing time, which the clock
    gives, is left out. *)
Record TranscriptionResponse :=
  { filename : str;
    detected_date : option str;
    transcript : str;
    speakers_identified : list str }.

Record RefinementResponse :=
  { refined_transcript : str;
    changes_made : list str }.


(** The upload: [file.filename], and the outcome of [await file.read()]
    as the number of bytes read. *)
Record UploadFile :=
  { upload_filename : option str;
    upload_read : res N }.

(** What a request did to the outside: the temporary file that it
    created, the file that it removed, the attempts and the sleeps of the
    retry wrapper, and what each attempt asked of the provider. *)
Record Trace :=
  { created : option str;
    removed : option str;
    gemini : Effects;
    usage : list Usage }.

Definition idle : Effects := {| calls := 0; sleeps := [] |}.

Section Handlers.

Variable settings : Settings.
Variable year_padded : bool.

(** [str(e)] of an exception. *)
Variable exn_str : exn -> str.

(** The [try] block of [transcribe_audio]: how it ends, the temporary
    path that it has set, and what it did to the outside. *)
Definition transcribe_try (fuel patience : nat) (file : UploadFile)
           (temp_dir unique_id : str) (disk : Disk)
           (provider : nat -> Genai)
  : option (ending TranscriptionResponse * option str
            * option str * Effects * list Usage) :=
  let filename :=
      match upload_filename file with
      | Some (a :: s) => a :: s
      | _ => lit "audio_file"
      end in
  let file_ext := lower (suffix filename) in
  if negb (existsb (str_eqb file_ext) (allowed_audio_extensions settings))
  then Some (RaisedHTTP 400
               (lit "Invalid file format. Allowed formats: "
                    ++ join (lit ", ") (allowed_audio_extensions settings)),
             None, None, idle, [])
  else
    match upload_read file with
    | Raise e => Some (Raised e, None, None, idle, [])
    | Ret file_size =>
      if (max_file_size_bytes settings <? file_size)%N
      then Some (RaisedHTTP 400
                   (lit "File too large. Maximum size: "
                        ++ str_of_N (max_file_size_mb settings)
                        ++ lit " MB"),
                 None, None, idle, [])
      else if (file_size =? 0)%N
      then Some (RaisedHTTP 400 (lit "Empty file uploaded"),
                 None, None, idle, [])
      else
        match save_temp_file temp_dir unique_id disk file_ext with
        | (Raise e, file) => Some (Raised e, None, file, idle, [])
        | (Ret temp_path, file) =>
          match extract_date year_padded (Some filename) with
          | Raise e => Some (Raised e, Some temp_path, file, idle, [])
          | Ret detected_date =>
            match GeminiService.transcribe_audio fuel patience provider with
            | None => None
            | Some (Raise e, w, used) =>
              Some (Raised e, Some temp_path, file, w, used)
            | Some (Ret transcript, w, used) =>
              let speakers := extract_speakers transcript in
              Some (Returned {| filename := filename;
                                detected_date := detected_date;
                                transcript := transcript;
                                speakers_identified := speakers |},
                    Some temp_path, file, w, used)
            end
          end
        end
    end.

(** The [except] clauses of [transcribe_audio]. *)
Definition transcribe_except (e : ending TranscriptionResponse)
  : reply TranscriptionResponse :=
  match e with
  | Returned body => Ok body
  | RaisedHTTP status_code detail => HTTPException status_code detail
  | Raised (TimeoutError _) =>
    HTTPException
      408 (lit "Transcription timed out. Please try with a shorter audio file.")
  | Raised e =>
    HTTPException 500 (lit "Transcription failed: " ++ exn_str e)
  end.

(** The [finally] clause of [transcribe_audio], as the file that it
    removes: [if temp_path and os.path.exists(temp_path)], then
    [os.remove(temp_path)], whose error is logged and dropped. *)
Definition cleanup (disk : Disk) (temp_path : option str) : option str :=
  match temp_path with
  | Some path =>
    if truthy path && path_exists disk
    then match remove_file disk with
         | Ret _ => Some path
         | Raise _ => None   (* except Exception as e: logger.warning(...) *)
         end
    else None
  | None => None
  end.

(** [routers/transcribe.py]: [transcribe_audio] *)
Definition transcribe_audio (fuel patience : nat) (file : UploadFile)
           (temp_dir unique_id : str) (disk : Disk)
           (provider : nat -> Genai)
  : option (reply TranscriptionResponse * Trace) :=
  match transcribe_try fuel patience file temp_dir unique_id disk provider
  with
  | None => None
  | Some (e, temp_path, file_created, w, used) =>
    Some (transcribe_except e,
          {| created := file_created; removed := cleanup disk temp_path;
             gemini := w; usage := used |})
  end.

(** The [except] clauses of [refine_transcript] and of
    [summarize_transcript]; [what] is the word of the detail. *)
Definition report_failure {A} (what : str) (e : ending A) : reply A :=
  match e with
  | Returned body => Ok body
  | RaisedHTTP status_code detail => HTTPException status_code detail
  | Raised e => HTTPException 500 (what ++ lit " failed: " ++ exn_str e)
  end.

(** [routers/refine.py]: [refine_transcript]; the request is its
    transcript and its mapping (the feedback only reaches the provider). *)
Definition refine_transcript (fuel : nat) (request_transcript : str)
           (speaker_mapping : list (str * str)) (provider : nat -> res str)
  : option (reply RefinementResponse * Effects * list Usage) :=
  match speaker_mapping with
  | [] =>
    Some (report_failure
            (lit "Refinement")
            (RaisedHTTP 400 (lit "Speaker mapping cannot be empty")),
          idle, [])
  | _ =>
    match GeminiService.refine_transcript fuel provider with
    | None => None
    | Some (Raise e, w, used) =>
      Some (report_failure (lit "Refinement") (Raised e), w, used)
    | Some (Ret refined, w, used) =>
      let changes := detect_changes request_transcript refined
                                    speaker_mapping in
      Some (report_failure
              (lit "Refinement")
              (Returned {| refined_transcript := refined;
                           changes_made := changes |}),
            w, used)
    end
  end.


End Handlers.

End Endpoints.

(* ================================================================== *)
(** * Further notions for the endpoints *)
(* ================================================================== *)

Module Requests.

Import Config AudioService Endpoints.

(** The name under which [transcribe_audio] treats an upload. *)
Definition upload_name (file : UploadFile) : str :=
  match upload_filename file with
  | Some (a :: s) => a :: s
  | _ => lit "audio_file"
  end.

(** An upload that [transcribe_audio] turns down: its extension is not
    one of the allowed ones, or it holds no byte, or too many. *)
Definition rejected (settings : Settings) (file : UploadFile) : Prop :=
  validate_extension (upload_name file) (allowed_audio_extensions settings)
  = false
  \/ exists file_size,
      upload_read file = Ret file_size
      /\ (file_size = 0 \/ max_file_size_bytes settings < file_size)%N.

(** An upload that passes the checks, with its size. *)
Definition accepted (settings : Settings) (file : UploadFile)
           (file_size : N) : Prop :=
  validate_extension (upload_name file) (allowed_audio_extensions settings)
  = true
  /\ upload_read file = Ret file_size
  /\ (0 < file_size <= max_file_size_bytes settings)%N.

(** The path of the temporary file of an upload. *)
Definition temp_file_path (temp_dir unique_id : str) (file : UploadFile)
  : str :=
  path_join temp_dir
            (lit "audio_" ++ unique_id ++ lower (suffix (upload_name file))).

(** The polling of each of the first three attempts ends within
    [patience] polls. *)
Definition polling_ends (patience : nat) (provider : nat -> Genai) : Prop :=
  forall k, k < 3 -> transcribe_block patience (provider k) <> None.

(** A provider that leaves the uploaded file in [PROCESSING]. *)
Definition stuck : Genai :=
  {| upload_file := Ret PROCESSING;
     get_file := fun _ => Ret PROCESSING;
     generate_content := Ret (Ret []);
     delete_file := Ret tt |}.

(** A provider that leaves the uploaded file in [PROCESSING] until its
    poll number [n], counted from 0, and then answers with [text]. *)
Definition slow (n : nat) (text : str) : Genai :=
  {| upload_file := Ret PROCESSING;
     get_file := fun k => if k <? n then Ret PROCESSING else Ret ACTIVE;
     generate_content := Ret (Ret text);
     delete_file := Ret tt |}.

(** What a run of the block of [refine_transcript] or of
    [generate_summary] asks of the provider: one request, no polling. *)
Definition one_request : Usage := {| requests := 1; polls := 0 |}.

End Requests.

Import Config AudioService Endpoints Requests.
Unset Implicit Arguments.

(* ================================================================== *)
(** * Facts about the matcher *)
(* ================================================================== *)

Section MatcherFacts.

Lemma span_le_length (c : cclass) (s : str) :
  forall limit, span c limit s <= length s.
Proof.
  induction s as [|a s IH]; intros limit.
  - destruct limit as [[|n]|]; simpl; lia.
  - destruct limit as [[|n]|]; simpl; try lia;
      destruct (in_class c a); simpl; try lia.
    + specialize (IH (Some n)). lia.
    + specialize (IH None). lia.
Qed.

Lemma span_le_limit (c : cclass) (s : str) :
  forall n, span c (Some n) s <= n.
Proof.
  induction s as [|a s IH]; intros n.
  - destruct n; simpl; lia.
  - destruct n as [|n]; simpl; try lia.
    destruct (in_class c a); try lia.
    specialize (IH n). simpl. lia.
Qed.

Lemma span_prefix_class (c : cclass) (s : str) :
  forall limit k, k <= span c limit s ->
                  forallb (in_class c) (firstn k s) = true.
Proof.
  induction s as [|a s IH]; intros limit k Hk.
  - destruct k; reflexivity.
  - destruct k as [|k]; [reflexivity|].
    simpl firstn. simpl forallb.
    destruct limit as [[|n]|]; simpl in Hk; try lia;
      destruct (in_class c a) eqn:Ha; try lia; simpl;
        eapply IH with (limit := _); apply le_S_n, Hk.
Qed.

Lemma span_reject (c : cclass) (limit : option nat) (a : ascii) (s : str) :
  in_class c a = false -> span c limit (a :: s) = 0.
Proof.
  intros H. destruct limit as [[|n]|]; simpl; now rewrite ?H.
Qed.

Lemma backtrack_None_below {A} (lo k : nat) (try : nat -> option A) :
  k < lo -> backtrack lo k try = None.
Proof.
  intros H. destruct k; simpl; apply Nat.ltb_lt in H; now rewrite H.
Qed.

(** The first count that is tried is the longest one. *)
Lemma backtrack_longest {A} (lo k : nat) (try : nat -> option A) (r : A) :
  lo <= k -> try k = Some r -> backtrack lo k try = Some r.
Proof.
  intros H Hk. apply Nat.ltb_ge in H.
  destruct k; simpl; now rewrite H, Hk.
Qed.

(** A successful backtracking found its result at some count between the
    bounds, after every longer count had failed. *)
Lemma backtrack_Some {A} (lo : nat) (try : nat -> option A) (r : A) :
  forall k, backtrack lo k try = Some r ->
            exists j, lo <= j <= k /\ try j = Some r
                      /\ forall i, j < i <= k -> try i = None.
Proof.
  induction k as [|k IH]; intros H; cbn [backtrack] in H.
  - destruct (0 <? lo) eqn:E; [discriminate|]. apply Nat.ltb_ge in E.
    destruct (try 0) eqn:T; [|discriminate].
    exists 0. split; [lia|]. split; [congruence|]. intros i Hi; lia.
  - destruct (S k <? lo) eqn:E; [discriminate|]. apply Nat.ltb_ge in E.
    destruct (try (S k)) eqn:T.
    + exists (S k). split; [lia|]. split; [congruence|]. intros i Hi; lia.
    + destruct (IH H) as (j & Hj & Tj & Hn).
      exists j. split; [lia|]. split; [exact Tj|].
      intros i Hi. destruct (Nat.eq_dec i (S k)) as [->|Hne]; [exact T|].
      apply Hn. lia.
Qed.

(** The groups of a match have the shape that the pattern dictates. *)
Lemma match_here_shape (r : regex) :
  forall s len gs, match_here r s = Some (len, gs) -> groups_shape r gs.
Proof.
  induction r as [|n r IH]; intros s len gs H; simpl in H.
  - now inversion H.
  - apply backtrack_Some in H as (j & Hj & Hm & _).
    destruct (match_here r (skipn j s)) as [[len' gs']|] eqn:E;
      [|discriminate].
    inversion Hm; subst; clear Hm.
    apply IH in E.
    destruct n as [a|a]; simpl in *; [exact E|].
    split; [|exact E].
    assert (Hlen : length (firstn j s) = j).
    { apply firstn_length_le.
      pose proof (span_le_length (cls a) s (hi a)). lia. }
    repeat split.
    + apply span_prefix_class with (limit := hi a). lia.
    + lia.
    + intros m Hm. rewrite Hlen. rewrite Hm in Hj.
      pose proof (span_le_limit (cls a) s m). lia.
Qed.

Lemma search_from_shape (r : regex) :
  forall s pos m, search_from r pos s = Some m -> groups_shape r (groups m).
Proof.
  induction s as [|a s IH]; intros pos m H; simpl in H.
  - destruct (match_here r []) as [[len gs]|] eqn:E; [|discriminate].
    inversion H; subst; simpl. eapply match_here_shape; eauto.
  - destruct (match_here r (a :: s)) as [[len gs]|] eqn:E.
    + inversion H; subst; simpl. eapply match_here_shape; eauto.
    + eapply IH; eauto.
Qed.

(** [search] reports the leftmost start position at which the pattern
    matches, with the groups of the match at that position. *)
Lemma search_from_leftmost (r : regex) :
  forall s pos m,
    search_from r pos s = Some m ->
    exists i len,
      m_start m = pos + i /\ m_end m = pos + i + len
      /\ match_here r (skipn i s) = Some (len, groups m)
      /\ forall j, j < i -> match_here r (skipn j s) = None.
Proof.
  induction s as [|a s IH]; intros pos m H; simpl in H.
  - destruct (match_here r []) as [[len gs]|] eqn:E; [|discriminate].
    inversion H; subst; simpl. exists 0, len.
    split; [lia|]. split; [lia|]. split; [exact E|]. intros j Hj; lia.
  - destruct (match_here r (a :: s)) as [[len gs]|] eqn:E.
    + inversion H; subst; simpl. exists 0, len.
      split; [lia|]. split; [lia|]. split; [exact E|]. intros j Hj; lia.
    + destruct (IH _ _ H) as (i & len & Hs & He & Hm & Hn).
      exists (S i), len.
      split; [lia|]. split; [lia|]. split; [exact Hm|].
      intros j Hj. destruct j as [|j]; [exact E|]. apply Hn. lia.
Qed.

Lemma search_from_None (r : regex) :
  forall s pos,
    search_from r pos s = None ->
    forall j, j <= length s -> match_here r (skipn j s) = None.
Proof.
  induction s as [|a s IH]; intros pos H j Hj; simpl in H.
  - destruct (match_here r []) as [[len gs]|] eqn:E; [discriminate|].
    destruct j; simpl; [exact E|]. simpl in Hj; lia.
  - destruct (match_here r (a :: s)) as [[len gs]|] eqn:E; [discriminate|].
    destruct j as [|j]; [exact E|]. simpl. eapply IH; eauto.
    simpl in Hj. lia.
Qed.

(** Start positions at which the pattern does not match are skipped. *)
Lemma search_from_skip (r : regex) (s2 : str) :
  forall s1 pos,
    (forall j, j < length s1 -> match_here r (skipn j (s1 ++ s2)) = None) ->
    search_from r pos (s1 ++ s2) = search_from r (pos + length s1) s2.
Proof.
  induction s1 as [|a s1 IH]; intros pos H.
  - simpl. now rewrite Nat.add_0_r.
  - assert (E : match_here r ((a :: s1) ++ s2) = None)
      by (apply (H 0); simpl; lia).
    assert (Hstep : search_from r pos ((a :: s1) ++ s2)
                    = search_from r (S pos) (s1 ++ s2)).
    { simpl. simpl in E. now rewrite E. }
    rewrite Hstep, IH.
    + f_equal. simpl. lia.
    + intros j Hj. apply (H (S j)). simpl. lia.
Qed.

End MatcherFacts.

(* ================================================================== *)
(** * Facts about digits, [int] and [datetime] *)
(* ================================================================== *)

Section NumberFacts.

Local Open Scope Z_scope.

Lemma digit_value_range (a : ascii) :
  is_digit a = true -> 0 <= digit_value a <= 9.
Proof.
  unfold is_digit, digit_value. intros H.
  apply andb_true_iff in H as [H1 H2].
  apply Nat.leb_le in H1, H2. lia.
Qed.

Lemma digit_char_value (a : ascii) :
  is_digit a = true -> digit_char (digit_value a) = a.
Proof.
  unfold is_digit, digit_value, digit_char. intros H.
  apply andb_true_iff in H as [H1 H2].
  apply Nat.leb_le in H1, H2.
  replace (Z.to_nat (48 + (Z.of_nat (nat_of_ascii a) - 48)))
    with (nat_of_ascii a) by lia.
  apply ascii_nat_embedding.
Qed.

Lemma digit_char_cases (d : Z) :
  0 <= d <= 9 ->
  is_digit (digit_char d) = true
  /\ (digit_char d = "0"%char -> d = 0).
Proof.
  intros H.
  assert (E : d = 0 \/ d = 1 \/ d = 2 \/ d = 3 \/ d = 4 \/ d = 5
              \/ d = 6 \/ d = 7 \/ d = 8 \/ d = 9) by lia.
  repeat (destruct E as [E|E]; [subst d; split;
                                [reflexivity|intros D; now inversion D]|]).
  subst d; split; [reflexivity|intros D; now inversion D].
Qed.

Lemma fold_digits_range (s : str) :
  forallb is_digit s = true ->
  forall acc, 0 <= acc ->
    let v := fold_left (fun acc a => 10 * acc + digit_value a) s acc in
    acc * 10 ^ Z.of_nat (length s) <= v
    /\ v < (acc + 1) * 10 ^ Z.of_nat (length s).
Proof.
  induction s as [|a s IH]; intros H acc Hacc; cbn [fold_left length].
  - cbv zeta. change (Z.of_nat 0) with 0. lia.
  - simpl in H. apply andb_true_iff in H as [Ha H].
    pose proof (digit_value_range a Ha) as Hd.
    destruct (IH H (10 * acc + digit_value a) ltac:(lia)) as [L U].
    cbv zeta in L, U |- *.
    rewrite Nat2Z.inj_succ, Z.pow_succ_r by lia.
    assert (P : 0 < 10 ^ Z.of_nat (length s))
      by (apply Z.pow_pos_nonneg; lia).
    split; nia.
Qed.

Lemma digits_value_range (s : str) :
  forallb is_digit s = true ->
  0 <= digits_value s < 10 ^ Z.of_nat (length s).
Proof.
  intros H. destruct (fold_digits_range s H 0 ltac:(lia)) as [L U].
  unfold digits_value. cbv zeta in L, U. lia.
Qed.

Lemma int_digits (s : str) :
  s <> [] -> forallb is_digit s = true -> int s = Ret (digits_value s).
Proof.
  intros Hne H. unfold int. rewrite H.
  destruct s; [congruence|reflexivity].
Qed.

Lemma dict_get_In (d : list (str * str)) (k v : str) :
  dict_get d k = Some v -> In v (map snd d).
Proof.
  induction d as [|[k' v'] d IH]; simpl; [discriminate|].
  destruct (str_eqb k' k).
  - intros E; inversion E; now left.
  - intros E; right; auto.
Qed.

(** Every value of [MONTHS] reads as a month number. *)
Lemma MONTHS_values (k v : str) :
  dict_get MONTHS k = Some v ->
  truthy v = true
  /\ int v = Ret (digits_value v) /\ 1 <= digits_value v <= 12.
Proof.
  intros H. apply dict_get_In in H.
  assert (A : Forall (fun v => truthy v = true
                               /\ int v = Ret (digits_value v)
                               /\ 1 <= digits_value v <= 12)
                     (map snd MONTHS)).
  { repeat (constructor;
            [split; [reflexivity|];
             split; [reflexivity|split; apply Z.leb_le; reflexivity]|]).
    constructor. }
  rewrite Forall_forall in A. auto.
Qed.

Lemma valid_dateb_spec (y m d : Z) :
  Datetime.valid_dateb y m d = true <-> Datetime.valid_date y m d.
Proof.
  unfold Datetime.valid_dateb, Datetime.valid_date.
  rewrite !andb_true_iff, !Z.leb_le. tauto.
Qed.

(** [datetime(y, m, d)] succeeds exactly on the valid dates, and fails
    with [ValueError] on the others, when the arguments fit a C int. *)
Lemma make_cases (y m d : Z) :
  Z.abs y <= Datetime.INT_MAX -> Z.abs m <= Datetime.INT_MAX ->
  Z.abs d <= Datetime.INT_MAX ->
  (Datetime.valid_date y m d
   /\ Datetime.make y m d
      = Ret {| Datetime.year := y; Datetime.month := m; Datetime.day := d |})
  \/ (~ Datetime.valid_date y m d
      /\ exists msg, Datetime.make y m d = Raise (ValueError msg)).
Proof.
  intros Hy Hm Hd. unfold Datetime.make, Datetime.valid_date.
  unfold Datetime.INT_MAX, Datetime.MINYEAR, Datetime.MAXYEAR in *.
  destruct (2147483647 <? Z.abs y) eqn:E1; [apply Z.ltb_lt in E1; lia|].
  destruct (2147483647 <? Z.abs m) eqn:E2; [apply Z.ltb_lt in E2; lia|].
  destruct (2147483647 <? Z.abs d) eqn:E3; [apply Z.ltb_lt in E3; lia|].
  cbn [orb].
  destruct (y <? 1) eqn:Y1; cbn [orb].
  { right. apply Z.ltb_lt in Y1. split; [lia|eauto]. }
  destruct (9999 <? y) eqn:Y2; cbn [orb].
  { right. apply Z.ltb_lt in Y2. split; [lia|eauto]. }
  destruct (m <? 1) eqn:M1; cbn [orb].
  { right. apply Z.ltb_lt in M1. split; [lia|eauto]. }
  destruct (12 <? m) eqn:M2; cbn [orb].
  { right. apply Z.ltb_lt in M2. split; [lia|eauto]. }
  destruct (d <? 1) eqn:D1; cbn [orb].
  { right. apply Z.ltb_lt in D1. split; [lia|eauto]. }
  destruct (Datetime.days_in_month y m <? d) eqn:D2.
  { right. apply Z.ltb_lt in D2. split; [lia|eauto]. }
  left. apply Z.ltb_ge in Y1, Y2, M1, M2, D1, D2. split; [lia|reflexivity].
Qed.

(** A [datetime] that was built is a valid date. *)
Lemma make_Ret (y m d : Z) (dt : Datetime.datetime) :
  Datetime.make y m d = Ret dt ->
  Datetime.valid_date y m d
  /\ dt = {| Datetime.year := y; Datetime.month := m; Datetime.day := d |}.
Proof.
  unfold Datetime.make, Datetime.valid_date.
  unfold Datetime.MINYEAR, Datetime.MAXYEAR.
  destruct (_ || _ || _); [discriminate|].
  destruct (y <? 1) eqn:Y1; cbn [orb]; [discriminate|].
  destruct (9999 <? y) eqn:Y2; cbn [orb]; [discriminate|].
  destruct (m <? 1) eqn:M1; cbn [orb]; [discriminate|].
  destruct (12 <? m) eqn:M2; cbn [orb]; [discriminate|].
  destruct (d <? 1) eqn:D1; cbn [orb]; [discriminate|].
  destruct (Datetime.days_in_month y m <? d) eqn:D2; [discriminate|].
  intros E; inversion E. apply Z.ltb_ge in Y1, Y2, M1, M2, D1, D2.
  split; [lia|reflexivity].
Qed.

Lemma days_in_month_le_31 (y m : Z) : Datetime.days_in_month y m <= 31.
Proof.
  unfold Datetime.days_in_month.
  destruct ((m =? 2) && Datetime.is_leap y); [lia|].
  unfold Datetime.DAYS_IN_MONTH.
  generalize (Z.to_nat m) as k. intros k.
  do 13 (destruct k as [|k]; [simpl; lia|]).
  simpl. destruct k; lia.
Qed.

End NumberFacts.

(* ================================================================== *)
(** * Facts about [_format_date], [_parse_match] and the pattern loop *)
(* ================================================================== *)

Section ExtractorFacts.

Variable year_padded : bool.

Local Open Scope Z_scope.

Lemma format_date_Some (y m d : Z) (date : str) :
  _format_date year_padded y m d = Ret (Some date) ->
  Datetime.valid_date y m d
  /\ date = Datetime.strftime_ymd year_padded
              {| Datetime.year := y; Datetime.month := m; Datetime.day := d |}.
Proof.
  unfold _format_date.
  destruct (Datetime.make y m d) as [dt|e] eqn:E.
  - apply make_Ret in E as [V ->]. intros H; inversion H. now split.
  - destruct e; discriminate.
Qed.

(** A date that [_parse_match] returns is a valid date, printed by
    [strftime]. *)
Lemma parse_match_Some (gs : list str) (ft : format_type) (date : str) :
  _parse_match year_padded gs ft = Ret (Some date) ->
  exists y m d,
    Datetime.valid_date y m d
    /\ date = Datetime.strftime_ymd year_padded
                {| Datetime.year := y; Datetime.month := m;
                   Datetime.day := d |}.
Proof.
  unfold _parse_match.
  destruct ft; destruct (unpack3 gs) as [[[a b] c]|e]; cbn [bind];
    try discriminate;
    try (destruct (_month_to_number _) as [month|]; [|discriminate];
         destruct (truthy month); [|discriminate]);
    repeat match goal with
           | |- context [bind (int ?s) _] =>
             destruct (int s); cbn [bind]; [|discriminate]
           end;
    intros H; apply format_date_Some in H as [V E]; eauto.
Qed.

Lemma digit_group_int (a : atom) (g : str) :
  group_ok a g -> cls a = Digit -> (1 <= lo a)%nat ->
  match hi a with Some n => (n <= 4)%nat | None => False end ->
  int g = Ret (digits_value g) /\ 0 <= digits_value g <= 9999.
Proof.
  intros (Hc & Hlo & Hhi) Hcls L N. rewrite Hcls in Hc. simpl in Hc.
  destruct (hi a) as [n|]; [|contradiction].
  specialize (Hhi n eq_refl). split.
  - apply int_digits; [|exact Hc]. destruct g; [simpl in Hlo; lia|congruence].
  - pose proof (digits_value_range g Hc) as R.
    assert (10 ^ Z.of_nat (length g) <= 10 ^ 4)
      by (apply Z.pow_le_mono_r; lia).
    lia.
Qed.

Lemma format_date_dec (y m d : Z) :
  0 <= y <= 9999 -> 0 <= m <= 9999 -> 0 <= d <= 9999 ->
  _format_date year_padded y m d = Ret (date_of year_padded (Some (y, m, d))).
Proof.
  intros Hy Hm Hd. unfold _format_date, date_of.
  destruct (make_cases y m d) as [[V E]|[V [msg E]]];
    try (unfold Datetime.INT_MAX; lia); rewrite E.
  - apply valid_dateb_spec in V. now rewrite V.
  - destruct (Datetime.valid_dateb y m d) eqn:B; [|reflexivity].
    apply valid_dateb_spec in B. contradiction.
Qed.

(** On the groups of a match of one of the seven patterns,
    [_parse_match] does not raise: it returns the date that the groups
    stand for when they stand for a valid date, and [None] otherwise. *)
Lemma parse_match_interpret (p : regex) (ft : format_type) (gs : list str) :
  In (p, ft) PATTERNS -> groups_shape p gs ->
  _parse_match year_padded gs ft = Ret (date_of year_padded (interpret gs ft)).
Proof.
  intros HIn S.
  pose proof digit_group_int as D.
  simpl in HIn.
  repeat (destruct HIn as [HIn|HIn];
          [inversion HIn; subst p ft; clear HIn|]); [..|contradiction];
    simpl in S;
    destruct gs as [|g1 [|g2 [|g3 [|g4 gs]]]];
    try tauto; try (destruct S as (_ & _ & _ & S); discriminate);
    destruct S as (G1 & G2 & G3 & _);
    unfold _parse_match, unpack3, interpret; cbn [bind].
  1-5: destruct (D _ _ G1) as [I1 B1];
       [reflexivity|simpl; lia|simpl; lia|];
       destruct (D _ _ G2) as [I2 B2];
       [reflexivity|simpl; lia|simpl; lia|];
       destruct (D _ _ G3) as [I3 B3];
       [reflexivity|simpl; lia|simpl; lia|];
       rewrite I1, I2, I3; cbn [bind];
       apply format_date_dec; lia.
  - destruct (_month_to_number g1) as [month|] eqn:M; [|reflexivity].
    apply MONTHS_values in M as (TM & IM & BM). rewrite TM.
    destruct (D _ _ G2) as [I2 B2];
      [reflexivity|simpl; lia|simpl; lia|].
    destruct (D _ _ G3) as [I3 B3];
      [reflexivity|simpl; lia|simpl; lia|].
    rewrite IM, I2, I3; cbn [bind].
    apply format_date_dec; lia.
  - destruct (_month_to_number g2) as [month|] eqn:M; [|reflexivity].
    apply MONTHS_values in M as (TM & IM & BM). rewrite TM.
    destruct (D _ _ G1) as [I1 B1];
      [reflexivity|simpl; lia|simpl; lia|].
    destruct (D _ _ G3) as [I3 B3];
      [reflexivity|simpl; lia|simpl; lia|].
    rewrite IM, I1, I3; cbn [bind].
    apply format_date_dec; lia.
Qed.

Lemma truthy_app_cons (s t : str) (a : ascii) : truthy (s ++ a :: t) = true.
Proof. destruct s; reflexivity. Qed.

Lemma strftime_truthy (dt : Datetime.datetime) :
  truthy (Datetime.strftime_ymd year_padded dt) = true.
Proof. unfold Datetime.strftime_ymd. apply truthy_app_cons. Qed.

Lemma date_of_truthy (t : option (Z * Z * Z)) (date : str) :
  date_of year_padded t = Some date -> truthy date = true.
Proof.
  destruct t as [[[y m] d]|]; simpl; [|discriminate].
  destruct (Datetime.valid_dateb y m d); [|discriminate].
  intros E; inversion E. apply strftime_truthy.
Qed.

(** What a pattern of the table proposes is the date of its first
    occurrence. *)
Lemma candidate_interpret (p : regex) (ft : format_type) (filename : str) :
  In (p, ft) PATTERNS ->
  candidate year_padded (p, ft) filename
  = match search p filename with
    | Some m => date_of year_padded (interpret (groups m) ft)
    | None => None
    end.
Proof.
  intros HIn. unfold candidate. simpl fst; simpl snd.
  destruct (search p filename) as [m|] eqn:E; [|reflexivity].
  apply search_from_shape in E.
  rewrite (parse_match_interpret _ _ _ HIn E).
  now destruct (date_of year_padded (interpret (groups m) ft)).
Qed.

(** One turn of the loop: the pattern's candidate is returned when there
    is one, and otherwise the loop goes on with the remaining patterns. *)
Lemma try_patterns_step (p : regex) (ft : format_type)
      (rest : list (regex * format_type)) (filename : str) :
  In (p, ft) PATTERNS ->
  try_patterns year_padded ((p, ft) :: rest) filename
  = match candidate year_padded (p, ft) filename with
    | Some date => Ret (Some date)
    | None => try_patterns year_padded rest filename
    end.
Proof.
  intros HIn. rewrite (candidate_interpret _ _ _ HIn).
  cbn [try_patterns].
  destruct (search p filename) as [m|] eqn:E; [|reflexivity].
  apply search_from_shape in E.
  rewrite (parse_match_interpret _ _ _ HIn E).
  destruct (date_of year_padded (interpret (groups m) ft)) as [date|] eqn:Dt;
    [|reflexivity].
  now rewrite (date_of_truthy _ _ Dt).
Qed.

(** The loop computes the first valid candidate, and never raises. *)
Lemma try_patterns_first_valid (filename : str) :
  forall patterns,
    incl patterns PATTERNS ->
    try_patterns year_padded patterns filename
    = Ret (first_valid year_padded patterns filename).
Proof.
  induction patterns as [|[p ft] rest IH]; intros Hincl; [reflexivity|].
  rewrite try_patterns_step by (apply Hincl; now left).
  cbn [first_valid].
  destruct (candidate year_padded (p, ft) filename); [reflexivity|].
  apply IH. intros x Hx. apply Hincl. now right.
Qed.

Lemma first_valid_nil (patterns : list (regex * format_type)) :
  incl patterns PATTERNS -> first_valid year_padded patterns [] = None.
Proof.
  induction patterns as [|[p ft] rest IH]; intros Hincl; [reflexivity|].
  cbn [first_valid].
  assert (HIn : In (p, ft) PATTERNS) by (apply Hincl; now left).
  assert (E : candidate year_padded (p, ft) [] = None).
  { unfold candidate. simpl in HIn.
    repeat (destruct HIn as [HIn|HIn];
            [inversion HIn; subst p ft; reflexivity|]).
    contradiction. }
  rewrite E. apply IH. intros x Hx. apply Hincl. now right.
Qed.

(** [extract_date] on a string is the first valid candidate of the table. *)
Lemma extract_date_first_valid (filename : str) :
  extract_date year_padded (Some filename)
  = Ret (first_valid year_padded PATTERNS filename).
Proof.
  unfold extract_date. destruct filename as [|a s].
  - cbn [truthy]. now rewrite first_valid_nil by apply incl_refl.
  - cbn [truthy]. apply try_patterns_first_valid, incl_refl.
Qed.

Lemma first_valid_Some (filename date : str) :
  forall patterns,
    first_valid year_padded patterns filename = Some date ->
    exists p ft m,
      In (p, ft) patterns /\ search p filename = Some m
      /\ _parse_match year_padded (groups m) ft = Ret (Some date).
Proof.
  induction patterns as [|[p ft] rest IH]; cbn [first_valid]; [discriminate|].
  destruct (candidate year_padded (p, ft) filename) as [c|] eqn:C.
  - intros E; inversion E; subst c. unfold candidate in C.
    simpl fst in C; simpl snd in C.
    destruct (search p filename) as [m|] eqn:Sm; [|discriminate].
    destruct (_parse_match year_padded (groups m) ft) as [[c|]|] eqn:P;
      try discriminate.
    inversion C; subst c. exists p, ft, m. repeat split; auto. now left.
  - intros E. destruct (IH E) as (p' & ft' & m & HIn & Sm & P).
    exists p', ft', m. repeat split; auto. now right.
Qed.

End ExtractorFacts.

(* ================================================================== *)
(** * Facts about the printed date *)
(* ================================================================== *)

Section PrintFacts.

Local Open Scope Z_scope.

Lemma four_digits_range (y : Z) :
  0 <= y <= 9999 ->
  0 <= y / 1000 <= 9 /\ 0 <= y / 100 mod 10 <= 9
  /\ 0 <= y / 10 mod 10 <= 9 /\ 0 <= y mod 10 <= 9.
Proof. intros H. Z.to_euclidean_division_equations. lia. Qed.

Lemma four_digits_digit (y : Z) :
  0 <= y <= 9999 -> forallb is_digit (Datetime.four_digits y) = true.
Proof.
  intros H. destruct (four_digits_range y H) as (A & B & C & D).
  unfold Datetime.four_digits. cbn [forallb].
  rewrite (proj1 (digit_char_cases _ A)), (proj1 (digit_char_cases _ B)),
    (proj1 (digit_char_cases _ C)), (proj1 (digit_char_cases _ D)).
  reflexivity.
Qed.

Lemma two_digits_digit (n : Z) :
  0 <= n <= 99 -> forallb is_digit (Datetime.two_digits n) = true.
Proof.
  intros H.
  assert (A : 0 <= n / 10 <= 9) by (Z.to_euclidean_division_equations; lia).
  assert (B : 0 <= n mod 10 <= 9) by (Z.to_euclidean_division_equations; lia).
  unfold Datetime.two_digits. cbn [forallb].
  now rewrite (proj1 (digit_char_cases _ A)), (proj1 (digit_char_cases _ B)).
Qed.

Lemma drop_zeros_digit (s : str) :
  forallb is_digit s = true ->
  forallb is_digit (Datetime.drop_zeros s) = true.
Proof.
  induction s as [|a s IH]; intros H; [reflexivity|].
  cbn [Datetime.drop_zeros]. destruct (Ascii.eqb a "0"); [|exact H].
  simpl in H. apply andb_true_iff in H as [_ H]. auto.
Qed.

Lemma drop_zeros_nil (s : str) :
  Datetime.drop_zeros s = [] -> forallb (fun a => Ascii.eqb a "0") s = true.
Proof.
  induction s as [|a s IH]; intros H; [reflexivity|].
  cbn [Datetime.drop_zeros] in H. cbn [forallb].
  destruct (Ascii.eqb a "0"); [auto|discriminate].
Qed.

Lemma digit_char_zero (d : Z) :
  0 <= d <= 9 -> Ascii.eqb (digit_char d) "0" = true -> d = 0.
Proof.
  intros H E. apply Ascii.eqb_eq in E. now apply digit_char_cases.
Qed.

Lemma format_year_digit (year_padded : bool) (y : Z) :
  1 <= y <= 9999 ->
  forallb is_digit (Datetime.format_year year_padded y) = true
  /\ Datetime.format_year year_padded y <> [].
Proof.
  intros H. pose proof (four_digits_digit y ltac:(lia)) as Dg.
  unfold Datetime.format_year. destruct year_padded.
  - split; [exact Dg|discriminate].
  - split; [now apply drop_zeros_digit|].
    intros N. apply drop_zeros_nil in N.
    destruct (four_digits_range y ltac:(lia)) as (A & B & C & D).
    unfold Datetime.four_digits in N. cbn [forallb] in N.
    rewrite !andb_true_iff in N. destruct N as (N1 & N2 & N3 & N4 & _).
    apply digit_char_zero in N1, N2, N3, N4; try assumption.
    Z.to_euclidean_division_equations. lia.
Qed.

Lemma format_year_four (year_padded : bool) (y : Z) :
  0 <= y <= 9999 -> year_padded = true \/ 1000 <= y ->
  Datetime.format_year year_padded y = Datetime.four_digits y.
Proof.
  intros H P. unfold Datetime.format_year.
  destruct year_padded; [reflexivity|].
  destruct P as [P|P]; [discriminate|].
  unfold Datetime.four_digits. cbn [Datetime.drop_zeros].
  destruct (Ascii.eqb (digit_char (y / 1000)) "0") eqn:E; [|reflexivity].
  apply digit_char_zero in E;
    Z.to_euclidean_division_equations; lia.
Qed.

(** The printed form of a valid date: a year field of digits, then
    [-MM-DD] with month and day on two digits; ten characters when the
    year has four digits or the platform pads it. *)
Lemma strftime_shape (year_padded : bool) (y m d : Z) :
  Datetime.valid_date y m d ->
  padded_month_day (Datetime.strftime_ymd year_padded (Datetime.date y m d))
  /\ (year_padded = true \/ 1000 <= y ->
      length (Datetime.strftime_ymd year_padded (Datetime.date y m d)) = 10%nat).
Proof.
  intros (Hy & Hm & Hd).
  unfold Datetime.MINYEAR, Datetime.MAXYEAR in Hy.
  pose proof (days_in_month_le_31 y m) as B.
  destruct (format_year_digit year_padded y Hy) as [Yd Yn].
  pose proof (two_digits_digit m ltac:(lia)) as Md.
  pose proof (two_digits_digit d ltac:(lia)) as Dd.
  unfold Datetime.strftime_ymd, Datetime.date.
  cbn [Datetime.year Datetime.month Datetime.day].
  split.
  - unfold padded_month_day.
    exists (Datetime.format_year year_padded y),
      (digit_char (m / 10)), (digit_char (m mod 10)),
      (digit_char (d / 10)), (digit_char (d mod 10)).
    split; [reflexivity|]. split; [|exact Yn].
    rewrite forallb_app, Yd.
    unfold Datetime.two_digits in Md, Dd. cbn [forallb] in *.
    rewrite !andb_true_iff in *. tauto.
  - intros P. rewrite format_year_four by (auto; lia). reflexivity.
Qed.

End PrintFacts.

(* ================================================================== *)
(** * The date extractor: properties of the specification *)
(* ================================================================== *)

(** C6.  The five end-to-end examples of the specification: three
    filenames with the date written in ISO, month-first and day-first form
    and one with the compact form give "2023-10-27"; a filename without a
    date gives [None]. *)
Theorem extract_date_examples (year_padded : bool) :
  extract_date year_padded (Some (lit "2023-10-27_Meeting.mp3"))
  = Ret (Some (lit "2023-10-27"))
  /\ extract_date year_padded (Some (lit "October 27 2023 meeting.m4a"))
     = Ret (Some (lit "2023-10-27"))
  /\ extract_date year_padded (Some (lit "27 October 2023 standup.mp3"))
     = Ret (Some (lit "2023-10-27"))
  /\ extract_date year_padded (Some (lit "random_file.mp3")) = Ret None
  /\ extract_date year_padded (Some (lit "20231027_call.wav"))
     = Ret (Some (lit "2023-10-27")).
Proof.
  destruct year_padded; repeat apply conj; vm_compute; reflexivity.
Qed.


(** Any date that [extract_date] returns is a valid date, printed by
    [strftime]. *)
Lemma extract_date_valid (year_padded : bool) (filename : option str)
      (date : str) :
  extract_date year_padded filename = Ret (Some date) ->
  exists y m d,
    Datetime.valid_date y m d
    /\ date = Datetime.strftime_ymd year_padded (Datetime.date y m d).
Proof.
  destruct filename as [s|]; [|discriminate].
  rewrite extract_date_first_valid. intros E.
  assert (F : first_valid year_padded PATTERNS s = Some date) by congruence.
  apply first_valid_Some in F as (p & ft & m & _ & _ & P).
  now apply parse_match_Some in P.
Qed.

(** C8, at the inputs that decide it.  Where the C library does not pad
    [%Y] (glibc), a date whose year is below 1000 comes back without the
    leading zeros of its year: "0999-01-05.mp3" gives "999-01-05" and
    "Jan 5 0042" gives "42-01-05", which are not of the form
    [YYYY-MM-DD] that the claim and the docstring of [extract_date]
    promise.  The month and the day are always on two digits, and a date
    whose year is 1000 or later has the promised form, as have
    "Oct 5 2023" and "2023-1-5". *)
Theorem year_below_1000_not_padded :
  extract_date false (Some (lit "0999-01-05.mp3"))
  = Ret (Some (lit "999-01-05"))
  /\ extract_date false (Some (lit "Jan 5 0042"))
     = Ret (Some (lit "42-01-05"))
  /\ (forall Y M D,
         digits 4 Y -> digits 2 M -> digits 2 D ->
         lit "999-01-05" <> dashed Y M D /\ lit "42-01-05" <> dashed Y M D)
  /\ (forall year_padded filename date,
         extract_date year_padded filename = Ret (Some date) ->
         padded_month_day date
         /\ exists y m d,
             Datetime.valid_date y m d
             /\ date = Datetime.strftime_ymd year_padded
                                             (Datetime.date y m d)
             /\ (year_padded = true \/ (1000 <= y)%Z -> length date = 10))
  /\ extract_date false (Some (lit "Oct 5 2023"))
     = Ret (Some (lit "2023-10-05"))
  /\ extract_date false (Some (lit "2023-1-5"))
     = Ret (Some (lit "2023-01-05")).
Proof.
  split; [vm_compute; reflexivity|]. split; [vm_compute; reflexivity|].
  split.
  { intros Y M D [LY _] [LM _] [LD _].
    split; intros E; apply (f_equal (@length _)) in E;
      unfold dashed in E; rewrite !length_app, LY, LM, LD in E;
        discriminate E. }
  split.
  { intros year_padded filename date H.
    apply extract_date_valid in H as (y & m & d & V & ->).
    destruct (strftime_shape year_padded y m d V) as [S L].
    split; [exact S|]. exists y, m, d. auto. }
  split; vm_compute; reflexivity.
Qed.



(* ================================================================== *)
(** * Matching a known text *)
(* ================================================================== *)

Section GreedyFacts.

Lemma span_app (c : cclass) (g s : str) :
  forallb (in_class c) g = true ->
  forall limit,
    (forall n, limit = Some n -> length g <= n) ->
    span c limit (g ++ s)
    = length g + span c (option_map (fun n => n - length g) limit) s.
Proof.
  induction g as [|a g IH]; intros H limit L.
  - simpl. destruct limit as [n|]; simpl; [|reflexivity].
    now rewrite Nat.sub_0_r.
  - simpl in H. apply andb_true_iff in H as [Ha H].
    destruct limit as [[|n]|].
    + specialize (L 0 eq_refl). simpl in L. lia.
    + cbn [app span length]. rewrite Ha. cbn [option_map pred].
      rewrite IH; [reflexivity|exact H|].
      intros k E. inversion E; subst k. specialize (L (S n) eq_refl).
      simpl in L. lia.
    + cbn [app span length]. rewrite Ha. cbn [option_map].
      rewrite IH; [reflexivity|exact H|discriminate].
Qed.

Lemma span_limit_zero (c : cclass) (s : str) : span c (Some 0) s = 0.
Proof. destruct s; reflexivity. Qed.

(** A node that takes the whole run [g] at the first try, when the rest
    of the pattern matches what follows. *)
Lemma match_here_greedy (n : node) (r : regex) (g s : str)
      (len : nat) (gs : list str) :
  lo (atom_of n) <= length g ->
  span (cls (atom_of n)) (hi (atom_of n)) (g ++ s) = length g ->
  match_here r s = Some (len, gs) ->
  match_here (n :: r) (g ++ s)
  = Some (length g + len, if captures n then g :: gs else gs).
Proof.
  intros L Sp M. cbn [match_here]. rewrite Sp.
  apply backtrack_longest; [exact L|].
  rewrite skipn_app, skipn_all, Nat.sub_diag. cbn [skipn app].
  rewrite M. rewrite firstn_app, firstn_all, Nat.sub_diag.
  cbn [firstn]. now rewrite app_nil_r.
Qed.

Lemma search_from_hit (r : regex) (pos : nat) (s : str)
      (len : nat) (gs : list str) :
  match_here r s = Some (len, gs) ->
  search_from r pos s
  = Some {| m_start := pos; m_end := pos + len; groups := gs |}.
Proof. intros H. destruct s; cbn [search_from]; now rewrite H. Qed.

Lemma search_from_pos_None (r : regex) :
  forall s pos pos', search_from r pos s = None -> search_from r pos' s = None.
Proof.
  induction s as [|a s IH]; intros pos pos'; cbn [search_from];
    destruct (match_here r _) as [[len gs]|]; try discriminate; eauto.
Qed.

(** The match that [search] returns is the one at the first occurrence. *)
Lemma search_first_occurrence (r : regex) (s : str) (i len : nat)
      (gs : list str) :
  first_occurrence r s i ->
  match_here r (skipn i s) = Some (len, gs) ->
  search r s = Some {| m_start := i; m_end := i + len; groups := gs |}.
Proof.
  intros [_ Hbefore] M.
  assert (Hi : i <= length s).
  { destruct (Nat.le_gt_cases i (length s)) as [|Hgt]; [assumption|].
    specialize (Hbefore (length s) Hgt).
    rewrite skipn_all in Hbefore.
    rewrite skipn_all2 in M by lia. congruence. }
  unfold search. rewrite <- (firstn_skipn i s) at 1.
  rewrite search_from_skip.
  - rewrite length_firstn, Nat.min_l by exact Hi.
    now apply search_from_hit.
  - intros j Hj. rewrite firstn_skipn. apply Hbefore.
    rewrite length_firstn in Hj. lia.
Qed.

(** A pattern that begins with at least one character of a class does not
    match where the text begins with a character outside the class. *)
Lemma match_here_reject (n : node) (r : regex) (a : ascii) (s : str) :
  1 <= lo (atom_of n) -> in_class (cls (atom_of n)) a = false ->
  match_here (n :: r) (a :: s) = None.
Proof.
  intros L H. cbn [match_here]. rewrite span_reject by exact H.
  apply backtrack_None_below. lia.
Qed.

(** [search] walks over a prefix made of characters on which the pattern
    cannot begin. *)
Lemma search_from_skip_rejected (n : node) (r : regex) (pre s : str) (pos : nat) :
  1 <= lo (atom_of n) ->
  forallb (fun a => negb (in_class (cls (atom_of n)) a)) pre = true ->
  search_from (n :: r) pos (pre ++ s)
  = search_from (n :: r) (pos + length pre) s.
Proof.
  intros L. revert pos. induction pre as [|a pre IH]; intros pos H.
  - simpl. now rewrite Nat.add_0_r.
  - simpl in H. apply andb_true_iff in H as [Ha H].
    apply negb_true_iff in Ha.
    change ((a :: pre) ++ s) with (a :: (pre ++ s)).
    cbn [search_from]. rewrite (match_here_reject n r a (pre ++ s) L Ha).
    rewrite IH by exact H. f_equal. simpl. lia.
Qed.

End GreedyFacts.

(* ================================================================== *)
(** * The first occurrence of the ISO pattern *)
(* ================================================================== *)

(** Closes [match_here r (g1 ++ g2 ++ ... ++ s) = Some (?len, ?gs)] when
    every node of [r] takes its run [gi] whole. *)
Ltac greedy_match :=
  lazymatch goal with
  | |- match_here [] _ = _ => reflexivity
  | |- match_here (_ :: _) _ = _ =>
    eapply match_here_greedy;
    [ simpl; lia
    | rewrite span_app;
      [ cbn [option_map atom_of hi exactly between one];
        repeat match goal with
               | H : length _ = _ |- _ => rewrite H
               end;
        simpl; rewrite ?span_limit_zero; lia
      | solve [ assumption | reflexivity ]
      | let n := fresh in let E := fresh in
        intros n E; inversion E; simpl; lia ]
    | greedy_match ]
  end.

Lemma iso_match_dashed (Y M D post : str) :
  digits 4 Y -> digits 2 M -> digits 2 D ->
  match_here iso_pattern (dashed Y M D ++ post) = Some (10, [Y; M; D]).
Proof.
  intros [LY DY] [LM DM] [LD DD].
  unfold dashed, iso_pattern. change (lit "-") with ["-"%char].
  rewrite <- !app_assoc.
  eapply eq_trans; [greedy_match|].
  cbn [captures]. rewrite LY, LM, LD. reflexivity.
Qed.

Lemma digits_two_digits (s : str) :
  digits 2 s -> Datetime.two_digits (digits_value s) = s.
Proof.
  intros [L D].
  destruct s as [|a [|b [|c s]]]; try discriminate. clear L.
  simpl in D. rewrite !andb_true_iff in D. destruct D as (Da & Db & _).
  pose proof (digit_value_range a Da) as Ra.
  pose proof (digit_value_range b Db) as Rb.
  unfold Datetime.two_digits, digits_value. cbn [fold_left].
  replace ((10 * (10 * 0 + digit_value a) + digit_value b) / 10)%Z
    with (digit_value a) by (Z.to_euclidean_division_equations; lia).
  replace ((10 * (10 * 0 + digit_value a) + digit_value b) mod 10)%Z
    with (digit_value b) by (Z.to_euclidean_division_equations; lia).
  now rewrite !digit_char_value.
Qed.

Lemma digits_four_digits (s : str) :
  digits 4 s -> Datetime.four_digits (digits_value s) = s.
Proof.
  intros [L D].
  destruct s as [|a [|b [|c [|d [|e s]]]]]; try discriminate. clear L.
  simpl in D. rewrite !andb_true_iff in D.
  destruct D as (Da & Db & Dc & Dd & _).
  pose proof (digit_value_range a Da) as Ra.
  pose proof (digit_value_range b Db) as Rb.
  pose proof (digit_value_range c Dc) as Rc.
  pose proof (digit_value_range d Dd) as Rd.
  unfold Datetime.four_digits, digits_value. cbn [fold_left].
  set (v := (10 * (10 * (10 * (10 * 0 + digit_value a) + digit_value b)
                   + digit_value c) + digit_value d)%Z).
  replace (v / 1000)%Z with (digit_value a)
    by (subst v; Z.to_euclidean_division_equations; lia).
  replace (v / 100 mod 10)%Z with (digit_value b)
    by (subst v; Z.to_euclidean_division_equations; lia).
  replace (v / 10 mod 10)%Z with (digit_value c)
    by (subst v; Z.to_euclidean_division_equations; lia).
  replace (v mod 10)%Z with (digit_value d)
    by (subst v; Z.to_euclidean_division_equations; lia).
  now rewrite !digit_char_value.
Qed.

(** A valid date written [YYYY-MM-DD] prints as itself, when its year has
    four significant digits or the platform pads the year. *)
Lemma strftime_dashed (year_padded : bool) (Y M D : str) :
  digits 4 Y -> digits 2 M -> digits 2 D ->
  year_padded = true \/ (1000 <= digits_value Y)%Z ->
  Datetime.strftime_ymd year_padded
    (Datetime.date (digits_value Y) (digits_value M) (digits_value D))
  = dashed Y M D.
Proof.
  intros HY HM HD P.
  unfold Datetime.strftime_ymd, Datetime.date, dashed.
  cbn [Datetime.year Datetime.month Datetime.day].
  assert (R : (0 <= digits_value Y <= 9999)%Z).
  { destruct HY as [L Dg]. pose proof (digits_value_range Y Dg) as B.
    rewrite L in B. simpl in B. lia. }
  rewrite format_year_four by assumption.
  now rewrite digits_four_digits, !digits_two_digits.
Qed.

(** C1, as amended.  When the first occurrence of the ISO pattern in the
    filename is a substring [YYYY-MM-DD], with a year of 1000 or later,
    that is a valid date, [extract_date] returns exactly that
    substring. *)
Theorem first_iso_occurrence_returned (year_padded : bool)
        (pre Y M D post : str) :
  digits 4 Y -> digits 2 M -> digits 2 D ->
  (1000 <= digits_value Y)%Z ->
  Datetime.valid_date (digits_value Y) (digits_value M) (digits_value D) ->
  first_occurrence iso_pattern (pre ++ dashed Y M D ++ post) (length pre) ->
  extract_date year_padded (Some (pre ++ dashed Y M D ++ post))
  = Ret (Some (dashed Y M D)).
Proof.
  intros HY HM HD Y1000 V F.
  rewrite extract_date_first_valid.
  unfold PATTERNS. cbn [first_valid].
  rewrite candidate_interpret by (now left).
  assert (M0 : match_here iso_pattern
                 (skipn (length pre) (pre ++ dashed Y M D ++ post))
               = Some (10, [Y; M; D])).
  { rewrite skipn_app, skipn_all, Nat.sub_diag. cbn [skipn app].
    now apply iso_match_dashed. }
  rewrite (search_first_occurrence _ _ _ _ _ F M0).
  cbn [groups interpret date_of].
  apply valid_dateb_spec in V. rewrite V.
  now rewrite strftime_dashed by auto.
Qed.

Lemma first_iso_occurrence_returned_witness :
  digits 4 (lit "2023") /\ digits 2 (lit "10") /\ digits 2 (lit "27")
  /\ (1000 <= digits_value (lit "2023"))%Z
  /\ first_occurrence iso_pattern
       (lit "Standup_" ++ dashed (lit "2023") (lit "10") (lit "27")
            ++ lit "_2024-01-02.mp3")
       (length (lit "Standup_"))
  /\ extract_date false
       (Some (lit "Standup_" ++ dashed (lit "2023") (lit "10") (lit "27")
                  ++ lit "_2024-01-02.mp3"))
     = Ret (Some (lit "2023-10-27")).
Proof.
  assert (HY : digits 4 (lit "2023")) by (split; reflexivity).
  assert (HM : digits 2 (lit "10")) by (split; reflexivity).
  assert (HD : digits 2 (lit "27")) by (split; reflexivity).
  assert (Y1000 : (1000 <= digits_value (lit "2023"))%Z)
    by (apply Z.leb_le; reflexivity).
  assert (F : first_occurrence iso_pattern
                (lit "Standup_" ++ dashed (lit "2023") (lit "10") (lit "27")
                     ++ lit "_2024-01-02.mp3")
                (length (lit "Standup_"))).
  { split; [vm_compute; discriminate|].
    intros j Hj.
    do 8 (destruct j as [|j]; [vm_compute; reflexivity|]).
    vm_compute in Hj. lia. }
  assert (V : Datetime.valid_date (digits_value (lit "2023"))
                (digits_value (lit "10")) (digits_value (lit "27")))
    by (apply valid_dateb_spec; reflexivity).
  split; [exact HY|]. split; [exact HM|]. split; [exact HD|].
  split; [exact Y1000|]. split; [exact F|].
  exact (first_iso_occurrence_returned
           false (lit "Standup_") (lit "2023") (lit "10") (lit "27")
           (lit "_2024-01-02.mp3") HY HM HD Y1000 V F).
Defined.

(** C1, read literally, fails: a filename may contain a valid
    [YYYY-MM-DD] after an impossible one, and then nothing is returned,
    because only the first occurrence of a pattern is looked at. *)
Lemma contained_date_not_returned :
  contains_ymd (lit "2023-13-45_2023-10-27.mp3")
               (lit "2023") (lit "10") (lit "27")
  /\ extract_date true (Some (lit "2023-13-45_2023-10-27.mp3")) = Ret None
  /\ extract_date false (Some (lit "2023-13-45_2023-10-27.mp3")) = Ret None
  /\ ~ returns_every_contained_date true
  /\ ~ returns_every_contained_date false.
Proof.
  assert (C : contains_ymd (lit "2023-13-45_2023-10-27.mp3")
                           (lit "2023") (lit "10") (lit "27")).
  { split; [split; reflexivity|]. split; [split; reflexivity|].
    split; [split; reflexivity|].
    split; [apply valid_dateb_spec; reflexivity|].
    exists (lit "2023-13-45_"), (lit ".mp3"). reflexivity. }
  split; [exact C|]. split; [vm_compute; reflexivity|].
  split; [vm_compute; reflexivity|].
  split; intros H; specialize (H _ _ _ _ C); vm_compute in H; discriminate.
Qed.

(* ================================================================== *)
(** * Precedence of the patterns *)
(* ================================================================== *)

Lemma denotes_candidate (year_padded : bool) (p : regex) (ft : format_type)
      (filename : str) (i : nat) (y m d : Z) :
  In (p, ft) PATTERNS ->
  first_occurrence p filename i ->
  denotes p ft filename i y m d ->
  candidate year_padded (p, ft) filename
  = Some (Datetime.strftime_ymd year_padded (Datetime.date y m d)).
Proof.
  intros HIn F (len & gs & M & I & V).
  rewrite candidate_interpret by exact HIn.
  rewrite (search_first_occurrence _ _ _ _ _ F M).
  cbn [groups]. rewrite I. cbn [date_of].
  apply valid_dateb_spec in V. now rewrite V.
Qed.

(** C4, as the code has it.  The patterns are tried in the order of the
    table, each one on its first occurrence in the filename, and the
    result is the date of the earliest pattern whose first occurrence
    denotes a valid date.  In particular, when the first occurrence of the
    hyphen/underscore ISO pattern denotes a valid date, that date is
    returned, and when that pattern proposes nothing and the first
    occurrence of the dotted ISO pattern denotes a valid date, that date
    is returned: in both cases whatever the US patterns find.  A pattern
    for which [search] finds nothing occurs nowhere in the filename. *)
Theorem first_valid_pattern_wins (year_padded : bool) (filename : str) :
  PATTERNS = [ (iso_pattern, ymd); (dotted_iso_pattern, ymd);
               (us_pattern, mdy); (dotted_us_pattern, mdy);
               (compact_pattern, ymd_compact); (written_pattern, written);
               (written_reversed_pattern, written_reversed) ]
  /\ extract_date year_padded (Some filename)
     = Ret (first_valid year_padded PATTERNS filename)
  /\ (forall p ft,
         In (p, ft) PATTERNS ->
         candidate year_padded (p, ft) filename
         = match search p filename with
           | Some m => date_of year_padded (interpret (groups m) ft)
           | None => None
           end)
  /\ (forall p m, search p filename = Some m ->
                  first_occurrence p filename (m_start m))
  /\ (forall p, search p filename = None ->
                forall j, j <= length filename ->
                          match_here p (skipn j filename) = None)
  /\ (forall i y m d,
         first_occurrence iso_pattern filename i ->
         denotes iso_pattern ymd filename i y m d ->
         extract_date year_padded (Some filename)
         = Ret (Some (Datetime.strftime_ymd year_padded
                        (Datetime.date y m d))))
  /\ (forall i y m d,
         candidate year_padded (iso_pattern, ymd) filename = None ->
         first_occurrence dotted_iso_pattern filename i ->
         denotes dotted_iso_pattern ymd filename i y m d ->
         extract_date year_padded (Some filename)
         = Ret (Some (Datetime.strftime_ymd year_padded
                        (Datetime.date y m d)))).
Proof.
  split; [reflexivity|]. split; [apply extract_date_first_valid|].
  split; [intros p ft HIn; now apply candidate_interpret|].
  split.
  { intros p m Sm. apply search_from_leftmost in Sm
      as (i & len & Hs & _ & Hm & Hn).
    simpl in Hs. subst i. split; [|exact Hn].
    unfold occurs_at. congruence. }
  split; [intros p Sn; now apply (search_from_None p filename 0)|].
  split.
  - intros i y m d F Dn. rewrite extract_date_first_valid.
    unfold PATTERNS. cbn [first_valid].
    now rewrite (denotes_candidate year_padded _ _ _ _ _ _ _
                   ltac:(now left) F Dn).
  - intros i y m d C F Dn. rewrite extract_date_first_valid.
    unfold PATTERNS. cbn [first_valid]. rewrite C.
    now rewrite (denotes_candidate year_padded _ _ _ _ _ _ _
                   ltac:(right; now left) F Dn).
Qed.

Lemma first_valid_pattern_wins_witness :
  first_occurrence iso_pattern (lit "Sync_10-27-2022_2023-11-05.mp3") 16
  /\ denotes iso_pattern ymd (lit "Sync_10-27-2022_2023-11-05.mp3") 16
             2023 11 5
  /\ denotes us_pattern mdy (lit "Sync_10-27-2022_2023-11-05.mp3") 5
             2022 10 27
  /\ extract_date false (Some (lit "Sync_10-27-2022_2023-11-05.mp3"))
     = Ret (Some (lit "2023-11-05")).
Proof.
  assert (F : first_occurrence iso_pattern
                (lit "Sync_10-27-2022_2023-11-05.mp3") 16).
  { split; [vm_compute; discriminate|].
    intros j Hj.
    do 16 (destruct j as [|j]; [vm_compute; reflexivity|]). lia. }
  assert (Dn : denotes iso_pattern ymd
                 (lit "Sync_10-27-2022_2023-11-05.mp3") 16 2023 11 5).
  { exists 10, [lit "2023"; lit "11"; lit "05"].
    split; [vm_compute; reflexivity|]. split; [reflexivity|].
    apply valid_dateb_spec. reflexivity. }
  split; [exact F|]. split; [exact Dn|]. split.
  { exists 10, [lit "10"; lit "27"; lit "2022"].
    split; [vm_compute; reflexivity|]. split; [reflexivity|].
    apply valid_dateb_spec. reflexivity. }
  exact (proj1 (proj2 (proj2 (proj2 (proj2 (proj2
           (first_valid_pattern_wins
              false (lit "Sync_10-27-2022_2023-11-05.mp3")))))))
           16 2023%Z 11%Z 5%Z F Dn).
Defined.

(** The only valid date that an occurrence of the ISO pattern denotes in
    "2023-13-01 10-27-2022 2023-10-27" is 2023-10-27. *)
Lemma iso_dates_of_example (i : nat) (y m d : Z) :
  denotes iso_pattern ymd (lit "2023-13-01 10-27-2022 2023-10-27") i y m d ->
  (y, m, d) = (2023, 10, 27)%Z.
Proof.
  intros (len & gs & M & I & V).
  do 32 (destruct i as [|i];
         [ vm_compute in M; try discriminate;
           inversion M; subst len gs; clear M;
           vm_compute in I; inversion I; subst y m d;
           try reflexivity;
           apply valid_dateb_spec in V; vm_compute in V; discriminate | ]).
  rewrite skipn_all2 in M by (vm_compute; lia).
  vm_compute in M. discriminate.
Qed.

(** C4, read literally, fails: the filename below contains the ISO date
    2023-10-27 and the US date 10-27-2022, and the US date is returned,
    because the first occurrence of the ISO pattern, "2023-13-01", is not
    a date. *)
Lemma iso_contained_us_returned :
  denotes iso_pattern ymd (lit "2023-13-01 10-27-2022 2023-10-27") 22
          2023 10 27
  /\ denotes us_pattern mdy (lit "2023-13-01 10-27-2022 2023-10-27") 11
             2022 10 27
  /\ extract_date true (Some (lit "2023-13-01 10-27-2022 2023-10-27"))
     = Ret (Some (lit "2022-10-27"))
  /\ extract_date false (Some (lit "2023-13-01 10-27-2022 2023-10-27"))
     = Ret (Some (lit "2022-10-27"))
  /\ ~ iso_wins_when_contained true
  /\ ~ iso_wins_when_contained false.
Proof.
  assert (DI : denotes iso_pattern ymd
                 (lit "2023-13-01 10-27-2022 2023-10-27") 22 2023 10 27).
  { exists 10, [lit "2023"; lit "10"; lit "27"].
    split; [vm_compute; reflexivity|]. split; [reflexivity|].
    apply valid_dateb_spec. reflexivity. }
  assert (DU : denotes us_pattern mdy
                 (lit "2023-13-01 10-27-2022 2023-10-27") 11 2022 10 27).
  { exists 10, [lit "10"; lit "27"; lit "2022"].
    split; [vm_compute; reflexivity|]. split; [reflexivity|].
    apply valid_dateb_spec. reflexivity. }
  split; [exact DI|]. split; [exact DU|].
  split; [vm_compute; reflexivity|]. split; [vm_compute; reflexivity|].
  split; intros H;
    destruct (H _ _ _ _ _ _ _ _ _ DI DU) as (i' & y' & m' & d' & Dn & E);
    apply iso_dates_of_example in Dn; inversion Dn; subst y' m' d';
      vm_compute in E; discriminate.
Qed.

(** C5.  Each pattern is looked at on its first occurrence only.  When
    that occurrence has a month word that the table does not know, or
    stands for a (year, month, day) that is not a date of the calendar
    (April 31st, a 13th month, February 29th of a common year),
    [_parse_match] returns [None] without raising and the loop goes on
    with the next pattern; the loop as a whole returns without raising,
    and what it returns, if anything, is a valid date. *)
Theorem invalid_candidate_discarded (year_padded : bool) (p : regex)
        (ft : format_type) (rest : list (regex * format_type))
        (filename : str) (m : Match) :
  In (p, ft) PATTERNS ->
  incl rest PATTERNS ->
  search p filename = Some m ->
  first_occurrence p filename (m_start m)
  /\ match_here p (skipn (m_start m) filename)
     = Some (m_end m - m_start m, groups m)
  /\ (interpret (groups m) ft = None
      \/ (exists y mo d, interpret (groups m) ft = Some (y, mo, d)
                         /\ ~ Datetime.valid_date y mo d) ->
      _parse_match year_padded (groups m) ft = Ret None
      /\ try_patterns year_padded ((p, ft) :: rest) filename
         = try_patterns year_padded rest filename)
  /\ (exists r,
         try_patterns year_padded ((p, ft) :: rest) filename = Ret r
         /\ forall date, r = Some date ->
              exists y mo d,
                Datetime.valid_date y mo d
                /\ date = Datetime.strftime_ymd year_padded
                            (Datetime.date y mo d))
  /\ (~ Datetime.valid_date 2023 4 31 /\ ~ Datetime.valid_date 2023 13 1
      /\ ~ Datetime.valid_date 2023 2 29 /\ Datetime.valid_date 2024 2 29).
Proof.
  intros HIn Hincl Sm.
  assert (Hall : incl ((p, ft) :: rest) PATTERNS)
    by (intros x [<-|Hx]; auto).
  destruct (search_from_leftmost _ _ _ _ Sm)
    as (i & len & Hs & He & Hm & Hn).
  simpl in Hs, He. subst i.
  split; [split; [unfold occurs_at; congruence|exact Hn]|].
  split; [rewrite Hm; do 2 f_equal; lia|].
  split; [|split].
  - intros Bad.
    assert (Dt : date_of year_padded (interpret (groups m) ft) = None).
    { destruct Bad as [->|(y & mo & d & -> & NV)]; [reflexivity|].
      cbn [date_of]. destruct (Datetime.valid_dateb y mo d) eqn:B;
        [|reflexivity].
      apply valid_dateb_spec in B. contradiction. }
    pose proof (search_from_shape _ _ _ _ Sm) as Sh.
    split.
    + rewrite (parse_match_interpret year_padded _ _ _ HIn Sh).
      now rewrite Dt.
    + rewrite try_patterns_step by exact HIn.
      rewrite candidate_interpret by exact HIn.
      now rewrite Sm, Dt.
  - rewrite try_patterns_first_valid by exact Hall.
    eexists. split; [reflexivity|].
    intros date E. apply first_valid_Some in E
      as (p' & ft' & m' & _ & _ & P).
    now apply parse_match_Some in P.
  - split; [|split; [|split]]; try (apply valid_dateb_spec; reflexivity);
      intros V; apply valid_dateb_spec in V; discriminate V.
Qed.

Lemma invalid_candidate_discarded_witness :
  In (iso_pattern, ymd) PATTERNS
  /\ search iso_pattern (lit "2023-02-30_Feb 28 2024.mp3")
     = Some {| m_start := 0; m_end := 10;
               groups := [lit "2023"; lit "02"; lit "30"] |}
  /\ ~ Datetime.valid_date 2023 2 30
  /\ try_patterns false PATTERNS (lit "2023-02-30_Feb 28 2024.mp3")
     = try_patterns false (tl PATTERNS) (lit "2023-02-30_Feb 28 2024.mp3")
  /\ try_patterns false PATTERNS (lit "2023-02-30_Feb 28 2024.mp3")
     = Ret (Some (lit "2024-02-28")).
Proof.
  assert (HIn : In (iso_pattern, ymd) PATTERNS) by (now left).
  assert (Hincl : incl (tl PATTERNS) PATTERNS)
    by (intros x Hx; now right).
  assert (Sm : search iso_pattern (lit "2023-02-30_Feb 28 2024.mp3")
               = Some {| m_start := 0; m_end := 10;
                         groups := [lit "2023"; lit "02"; lit "30"] |})
    by (vm_compute; reflexivity).
  assert (NV : ~ Datetime.valid_date 2023 2 30).
  { intros V. apply valid_dateb_spec in V. vm_compute in V. discriminate. }
  split; [exact HIn|]. split; [exact Sm|]. split; [exact NV|].
  split; [|vm_compute; reflexivity].
  refine (proj2 (proj1 (proj2 (proj2
            (invalid_candidate_discarded
               false iso_pattern ymd (tl PATTERNS)
               (lit "2023-02-30_Feb 28 2024.mp3") _ HIn Hincl Sm))) _)).
  right. exists 2023%Z, 2%Z, 30%Z. split; [reflexivity|exact NV].
Defined.

(* ================================================================== *)
(** * A month word glued to other letters *)
(* ================================================================== *)

Section GluedMonth.

Lemma letter_not_digit (a : ascii) : is_letter a = true -> is_digit a = false.
Proof.
  destruct a as [[] [] [] [] [] [] [] []]; intros H;
    try reflexivity; discriminate H.
Qed.

Lemma lower_letter_not_space (a : ascii) :
  is_letter a = true -> is_space (lower_char a) = false.
Proof.
  destruct a as [[] [] [] [] [] [] [] []]; intros H;
    try reflexivity; discriminate H.
Qed.

Lemma letters_not_digits (s : str) :
  forallb is_letter s = true ->
  forallb (fun a => negb (in_class Digit a)) s = true.
Proof.
  induction s as [|a s IH]; intros H; [reflexivity|].
  simpl in H. apply andb_true_iff in H as [Ha H].
  cbn [forallb]. apply andb_true_iff. split; [|now apply IH].
  change (negb (is_digit a) = true). now rewrite letter_not_digit.
Qed.

Lemma str_eqb_neq (s t : str) : s <> t -> str_eqb s t = false.
Proof.
  intros H. unfold str_eqb. now destruct (list_eq_dec ascii_dec s t).
Qed.

(** No month name is another month name with characters in front. *)
Lemma key_suffix_not_key (u k : str) :
  u <> [] -> In k (map fst MONTHS) -> dict_get MONTHS (u ++ k) = None.
Proof.
  intros Hu Hk.
  assert (N : forall k', In k' (map fst MONTHS) -> k' <> u ++ k).
  { intros k' Hk' E. apply (f_equal (@rev ascii)) in E.
    rewrite rev_app_distr in E.
    assert (Nil : rev u <> []).
    { intros R. apply (f_equal (@rev ascii)) in R.
      rewrite rev_involutive in R. contradiction. }
    simpl in Hk, Hk'.
    repeat (destruct Hk as [<-|Hk]; [|]); try contradiction;
      repeat (destruct Hk' as [<-|Hk']; [|]); try contradiction;
        simpl in E; try discriminate E;
          inversion E as [E']; symmetry in E'; contradiction. }
  unfold MONTHS in *. cbn [dict_get].
  repeat (rewrite str_eqb_neq; [|apply N; simpl; tauto]).
  reflexivity.
Qed.

Lemma lstrip_head (a : ascii) (s : str) :
  is_space a = false -> lstrip (a :: s) = a :: s.
Proof. intros H. cbn [lstrip]. now rewrite H. Qed.

(** [strip] leaves alone a string that begins and ends with characters
    that are not white space. *)
Lemma strip_id (a b : ascii) (s t : str) :
  is_space a = false -> is_space b = false ->
  strip (a :: s ++ t ++ [b]) = a :: s ++ t ++ [b].
Proof.
  intros Ha Hb. unfold strip. rewrite lstrip_head by exact Ha.
  assert (R : rev (a :: s ++ t ++ [b]) = b :: rev (a :: s ++ t)).
  { change (a :: s ++ t ++ [b]) with ((a :: s) ++ t ++ [b]).
    rewrite app_assoc, rev_app_distr. reflexivity. }
  rewrite R, lstrip_head by exact Hb. rewrite <- R. apply rev_involutive.
Qed.

(** A month word with letters glued in front of it is not in the table,
    whatever the case of its letters. *)
Lemma glued_month_unknown (pre w : str) :
  pre <> [] -> forallb is_letter pre = true ->
  In (lower w) (map fst MONTHS) ->
  _month_to_number (pre ++ w) = None.
Proof.
  intros Hne H Hw. unfold _month_to_number.
  assert (L : lower (pre ++ w) = lower pre ++ lower w)
    by (unfold lower; apply map_app).
  rewrite L.
  assert (St : strip (lower pre ++ lower w) = lower pre ++ lower w).
  { destruct pre as [|a pre]; [congruence|].
    simpl in H. apply andb_true_iff in H as [Ha _].
    pose proof (lower_letter_not_space a Ha) as Sa.
    generalize dependent (lower w). intros k Hk _.
    unfold lower. cbn [map app]. simpl in Hk.
    repeat (destruct Hk as [<-|Hk];
            [match goal with
             | |- strip (_ :: _ ++ ?K) = _ =>
               let r := eval vm_compute in (rev K) in
               match r with
               | ?b :: ?t =>
                 let t' := eval vm_compute in (rev t) in
                 change K with (t' ++ [b]);
                 apply strip_id; [exact Sa|reflexivity]
               end
             end|]).
    contradiction. }
  rewrite St. apply key_suffix_not_key; [|exact Hw].
  destruct pre; [congruence|discriminate].
Qed.

Lemma backtrack_found {A} (lo : nat) (try : nat -> option A) (r : A) (j : nat) :
  forall k, lo <= j <= k -> try j = Some r ->
            (forall i, j < i <= k -> try i = None) ->
            backtrack lo k try = Some r.
Proof.
  induction k as [|k IH]; intros Hj Tj Hn.
  - assert (j = 0) by lia. subst j. apply backtrack_longest; [lia|exact Tj].
  - destruct (Nat.eq_dec j (S k)) as [->|Ne].
    + apply backtrack_longest; [lia|exact Tj].
    + cbn [backtrack]. destruct (Nat.ltb_spec (S k) lo) as [L|L]; [lia|].
      rewrite (Hn (S k)) by lia. apply IH; [lia|exact Tj|].
      intros i Hi. apply Hn. lia.
Qed.

(** Letters in front of a text that a pattern matches from a word of
    letters on: the pattern matches from the first of these letters, and
    its group of letters is the whole run. *)
Lemma match_glued_word (r : regex) (pre w tail : str) (gs : list str)
      (len : nat) :
  forallb is_letter pre = true ->
  match_here (Capture (plus Letter) :: r) (w ++ tail) = Some (len, w :: gs) ->
  match_here (Capture (plus Letter) :: r) (pre ++ w ++ tail)
  = Some (length pre + len, (pre ++ w) :: gs).
Proof.
  intros L M. cbn [match_here] in *.
  cbn [atom_of captures cls lo hi plus] in *.
  apply backtrack_Some in M as (j & Hj & Tj & Hn).
  destruct (match_here r (skipn j (w ++ tail))) as [[len' gs']|] eqn:R;
    [|discriminate].
  injection Tj as <- Hw <-.
  assert (Jw : j = length w).
  { pose proof (span_le_length Letter (w ++ tail) None) as B.
    pose proof (f_equal (@length _) Hw) as Hl.
    rewrite length_firstn in Hl. lia. }
  subst j.
  rewrite skipn_app, skipn_all, Nat.sub_diag in R. cbn [skipn app] in R.
  rewrite span_app by (exact L || discriminate). cbn [option_map].
  apply backtrack_found with (j := length pre + length w).
  - lia.
  - replace (skipn (length pre + length w) (pre ++ w ++ tail)) with tail.
    + rewrite R. f_equal. f_equal; [lia|]. f_equal.
      rewrite app_assoc, firstn_app.
      replace (length pre + length w - length (pre ++ w)) with 0
        by (rewrite length_app; lia).
      rewrite firstn_all2 by (rewrite length_app; lia).
      cbn [firstn]. apply app_nil_r.
    + rewrite app_assoc. rewrite <- length_app.
      rewrite skipn_app, skipn_all, Nat.sub_diag. reflexivity.
  - intros i Hi.
    replace (skipn i (pre ++ w ++ tail))
      with (skipn (i - length pre) (w ++ tail)).
    + specialize (Hn (i - length pre) ltac:(lia)). cbn beta in Hn.
      destruct (match_here r (skipn (i - length pre) (w ++ tail)))
        as [[? ?]|]; [discriminate|reflexivity].
    + rewrite (skipn_app i pre).
      replace (skipn i pre) with (@nil ascii)
        by (symmetry; apply skipn_all2; lia).
      reflexivity.
Qed.

Lemma written_match_glued_word (pre w tail d y : str) (len : nat) :
  forallb is_letter pre = true ->
  match_here written_pattern (w ++ tail) = Some (len, [w; d; y]) ->
  match_here written_pattern (pre ++ w ++ tail)
  = Some (length pre + len, [pre ++ w; d; y]).
Proof. unfold written_pattern. apply match_glued_word. Qed.

(** A name of the table is a month word. *)
Lemma month_name_known (w : str) :
  In (lower w) (map fst MONTHS) -> _month_to_number w <> None.
Proof.
  intros H. unfold _month_to_number. simpl in H.
  repeat (destruct H as [E|H]; [rewrite <- E; discriminate|]).
  contradiction.
Qed.


End GluedMonth.

(** C10, as amended.  When letters stand immediately before the month
    word of a written date, the written pattern matches from the first of
    these letters (no occurrence of the pattern beginning before them):
    its greedy letter group takes the whole run of letters, which is not
    a month name, so that the pattern proposes nothing, and the
    occurrence that begins at the month word is never looked at.
    [extract_date] then returns what the other six patterns find: [None]
    when none of them finds a date, as for "MeetingOctober 27 2023.mp3". *)
Theorem glued_month_word_lost (year_padded : bool)
        (before pre w tail d y : str) (len : nat) :
  pre <> [] -> forallb is_letter pre = true ->
  In (lower w) (map fst MONTHS) ->
  match_here written_pattern (w ++ tail) = Some (len, [w; d; y]) ->
  (forall j, j < length before ->
             match_here written_pattern
                        (skipn j (before ++ pre ++ w ++ tail)) = None) ->
  search written_pattern (before ++ pre ++ w ++ tail)
  = Some {| m_start := length before;
            m_end := length before + (length pre + len);
            groups := [pre ++ w; d; y] |}
  /\ _month_to_number w <> None
  /\ _month_to_number (pre ++ w) = None
  /\ candidate year_padded (written_pattern, written)
               (before ++ pre ++ w ++ tail) = None
  /\ extract_date year_padded (Some (before ++ pre ++ w ++ tail))
     = Ret (first_valid year_padded other_patterns
                        (before ++ pre ++ w ++ tail))
  /\ (first_valid year_padded other_patterns (before ++ pre ++ w ++ tail)
      = None ->
      extract_date year_padded (Some (before ++ pre ++ w ++ tail))
      = Ret None)
  /\ extract_date year_padded (Some (lit "MeetingOctober 27 2023.mp3"))
     = Ret None.
Proof.
  intros Hne L Hw M Before.
  pose proof (written_match_glued_word pre w tail d y len L M) as G.
  assert (Here : match_here written_pattern
                   (skipn (length before) (before ++ pre ++ w ++ tail))
                 = Some (length pre + len, [pre ++ w; d; y])).
  { rewrite skipn_app, skipn_all, Nat.sub_diag. exact G. }
  assert (F : first_occurrence written_pattern
                (before ++ pre ++ w ++ tail) (length before)).
  { split; [unfold occurs_at; congruence|exact Before]. }
  pose proof (search_first_occurrence _ _ _ _ _ F Here) as Sw.
  pose proof (glued_month_unknown pre w Hne L Hw) as Mn.
  assert (Cw : candidate year_padded (written_pattern, written)
                 (before ++ pre ++ w ++ tail) = None).
  { rewrite candidate_interpret by (simpl; tauto).
    rewrite Sw. cbn [groups interpret]. now rewrite Mn. }
  assert (E : extract_date year_padded (Some (before ++ pre ++ w ++ tail))
              = Ret (first_valid year_padded other_patterns
                                 (before ++ pre ++ w ++ tail))).
  { rewrite extract_date_first_valid. unfold PATTERNS, other_patterns.
    cbn [first_valid]. now rewrite Cw. }
  split; [exact Sw|]. split; [now apply month_name_known|].
  split; [exact Mn|]. split; [exact Cw|]. split; [exact E|].
  split; [intros N; now rewrite E, N|].
  destruct year_padded; vm_compute; reflexivity.
Qed.

Lemma glued_month_word_lost_witness :
  lit "Notes" <> []
  /\ forallb is_letter (lit "Notes") = true
  /\ match_here written_pattern (lit "May" ++ lit " 5 2023.mp3")
     = Some (10, [lit "May"; lit "5"; lit "2023"])
  /\ extract_date false (Some (lit "NotesMay 5 2023.mp3")) = Ret None.
Proof.
  assert (Hne : lit "Notes" <> []) by discriminate.
  assert (L : forallb is_letter (lit "Notes") = true) by reflexivity.
  assert (M : match_here written_pattern (lit "May" ++ lit " 5 2023.mp3")
              = Some (10, [lit "May"; lit "5"; lit "2023"]))
    by (vm_compute; reflexivity).
  assert (Hw : In (lower (lit "May")) (map fst MONTHS))
    by (simpl; tauto).
  assert (B : forall j, j < length (lit "") ->
                        match_here written_pattern
                          (skipn j (lit "" ++ lit "Notes" ++ lit "May"
                                        ++ lit " 5 2023.mp3")) = None)
    by (intros j Hj; inversion Hj).
  split; [exact Hne|]. split; [exact L|]. split; [exact M|].
  apply (proj1 (proj2 (proj2 (proj2 (proj2 (proj2
           (glued_month_word_lost
              false (lit "") (lit "Notes") (lit "May") (lit " 5 2023.mp3")
              (lit "5") (lit "2023") 10 Hne L Hw M B))))))).
  vm_compute. reflexivity.
Defined.

(** C10, read literally, fails: letters glued in front of the month word
    make the written date unreadable, but another pattern may still find
    a date in the filename. *)
Lemma glued_date_found_elsewhere :
  glued_written_date (lit "MeetingOctober 27 2023_2024-01-02.mp3")
                     (lit "Meeting") (lit "October")
                     (lit " 27 2023_2024-01-02.mp3")
  /\ extract_date true (Some (lit "MeetingOctober 27 2023_2024-01-02.mp3"))
     = Ret (Some (lit "2024-01-02"))
  /\ extract_date false (Some (lit "MeetingOctober 27 2023_2024-01-02.mp3"))
     = Ret (Some (lit "2024-01-02"))
  /\ ~ glued_dates_are_lost true
  /\ ~ glued_dates_are_lost false.
Proof.
  assert (G : glued_written_date
                (lit "MeetingOctober 27 2023_2024-01-02.mp3")
                (lit "Meeting") (lit "October")
                (lit " 27 2023_2024-01-02.mp3")).
  { split; [reflexivity|]. split; [discriminate|]. split; [reflexivity|].
    split; [simpl; tauto|].
    exists 15, (lit "27"), (lit "2023"). vm_compute. reflexivity. }
  split; [exact G|]. split; [vm_compute; reflexivity|].
  split; [vm_compute; reflexivity|].
  split; intros H; specialize (H _ _ _ _ G); vm_compute in H; discriminate.
Qed.


(* ================================================================== *)
(** * The retry loop under the policy of [GeminiService] *)
(* ================================================================== *)

Section RetryFacts.

Local Open Scope Z_scope.

Lemma delay_after_values :
  map delay_after [1; 2; 3; 4; 5; 6; 7]%nat = [2; 2; 4; 8; 16; 30; 30].
Proof. reflexivity. Qed.



(** The formula of the specification, with the multiplier of the
    decorator, gives the delays of the policy after the first and the
    second attempt, the only ones after which the policy sleeps; it is not
    the delay of the policy from the third attempt on, and with a
    multiplier of 2 it is not the delay after the second attempt. *)
Lemma spec_delay_agreement :
  spec_delay min_delay max_delay multiplier 1 = delay_after 1
  /\ spec_delay min_delay max_delay multiplier 2 = delay_after 2
  /\ spec_delay min_delay max_delay multiplier 3 = 2 /\ delay_after 3 = 4
  /\ spec_delay min_delay max_delay 2 2 = 4 /\ delay_after 2 = 2.
Proof. repeat split; reflexivity. Qed.

Lemma seq_snoc (n : nat) : seq 1 (S n) = seq 1 n ++ [S n].
Proof. rewrite seq_S. reflexivity. Qed.

(** From a consistent state and with enough fuel the loop finishes, having
    invoked the function between one and three times and slept the delay
    of every attempt but the last. *)
Lemma call_loop_finishes (fn : unit_of_work str) :
  forall fuel st w,
    consistent st w ->
    (fuel_needed st <= fuel)%nat ->
    exists result w',
      call_loop fuel retry_policy fn st w = Some (result, w')
      /\ (1 <= calls w' <= max_attempts)%nat
      /\ sleeps w' = map delay_after (seq 1 (calls w' - 1)).
Proof.
  induction fuel as [|fuel IH]; intros st w (Ha & Hs & Hc) Hf.
  - unfold fuel_needed in Hf. destruct (outcome st); lia.
  - cbn [call_loop]. unfold iter.
    destruct st as [a o idle]. cbn [attempt_number outcome idle_for] in *.
    unfold fuel_needed in Hf. cbn [attempt_number outcome] in Hf.
    unfold max_attempts in *.
    destruct o as [fut|].
    + unfold retry_policy at 1 2 3 4. cbn [stop wait retry reraise].
      unfold stop_after_attempt, retry_if_exception_type, wait_exponential.
      cbn [attempt_number outcome]. unfold max_attempts.
      assert (Done : (1 <= calls w <= 3)%nat
                     /\ sleeps w = map delay_after (seq 1 (calls w - 1))).
      { split; [lia|]. rewrite Hs, Hc. reflexivity. }
      destruct fut as [v|e]; cbn [negb].
      { exists (Ret v), w. split; [reflexivity|exact Done]. }
      destruct (transient e); cbn [negb].
      2:{ exists (Raise e), w. split; [reflexivity|exact Done]. }
      destruct (3 <=? a)%nat eqn:St.
      { eexists; exists w. split; [reflexivity|exact Done]. }
      apply Nat.leb_gt in St.
      apply IH.
      * unfold consistent, next_attempt.
        cbn [attempt_number outcome sleeps calls].
        unfold max_attempts. split; [lia|]. split; [|lia].
        rewrite Hs. replace (S a - 1)%nat with (S (a - 1)) by lia.
        rewrite seq_snoc, map_app. cbn [map].
        replace (S (a - 1)) with a by lia. reflexivity.
      * unfold fuel_needed, next_attempt.
        cbn [attempt_number outcome]. unfold max_attempts. lia.
    + apply IH.
      * unfold consistent, set_outcome.
        cbn [attempt_number outcome sleeps calls].
        unfold max_attempts. split; [lia|]. split; [exact Hs|lia].
      * unfold fuel_needed, set_outcome.
        cbn [attempt_number outcome]. unfold max_attempts. lia.
Qed.

Lemma retried_finishes (provider : nat -> res str) (fuel : nat) :
  (6 <= fuel)%nat ->
  exists result w,
    retried fuel provider = Some (result, w)
    /\ (1 <= calls w <= max_attempts)%nat
    /\ sleeps w = map delay_after (seq 1 (calls w - 1)).
Proof.
  intros H. unfold retried, call. apply call_loop_finishes.
  - unfold consistent, initial_state, max_attempts. simpl. repeat split; lia.
  - unfold fuel_needed, initial_state, max_attempts. simpl. lia.
Qed.

End RetryFacts.

Section RetryScenarios.

Local Open Scope Z_scope.

(** More fuel does not change the outcome of a run that finished. *)
Lemma call_loop_more_fuel (A : Type) (r : Retrying A) (fn : unit_of_work A) :
  forall fuel st w x,
    call_loop fuel r fn st w = Some x ->
    forall fuel', (fuel <= fuel')%nat -> call_loop fuel' r fn st w = Some x.
Proof.
  induction fuel as [|fuel IH]; intros st w x H fuel' Hle; [discriminate|].
  destruct fuel' as [|fuel']; [lia|].
  cbn [call_loop] in *.
  destruct (iter r st); [apply IH with (fuel' := fuel') in H; [exact H|lia]
                        |apply IH with (fuel' := fuel') in H; [exact H|lia]
                        |exact H].
Qed.

Lemma retried_more_fuel (provider : nat -> res str) (fuel fuel' : nat)
      (x : res str * Effects) :
  retried fuel provider = Some x -> (fuel <= fuel')%nat ->
  retried fuel' provider = Some x.
Proof. unfold retried, call. intros H L. eapply call_loop_more_fuel; eauto. Qed.


(** Three transient failures: three invocations, two sleeps, and
    [RetryError] around the error of the third invocation. *)
Lemma retried_exhausted (provider : nat -> res str) (e1 e2 e3 : exn) :
  provider 0%nat = Raise e1 -> transient e1 = true ->
  provider 1%nat = Raise e2 -> transient e2 = true ->
  provider 2%nat = Raise e3 -> transient e3 = true ->
  retried 6 provider
  = Some (Raise (RetryError (Some e3)), {| calls := 3; sleeps := [2; 2] |}).
Proof.
  intros P0 T0 P1 T1 P2 T2. unfold retried, call, initial_state.
  cbn. rewrite P0. cbn. rewrite T0. cbn.
  rewrite P1. cbn. rewrite T1. cbn. rewrite P2. cbn. rewrite T2. reflexivity.
Qed.


End RetryScenarios.

(** The same scenarios for every outcome after which the policy does not
    retry, a value or an error that is not transient. *)
Section RetryMore.

Local Open Scope Z_scope.


Lemma retried_first (block : nat -> res str) :
  settled (block 0%nat) = true ->
  retried 2 block
  = Some (block 0%nat, {| calls := 1; sleeps := [] |}).
Proof.
  intros S. unfold retried, call, initial_state. cbn.
  destruct (block 0%nat) as [v|e] eqn:P; cbn in S |- *.
  - reflexivity.
  - apply negb_true_iff in S. now rewrite S.
Qed.

Lemma retried_second (block : nat -> res str) (e1 : exn) :
  block 0%nat = Raise e1 -> transient e1 = true ->
  settled (block 1%nat) = true ->
  retried 4 block
  = Some (block 1%nat, {| calls := 2; sleeps := [2] |}).
Proof.
  intros P0 T0 S. unfold retried, call, initial_state.
  cbn. rewrite P0. cbn. rewrite T0. cbn.
  destruct (block 1%nat) as [v|e] eqn:P; cbn in S |- *.
  - reflexivity.
  - apply negb_true_iff in S. now rewrite S.
Qed.

Lemma retried_third (block : nat -> res str) (e1 e2 : exn) :
  block 0%nat = Raise e1 -> transient e1 = true ->
  block 1%nat = Raise e2 -> transient e2 = true ->
  settled (block 2%nat) = true ->
  retried 6 block
  = Some (block 2%nat, {| calls := 3; sleeps := [2; 2] |}).
Proof.
  intros P0 T0 P1 T1 S. unfold retried, call, initial_state.
  cbn. rewrite P0. cbn. rewrite T0. cbn. rewrite P1. cbn. rewrite T1. cbn.
  destruct (block 2%nat) as [v|e] eqn:P; cbn in S |- *.
  - reflexivity.
  - apply negb_true_iff in S. now rewrite S.
Qed.

(** Under the policy the loop reads the block at most at its first
    three invocations. *)
Lemma call_loop_first_three (fn fn' : unit_of_work str) :
  (forall j, (j < 3)%nat -> fn j = fn' j) ->
  forall fuel st w,
    consistent st w ->
    call_loop fuel retry_policy fn st w = call_loop fuel retry_policy fn' st w.
Proof.
  intros Same. induction fuel as [|fuel IH]; intros st w (Ha & Hs & Hc);
    [reflexivity|].
  cbn [call_loop]. unfold iter.
  destruct st as [a o idle]. cbn [attempt_number outcome idle_for] in *.
  unfold max_attempts in *.
  destruct o as [fut|].
  - unfold retry_policy at 1 2 3 4 6 7 8 9. cbn [stop wait retry reraise].
    unfold stop_after_attempt, retry_if_exception_type, wait_exponential.
    cbn [attempt_number outcome]. unfold max_attempts.
    destruct fut as [v|e]; cbn [negb]; [reflexivity|].
    destruct (transient e); cbn [negb]; [|reflexivity].
    destruct (3 <=? a)%nat eqn:St; [reflexivity|].
    apply Nat.leb_gt in St. apply IH.
    unfold consistent, next_attempt.
    cbn [attempt_number outcome sleeps calls].
    unfold max_attempts. split; [lia|]. split; [|lia].
    rewrite Hs. replace (S a - 1)%nat with (S (a - 1)) by lia.
    rewrite seq_snoc, map_app. cbn [map].
    replace (S (a - 1)) with a by lia. reflexivity.
  - rewrite (Same (calls w)) by lia. apply IH.
    unfold consistent, set_outcome.
    cbn [attempt_number outcome sleeps calls].
    unfold max_attempts. split; [lia|]. split; [exact Hs|lia].
Qed.


End RetryMore.

(* ================================================================== *)
(** * The retried calls: properties of the specification *)
(* ================================================================== *)



(** C3, at the inputs that decide it.  When every attempt times out, what
    the caller receives after the third attempt is [RetryError] holding
    the timeout, not the timeout itself, and it is not an instance of
    [TimeoutError] any more; an error that is not transient does reach the
    caller as it was raised. *)
Theorem exhausted_retries_raise_RetryError :
  retried 6 (fun _ => Raise (TimeoutError "timed out"))
  = Some (Raise (RetryError (Some (TimeoutError "timed out"))),
          {| calls := 3; sleeps := [2; 2]%Z |})
  /\ RetryError (Some (TimeoutError "timed out")) <> TimeoutError "timed out"
  /\ transient (RetryError (Some (TimeoutError "timed out"))) = false
  /\ retried 6 (fun _ => Raise (OtherException "PermissionDenied"
                                               "API key not valid"))
     = Some (Raise (OtherException "PermissionDenied" "API key not valid"),
             {| calls := 1; sleeps := [] |}).
Proof.
  split; [reflexivity|]. split; [discriminate|].
  split; reflexivity.
Qed.



(* ================================================================== *)
(** * The methods of [GeminiService]: what every run does *)
(* ================================================================== *)

Section MethodFacts.

Local Open Scope Z_scope.

Lemma call_loop_calls (fn : unit_of_work str) :
  forall fuel st w result w',
    call_loop fuel retry_policy fn st w = Some (result, w') ->
    (calls w <= calls w')%nat.
Proof.
  induction fuel as [|fuel IH]; intros st w result w' H; [discriminate|].
  cbn [call_loop] in H.
  destruct (iter retry_policy st) as [|d|r].
  - apply IH in H. cbn [calls] in H. lia.
  - apply IH in H. cbn [calls] in H. lia.
  - inversion H; subst. lia.
Qed.

(** While the blocks of the first three attempts end, the loop around
    blocks that may not end is the loop of the retry wrapper around
    their outcomes. *)
Lemma attempt_loop_call_loop (block : nat -> option (res str * Usage))
      (o : nat -> res str) (u : nat -> Usage) :
  (forall k, (k < 3)%nat -> block k = Some (o k, u k)) ->
  forall fuel st w used,
    consistent st w ->
    attempt_loop fuel block st w used
    = match call_loop fuel retry_policy
                      (fun k => log_and_reraise (o k)) st w with
      | Some (result, w') =>
        Some (result, w',
              used ++ map u (seq (calls w) (calls w' - calls w)))
      | None => None
      end.
Proof.
  intros Ends. induction fuel as [|fuel IH];
    intros st w used (Ha & Hs & Hc); [reflexivity|].
  cbn [attempt_loop call_loop]. unfold iter.
  destruct st as [a oc idle]. cbn [attempt_number outcome idle_for] in *.
  unfold max_attempts in *.
  destruct oc as [fut|].
  - set (L := call_loop fuel retry_policy _) in *.
    set (A := attempt_loop fuel block) in *.
    unfold retry_policy. cbn [stop wait retry reraise].
    unfold stop_after_attempt, retry_if_exception_type, wait_exponential.
    cbn [attempt_number outcome]. unfold max_attempts.
    assert (Done : forall r : res str,
               Some (r, w, used)
               = Some (r, w, used ++ map u (seq (calls w)
                                                (calls w - calls w)))).
    { intros r. rewrite Nat.sub_diag. cbn [seq map].
      now rewrite app_nil_r. }
    destruct fut as [v|e]; cbn [negb]; [apply Done|].
    destruct (transient e); cbn [negb]; [|apply Done].
    destruct (3 <=? a)%nat eqn:St; [apply Done|].
    apply Nat.leb_gt in St. rewrite IH; [reflexivity|].
    unfold consistent, next_attempt.
    cbn [attempt_number outcome sleeps calls].
    unfold max_attempts. split; [lia|]. split; [|lia].
    rewrite Hs. replace (S a - 1)%nat with (S (a - 1)) by lia.
    rewrite seq_snoc, map_app. cbn [map].
    replace (S (a - 1)) with a by lia. reflexivity.
  - rewrite (Ends (calls w)) by lia.
    rewrite IH.
    + cbn [calls].
      destruct (call_loop fuel retry_policy _ _ _) as [[result w']|] eqn:R;
        [|reflexivity].
      apply call_loop_calls in R. cbn [calls] in R.
      rewrite <- app_assoc. do 3 f_equal. cbn [app].
      replace (calls w' - calls w)%nat with (S (calls w' - S (calls w)))
        by lia.
      reflexivity.
    + unfold consistent, set_outcome.
      cbn [attempt_number outcome sleeps calls].
      unfold max_attempts. split; [lia|]. split; [exact Hs|lia].
Qed.

Lemma decorated_retried (block : nat -> option (res str * Usage))
      (o : nat -> res str) (u : nat -> Usage) (fuel : nat) :
  (forall k, (k < 3)%nat -> block k = Some (o k, u k)) ->
  decorated fuel block
  = match retried fuel o with
    | Some (result, w) => Some (result, w, map u (seq 0 (calls w)))
    | None => None
    end.
Proof.
  intros Ends. unfold decorated, retried, call.
  rewrite (attempt_loop_call_loop block o u Ends).
  - cbn [calls app].
    destruct (call_loop fuel retry_policy _ _ _) as [[result w]|];
      [|reflexivity].
    now rewrite Nat.sub_0_r.
  - unfold consistent, initial_state, max_attempts. simpl.
    repeat split; lia.
Qed.

(** The methods that ask for a text are the retry wrapper around the
    stripped responses. *)
Lemma text_method_retried (provider : nat -> res str) (fuel : nat) :
  decorated fuel (fun k => text_block (provider k))
  = match retried fuel (fun k => stripped_text (provider k)) with
    | Some (result, w) => Some (result, w, repeat one_request (calls w))
    | None => None
    end.
Proof.
  rewrite (decorated_retried
             (fun k => text_block (provider k))
             (fun k => stripped_text (provider k))
             (fun _ => one_request) fuel) by reflexivity.
  destruct (retried fuel _) as [[result w]|]; [|reflexivity].
  do 2 f_equal. generalize 0%nat.
  induction (calls w) as [|n IH]; intros s; [reflexivity|].
  cbn [seq map repeat]. now rewrite IH.
Qed.

Lemma stripped_settled (response : res str) :
  settled (stripped_text response) = settled response.
Proof. now destruct response. Qed.

Lemma stripped_failure (response : res str) (e : exn) :
  response = Raise e -> stripped_text response = Raise e.
Proof. now intros ->. Qed.

(** While the file stays in [PROCESSING], the polling goes on. *)
Lemma wait_while_processing_stuck (patience polled : nat) :
  wait_while_processing patience (fun _ => Ret PROCESSING) polled PROCESSING
  = None.
Proof.
  revert polled. induction patience as [|patience IH]; intros polled;
    [reflexivity|].
  cbn [wait_while_processing]. apply IH.
Qed.

End MethodFacts.

(** X1.  [generate_summary] and [refine_transcript] return the text of
    the first response among the first three that is a text or an error
    that is not transient, with the white space around it removed (an
    error as it is): they have then asked the provider once more than
    they met transient failures, and slept two seconds after each of
    them. *)
Theorem first_settled_response_returned (provider : nat -> res str)
        (fuel k : nat) :
  6 <= fuel -> k < 3 ->
  (forall j, j < k -> exists e, provider j = Raise e /\ transient e = true) ->
  settled (provider k) = true ->
  generate_summary fuel provider
  = Some (stripped_text (provider k),
          {| calls := S k; sleeps := repeat 2%Z k |},
          repeat one_request (S k))
  /\ GeminiService.refine_transcript fuel provider
     = Some (stripped_text (provider k),
             {| calls := S k; sleeps := repeat 2%Z k |},
             repeat one_request (S k))
  /\ (forall text, provider k = Ret text ->
                   stripped_text (provider k) = Ret (strip text))
  /\ (forall e, provider k = Raise e ->
                stripped_text (provider k) = Raise e).
Proof.
  intros Hf Hk Before St.
  assert (R : retried fuel (fun j => stripped_text (provider j))
              = Some (stripped_text (provider k),
                      {| calls := S k; sleeps := repeat 2%Z k |})).
  { assert (B : forall j, j < k ->
                          exists e, stripped_text (provider j) = Raise e
                                    /\ transient e = true).
    { intros j Hj. destruct (Before j Hj) as (e & -> & T).
      exists e. split; [reflexivity|exact T]. }
    rewrite <- stripped_settled in St.
    destruct k as [|[|[|k]]]; [| | |lia].
    - apply retried_more_fuel with (fuel := 2); [|lia].
      now apply (retried_first (fun j => stripped_text (provider j))).
    - destruct (B 0) as (e1 & P0 & T0); [lia|].
      apply retried_more_fuel with (fuel := 4); [|lia].
      now apply (retried_second (fun j => stripped_text (provider j)) e1).
    - destruct (B 0) as (e1 & P0 & T0); [lia|].
      destruct (B 1) as (e2 & P1 & T1); [lia|].
      apply retried_more_fuel with (fuel := 6); [|lia].
      now apply (retried_third (fun j => stripped_text (provider j))
                               e1 e2). }
  unfold generate_summary, GeminiService.refine_transcript.
  rewrite text_method_retried, R. cbn [calls].
  split; [reflexivity|]. split; [reflexivity|].
  split; [now intros text ->|now intros e ->].
Qed.

Lemma first_settled_response_returned_witness :
  6 <= 6 /\ 1 < 3
  /\ generate_summary
       6 (fun k => if k =? 0 then Raise (ConnectionError "reset")
                   else Ret (lit "  ## Summary" ++ [newline]))
     = Some (Ret (lit "## Summary"),
             {| calls := 2; sleeps := [2%Z] |},
             [one_request; one_request]).
Proof.
  split; [apply Nat.le_refl|]. split; [repeat constructor|].
  apply (first_settled_response_returned
           (fun k => if k =? 0 then Raise (ConnectionError "reset")
                     else Ret (lit "  ## Summary" ++ [newline]))
           6 1 (Nat.le_refl 6)).
  - repeat constructor.
  - intros j Hj. exists (ConnectionError "reset").
    destruct j; [split; reflexivity|lia].
  - reflexivity.
Defined.

(** X2.  When the provider fails with a transient error at each of its
    first three invocations, the caller receives [RetryError] around the
    error of the third invocation: the errors of the first two are lost,
    and what is raised is no longer a timeout or a connection error. *)
Theorem exhaustion_keeps_last_error (provider : nat -> res str)
        (fuel : nat) (e1 e2 e3 : exn) :
  6 <= fuel ->
  provider 0 = Raise e1 -> transient e1 = true ->
  provider 1 = Raise e2 -> transient e2 = true ->
  provider 2 = Raise e3 -> transient e3 = true ->
  retried fuel provider
  = Some (Raise (RetryError (Some e3)),
          {| calls := 3; sleeps := [2; 2]%Z |})
  /\ transient (RetryError (Some e3)) = false
  /\ RetryError (Some e3) <> e3.
Proof.
  intros Hf P0 T0 P1 T1 P2 T2. split; [|split].
  - apply retried_more_fuel with (fuel := 6); [|exact Hf].
    now apply retried_exhausted with (e1 := e1) (e2 := e2).
  - reflexivity.
  - destruct e3; discriminate.
Qed.

Lemma exhaustion_keeps_last_error_witness :
  6 <= 6
  /\ retried 6 (fun k => if k <? 2 then Raise (TimeoutError "timed out")
                         else Raise (ConnectionError "reset"))
     = Some (Raise (RetryError (Some (ConnectionError "reset"))),
             {| calls := 3; sleeps := [2; 2]%Z |}).
Proof.
  split; [apply Nat.le_refl|].
  apply (exhaustion_keeps_last_error
           (fun k => if k <? 2 then Raise (TimeoutError "timed out")
                     else Raise (ConnectionError "reset"))
           6 (TimeoutError "timed out") (TimeoutError "timed out")
           (ConnectionError "reset") (Nat.le_refl 6));
    reflexivity.
Defined.

(** X3.  A run of [generate_summary] or of [refine_transcript] never asks
    the provider a fourth time: its result and its effects depend on the
    first three responses only.  A run that finishes has asked the
    provider between one and three times, once in each attempt, and has
    slept once less than that, two seconds each time, four seconds in all
    at most. *)
Theorem text_methods_bounded (provider provider' : nat -> res str)
        (fuel : nat) (result : res str) (w : Effects)
        (used : list Usage) :
  (forall j, j < 3 -> provider j = provider' j) ->
  generate_summary fuel provider = Some (result, w, used) ->
  generate_summary fuel provider' = Some (result, w, used)
  /\ GeminiService.refine_transcript fuel provider = Some (result, w, used)
  /\ 1 <= calls w <= 3
  /\ used = repeat one_request (calls w)
  /\ sleeps w = repeat 2%Z (calls w - 1)
  /\ (total (sleeps w) <= 4)%Z.
Proof.
  intros Same G.
  unfold generate_summary, GeminiService.refine_transcript in *.
  rewrite text_method_retried in G. rewrite !text_method_retried.
  destruct (retried fuel (fun k => stripped_text (provider k)))
    as [[result0 w0]|] eqn:R; [|discriminate].
  injection G as -> -> <-.
  assert (E : retried fuel (fun k => stripped_text (provider' k))
              = retried fuel (fun k => stripped_text (provider k))).
  { unfold retried, call. symmetry. apply call_loop_first_three.
    - intros j Hj. now rewrite Same.
    - unfold consistent, initial_state, max_attempts. simpl.
      repeat split; lia. }
  rewrite E, R. split; [reflexivity|]. split; [reflexivity|].
  destruct (retried_finishes (fun k => stripped_text (provider k))
                             (Nat.max fuel 6) ltac:(lia))
    as (result' & w' & R' & C & Sl).
  pose proof (retried_more_fuel _ fuel (Nat.max fuel 6) _ R
                                ltac:(lia)) as R2.
  rewrite R2 in R'. inversion R'; subst result' w'.
  unfold max_attempts in C. split; [exact C|]. split; [reflexivity|].
  assert (Cs : calls w = 1 \/ calls w = 2 \/ calls w = 3) by lia.
  destruct Cs as [Cw|[Cw|Cw]]; rewrite Sl, Cw; split;
    (reflexivity || (apply Z.leb_le; reflexivity)).
Qed.

Lemma text_methods_bounded_witness :
  generate_summary 9 (fun _ => Raise (TimeoutError "timed out"))
  = Some (Raise (RetryError (Some (TimeoutError "timed out"))),
          {| calls := 3; sleeps := [2; 2]%Z |},
          [one_request; one_request; one_request])
  /\ generate_summary
       9 (fun k => if k <? 3 then Raise (TimeoutError "timed out")
                   else Ret (lit "late"))
     = Some (Raise (RetryError (Some (TimeoutError "timed out"))),
             {| calls := 3; sleeps := [2; 2]%Z |},
             [one_request; one_request; one_request]).
Proof.
  assert (R : generate_summary 9 (fun _ => Raise (TimeoutError "timed out"))
              = Some (Raise (RetryError (Some (TimeoutError "timed out"))),
                      {| calls := 3; sleeps := [2; 2]%Z |},
                      [one_request; one_request; one_request]))
    by reflexivity.
  split; [exact R|].
  apply (text_methods_bounded
           (fun _ => Raise (TimeoutError "timed out"))
           (fun k => if k <? 3 then Raise (TimeoutError "timed out")
                     else Ret (lit "late"))
           9 _ _ _).
  - intros j Hj. destruct j as [|[|[|j]]]; [reflexivity..|lia].
  - exact R.
Defined.

(* ================================================================== *)
(** * The date extractor: what every filename gives *)
(* ================================================================== *)

Section DateMore.

Variable year_padded : bool.

(** The groups of a match are pieces of the text that was matched. *)
Lemma match_here_groups_within (r : regex) :
  forall s len gs g,
    match_here r s = Some (len, gs) -> In g gs ->
    exists a b, s = a ++ g ++ b.
Proof.
  induction r as [|n r IH]; intros s len gs g H Hg; simpl in H.
  - inversion H; subst. contradiction.
  - apply backtrack_Some in H as (j & _ & Hm & _).
    destruct (match_here r (skipn j s)) as [[len' gs']|] eqn:E;
      [|discriminate].
    inversion Hm; subst; clear Hm.
    assert (Tail : In g gs' -> exists a b, s = a ++ g ++ b).
    { intros Hin. destruct (IH _ _ _ _ E Hin) as (a & b & Eq).
      exists (firstn j s ++ a), b.
      rewrite <- app_assoc, <- Eq. symmetry. apply firstn_skipn. }
    destruct (captures n); [|auto].
    destruct Hg as [<-|Hg]; [|auto].
    exists [], (skipn j s). simpl. symmetry. apply firstn_skipn.
Qed.

Lemma search_groups_within (r : regex) (s : str) (m : Match) (g : str) :
  search r s = Some m -> In g (groups m) -> exists a b, s = a ++ g ++ b.
Proof.
  intros Sm Hg.
  destruct (search_from_leftmost _ _ _ _ Sm) as (i & len & _ & _ & Hm & _).
  destruct (match_here_groups_within _ _ _ _ _ Hm Hg) as (a & b & Eq).
  exists (firstn i s ++ a), b.
  rewrite <- app_assoc, <- Eq. symmetry. apply firstn_skipn.
Qed.

Lemma longest_digit_run_head (s : str) :
  span Digit None s <= longest_digit_run s.
Proof. destruct s; [reflexivity|]. cbn [longest_digit_run]. lia. Qed.

Lemma longest_digit_run_app (a s : str) :
  longest_digit_run s <= longest_digit_run (a ++ s).
Proof.
  induction a as [|c a IH]; [reflexivity|].
  cbn [app longest_digit_run]. lia.
Qed.

(** A run of digits inside a text is at most as long as the longest. *)
Lemma digits_within (a g b : str) :
  forallb is_digit g = true -> length g <= longest_digit_run (a ++ g ++ b).
Proof.
  intros D.
  pose proof (longest_digit_run_app a (g ++ b)) as L1.
  pose proof (longest_digit_run_head (g ++ b)) as L2.
  rewrite (span_app Digit g b D None) in L2 by discriminate. lia.
Qed.

(** Every pattern of the table captures a year of four digits. *)
Lemma pattern_has_year (p : regex) (ft : format_type) (gs : list str) :
  In (p, ft) PATTERNS -> groups_shape p gs ->
  exists g, In g gs /\ length g = 4 /\ forallb is_digit g = true.
Proof.
  intros HIn S. simpl in HIn.
  repeat (destruct HIn as [HIn|HIn];
          [inversion HIn; subst p ft; clear HIn|]); [..|contradiction];
    simpl in S;
    destruct gs as [|g1 [|g2 [|g3 [|g4 gs]]]];
    try tauto; try (destruct S as (_ & _ & _ & S); discriminate);
    destruct S as (G1 & G2 & G3 & _).
  1,2,5: exists g1; split; [now left|];
         destruct G1 as (C & L & U); specialize (U 4 eq_refl);
         simpl in L; split; [lia|exact C].
  all: exists g3; split; [right; right; now left|];
       destruct G3 as (C & L & U); specialize (U 4 eq_refl);
       simpl in L; split; [lia|exact C].
Qed.

Lemma no_year_no_candidate (p : regex) (ft : format_type) (filename : str) :
  In (p, ft) PATTERNS -> longest_digit_run filename < 4 ->
  candidate year_padded (p, ft) filename = None.
Proof.
  intros HIn Short. unfold candidate. cbn [fst snd].
  destruct (search p filename) as [m|] eqn:Sm; [|reflexivity].
  exfalso.
  destruct (pattern_has_year _ _ _ HIn (search_from_shape _ _ _ _ Sm))
    as (g & Hg & L & D).
  destruct (search_groups_within _ _ _ _ Sm Hg) as (a & b & Eq).
  pose proof (digits_within a g b D) as W. rewrite <- Eq in W. lia.
Qed.

Lemma drop_zeros_length (s : str) :
  length (Datetime.drop_zeros s) <= length s.
Proof.
  induction s as [|a s IH]; [reflexivity|].
  cbn [Datetime.drop_zeros]. destruct (Ascii.eqb a "0"); simpl; lia.
Qed.

Lemma drop_zeros_same_length (s : str) :
  length (Datetime.drop_zeros s) = length s -> Datetime.drop_zeros s = s.
Proof.
  destruct s as [|a s]; [reflexivity|].
  cbn [Datetime.drop_zeros]. destruct (Ascii.eqb a "0"); [|reflexivity].
  intros L. pose proof (drop_zeros_length s). simpl in L. lia.
Qed.

Lemma four_digits_value (y : Z) :
  (0 <= y <= 9999)%Z ->
  digits 4 (Datetime.four_digits y)
  /\ digits_value (Datetime.four_digits y) = y.
Proof.
  intros H. split; [split; [reflexivity|now apply four_digits_digit]|].
  destruct (four_digits_range y H) as (A & B & C & D).
  unfold Datetime.four_digits, digits_value. cbn [fold_left].
  destruct (digit_char_cases _ A) as [_ _].
  assert (V : forall d, (0 <= d <= 9)%Z -> digit_value (digit_char d) = d).
  { intros d Hd.
    assert (E : (d = 0 \/ d = 1 \/ d = 2 \/ d = 3 \/ d = 4 \/ d = 5
                 \/ d = 6 \/ d = 7 \/ d = 8 \/ d = 9)%Z) by lia.
    repeat (destruct E as [E|E]; [subst d; reflexivity|]).
    subst d; reflexivity. }
  rewrite !V by assumption.
  Z.to_euclidean_division_equations. lia.
Qed.

Lemma two_digits_value (n : Z) :
  (0 <= n <= 99)%Z ->
  digits 2 (Datetime.two_digits n)
  /\ digits_value (Datetime.two_digits n) = n.
Proof.
  intros H. split; [split; [reflexivity|now apply two_digits_digit]|].
  assert (A : (0 <= n / 10 <= 9)%Z)
    by (Z.to_euclidean_division_equations; lia).
  assert (B : (0 <= n mod 10 <= 9)%Z)
    by (Z.to_euclidean_division_equations; lia).
  assert (V : forall d, (0 <= d <= 9)%Z -> digit_value (digit_char d) = d).
  { intros d Hd.
    assert (E : (d = 0 \/ d = 1 \/ d = 2 \/ d = 3 \/ d = 4 \/ d = 5
                 \/ d = 6 \/ d = 7 \/ d = 8 \/ d = 9)%Z) by lia.
    repeat (destruct E as [E|E]; [subst d; reflexivity|]).
    subst d; reflexivity. }
  unfold Datetime.two_digits, digits_value. cbn [fold_left].
  rewrite !V by assumption.
  Z.to_euclidean_division_equations. lia.
Qed.

(** A printed date of ten characters is a [YYYY-MM-DD] whose fields read
    back as the date. *)
Lemma strftime_ten (y m d : Z) :
  Datetime.valid_date y m d ->
  length (Datetime.strftime_ymd year_padded (Datetime.date y m d)) = 10 ->
  exists Y M D,
    Datetime.strftime_ymd year_padded (Datetime.date y m d) = dashed Y M D
    /\ digits 4 Y /\ digits 2 M /\ digits 2 D
    /\ digits_value Y = y /\ digits_value M = m /\ digits_value D = d.
Proof.
  intros (Hy & Hm & Hd) L.
  unfold Datetime.MINYEAR, Datetime.MAXYEAR in Hy.
  pose proof (days_in_month_le_31 y m) as B.
  destruct (four_digits_value y ltac:(lia)) as [DY VY].
  destruct (two_digits_value m ltac:(lia)) as [DM VM].
  destruct (two_digits_value d ltac:(lia)) as [DD VD].
  exists (Datetime.four_digits y), (Datetime.two_digits m),
    (Datetime.two_digits d).
  split; [|tauto].
  unfold Datetime.strftime_ymd, Datetime.date, dashed in *.
  cbn [Datetime.year Datetime.month Datetime.day] in *.
  f_equal. unfold Datetime.format_year in *.
  destruct year_padded; [reflexivity|].
  apply drop_zeros_same_length.
  rewrite !length_app in L. simpl in L. simpl. lia.
Qed.

Lemma lstrip_no_space (s : str) :
  forallb (fun a => negb (is_space a)) s = true -> lstrip s = s.
Proof.
  destruct s as [|a s]; [reflexivity|]. simpl.
  intros H. apply andb_true_iff in H as [Ha _].
  apply negb_true_iff in Ha. now rewrite Ha.
Qed.

(** [strip] leaves alone a string without white space. *)
Lemma strip_no_space (s : str) :
  forallb (fun a => negb (is_space a)) s = true -> strip s = s.
Proof.
  intros H. unfold strip. rewrite (lstrip_no_space s H).
  rewrite (lstrip_no_space (rev s)).
  - apply rev_involutive.
  - rewrite forallb_forall in *. intros a Ha. apply H.
    now apply in_rev.
Qed.

Lemma lower_letters_no_space (w : str) :
  forallb is_letter w = true ->
  forallb (fun a => negb (is_space a)) (lower w) = true.
Proof.
  induction w as [|a w IH]; intros H; [reflexivity|].
  simpl in H. apply andb_true_iff in H as [Ha H].
  cbn [lower map forallb].
  rewrite (lower_letter_not_space a Ha). cbn [negb andb]. now apply IH.
Qed.

Lemma dict_get_Some_In (d : list (str * str)) (k v : str) :
  dict_get d k = Some v -> In (k, v) d.
Proof.
  induction d as [|[k' v'] d IH]; simpl; [discriminate|].
  unfold str_eqb. destruct (list_eq_dec ascii_dec k' k) as [->|N].
  - intros E; inversion E; now left.
  - intros E; right; auto.
Qed.

End DateMore.

(** X4.  A filename that has no four decimal digits in a row has no
    date: all the patterns ask for a year of four digits, so years of two
    digits are never read. *)
Theorem no_four_digits_no_date (year_padded : bool) (filename : str) :
  longest_digit_run filename < 4 ->
  extract_date year_padded (Some filename) = Ret None.
Proof.
  intros Short. rewrite extract_date_first_valid.
  unfold PATTERNS. cbn [first_valid].
  rewrite !no_year_no_candidate by (exact Short || (simpl; tauto)).
  reflexivity.
Qed.

Lemma no_four_digits_no_date_witness :
  longest_digit_run (lit "standup_10-27-23_Oct 27 '23.mp3") < 4
  /\ extract_date false (Some (lit "standup_10-27-23_Oct 27 '23.mp3"))
     = Ret None.
Proof.
  assert (S : longest_digit_run (lit "standup_10-27-23_Oct 27 '23.mp3") < 4)
    by (vm_compute; repeat constructor).
  split; [exact S|].
  exact (no_four_digits_no_date
           false (lit "standup_10-27-23_Oct 27 '23.mp3") S).
Defined.

(** X5.  A date of ten characters that [extract_date] returns is a fixed
    point: given back as a filename, it is returned as it is.  (A date is
    shorter than ten characters only for a year below 1000 printed
    without padding.) *)
Theorem extract_date_fixed_point (year_padded : bool)
        (filename : option str) (date : str) :
  extract_date year_padded filename = Ret (Some date) ->
  length date = 10 ->
  extract_date year_padded (Some date) = Ret (Some date).
Proof.
  intros E L.
  apply extract_date_valid in E as (y & m & d & V & ->).
  destruct (strftime_ten year_padded y m d V L)
    as (Y & M & D & Eq & DY & DM & DD & VY & VM & VD).
  rewrite Eq. rewrite extract_date_first_valid.
  unfold PATTERNS. cbn [first_valid].
  rewrite candidate_interpret by (now left).
  assert (M0 : match_here iso_pattern (skipn 0 (dashed Y M D))
               = Some (10, [Y; M; D])).
  { cbn [skipn]. rewrite <- (app_nil_r (dashed Y M D)).
    now apply iso_match_dashed. }
  assert (F : first_occurrence iso_pattern (dashed Y M D) 0).
  { split; [unfold occurs_at; congruence|]. intros j Hj. lia. }
  rewrite (search_first_occurrence _ _ _ _ _ F M0).
  cbn [groups interpret date_of]. rewrite VY, VM, VD.
  apply valid_dateb_spec in V. rewrite V. now rewrite <- Eq.
Qed.

Lemma extract_date_fixed_point_witness :
  extract_date false (Some (lit "Retro Feb 29, 2024 (final).m4a"))
  = Ret (Some (lit "2024-02-29"))
  /\ length (lit "2024-02-29") = 10
  /\ extract_date false (Some (lit "2024-02-29"))
     = Ret (Some (lit "2024-02-29")).
Proof.
  assert (E : extract_date false
                (Some (lit "Retro Feb 29, 2024 (final).m4a"))
              = Ret (Some (lit "2024-02-29"))) by (vm_compute; reflexivity).
  split; [exact E|]. split; [reflexivity|].
  exact (extract_date_fixed_point
           false (Some (lit "Retro Feb 29, 2024 (final).m4a"))
           (lit "2024-02-29") E eq_refl).
Defined.

(** X6.  Every filename that [get_supported_formats] gives as an example
    of a supported format does yield a date, and all six yield the same
    one, 2023-10-27. *)
Theorem supported_formats_have_dates (year_padded : bool) (filename : str) :
  In filename get_supported_formats ->
  extract_date year_padded (Some filename) = Ret (Some (lit "2023-10-27")).
Proof.
  intros H. unfold get_supported_formats in H. simpl in H.
  destruct year_padded;
    repeat (destruct H as [<-|H]; [vm_compute; reflexivity|]);
    contradiction.
Qed.

Lemma supported_formats_have_dates_witness :
  In (lit "Meeting_10-27-2023.mp3") get_supported_formats
  /\ extract_date false (Some (lit "Meeting_10-27-2023.mp3"))
     = Ret (Some (lit "2023-10-27")).
Proof.
  assert (H : In (lit "Meeting_10-27-2023.mp3") get_supported_formats)
    by (right; left; reflexivity).
  split; [exact H|].
  exact (supported_formats_have_dates false _ H).
Defined.

(** X7.  The month lookup.  On a word made of letters, which is all the
    patterns ever capture, stripping does nothing and the lookup is that
    of the lower-cased word, so that it does not depend on the case of
    the letters.  A name of the table and its first three letters give
    the same month; the months given are two digits between 01 and 12,
    and each of the twelve is given by some name. *)
Theorem month_lookup (w w' : str) :
  forallb is_letter w = true ->
  _month_to_number w = dict_get MONTHS (lower w)
  /\ (forallb is_letter w' = true -> lower w = lower w' ->
      _month_to_number w = _month_to_number w')
  /\ (forall v, _month_to_number w = Some v ->
        dict_get MONTHS (firstn 3 (lower w)) = Some v
        /\ digits 2 v /\ (1 <= digits_value v <= 12)%Z)
  /\ (forall n, (1 <= n <= 12)%Z ->
        exists k, In k (map fst MONTHS)
                  /\ dict_get MONTHS k = Some (Datetime.two_digits n)).
Proof.
  intros H.
  assert (A : forall u, forallb is_letter u = true ->
                        _month_to_number u = dict_get MONTHS (lower u)).
  { intros u Hu. unfold _month_to_number.
    now rewrite strip_no_space by now apply lower_letters_no_space. }
  split; [now apply A|]. split; [|split].
  - intros H' E. rewrite (A w H), (A w' H'). now rewrite E.
  - intros v Hv. rewrite (A w H) in Hv.
    apply dict_get_Some_In in Hv. unfold MONTHS in Hv. simpl in Hv.
    repeat (destruct Hv as [Hv|Hv];
            [injection Hv as Hk Hvv; rewrite <- Hk, <- Hvv;
             split; [reflexivity|];
             split; [split; reflexivity|];
             split; apply Z.leb_le; reflexivity|]).
    contradiction.
  - intros n Hn.
    assert (E : (n = 1 \/ n = 2 \/ n = 3 \/ n = 4 \/ n = 5 \/ n = 6
                 \/ n = 7 \/ n = 8 \/ n = 9 \/ n = 10 \/ n = 11
                 \/ n = 12)%Z) by lia.
    destruct E as [E|[E|[E|[E|[E|[E|[E|[E|[E|[E|[E|E]]]]]]]]]]]; subst n.
    + exists (lit "jan"); split; [simpl; tauto|reflexivity].
    + exists (lit "feb"); split; [simpl; tauto|reflexivity].
    + exists (lit "mar"); split; [simpl; tauto|reflexivity].
    + exists (lit "apr"); split; [simpl; tauto|reflexivity].
    + exists (lit "may"); split; [simpl; tauto|reflexivity].
    + exists (lit "jun"); split; [simpl; tauto|reflexivity].
    + exists (lit "jul"); split; [simpl; tauto|reflexivity].
    + exists (lit "aug"); split; [simpl; tauto|reflexivity].
    + exists (lit "sep"); split; [simpl; tauto|reflexivity].
    + exists (lit "oct"); split; [simpl; tauto|reflexivity].
    + exists (lit "nov"); split; [simpl; tauto|reflexivity].
    + exists (lit "dec"); split; [simpl; tauto|reflexivity].
Qed.

Lemma month_lookup_witness :
  forallb is_letter (lit "OCTober") = true
  /\ _month_to_number (lit "OCTober") = dict_get MONTHS (lit "october").
Proof.
  split; [reflexivity|].
  exact (proj1 (month_lookup (lit "OCTober") (lit "october") eq_refl)).
Defined.

(* ================================================================== *)
(** * Facts about the extended matcher *)
(* ================================================================== *)

Section RxFacts.

Lemma span_of_le_length (c : cset) (s : str) :
  forall limit, span_of c limit s <= length s.
Proof.
  induction s as [|a s IH]; intros limit.
  - destruct limit as [[|n]|]; simpl; lia.
  - destruct limit as [[|n]|]; simpl; try lia;
      destruct (in_cset c a); simpl; try lia.
    + specialize (IH (Some n)). lia.
    + specialize (IH None). lia.
Qed.

Lemma span_of_le_limit (c : cset) (s : str) :
  forall n, span_of c (Some n) s <= n.
Proof.
  induction s as [|a s IH]; intros n.
  - destruct n; simpl; lia.
  - destruct n as [|n]; simpl; try lia.
    destruct (in_cset c a); try lia.
    specialize (IH n). simpl. lia.
Qed.

Lemma span_of_prefix (c : cset) (s : str) :
  forall limit k, k <= span_of c limit s ->
                  forallb (in_cset c) (firstn k s) = true.
Proof.
  induction s as [|a s IH]; intros limit k Hk.
  - destruct k; reflexivity.
  - destruct k as [|k]; [reflexivity|].
    simpl firstn. simpl forallb.
    destruct limit as [[|n]|]; simpl in Hk; try lia;
      destruct (in_cset c a) eqn:Ha; try lia; simpl;
        eapply IH with (limit := _); apply le_S_n, Hk.
Qed.

Lemma span_of_app (c : cset) (g s : str) :
  forallb (in_cset c) g = true ->
  forall limit,
    (forall n, limit = Some n -> length g <= n) ->
    span_of c limit (g ++ s)
    = length g + span_of c (option_map (fun n => n - length g) limit) s.
Proof.
  induction g as [|a g IH]; intros H limit L.
  - simpl. destruct limit as [n|]; simpl; [|reflexivity].
    now rewrite Nat.sub_0_r.
  - simpl in H. apply andb_true_iff in H as [Ha H].
    destruct limit as [[|n]|].
    + specialize (L 0 eq_refl). simpl in L. lia.
    + cbn [app span_of length]. rewrite Ha. cbn [option_map pred].
      rewrite IH; [reflexivity|exact H|].
      intros k E. inversion E; subst k. specialize (L (S n) eq_refl).
      simpl in L. lia.
    + cbn [app span_of length]. rewrite Ha. cbn [option_map].
      rewrite IH; [reflexivity|exact H|discriminate].
Qed.

Lemma span_of_limit_zero (c : cset) (s : str) : span_of c (Some 0) s = 0.
Proof. destruct s; reflexivity. Qed.

(** A repetition that matched took some number of characters of its
    class, within its bounds, and the rest of the pattern matched from
    there. *)
Lemma run_Rep {R} (ml : bool) (cs : cset) (lo : nat) (hi : option nat)
      (c : cursor) (caps : list str)
      (k : cursor -> list str -> option R) (x : R) :
  run ml (Rep cs lo hi) c caps k = Some x ->
  exists n,
    lo <= n /\ n <= length (ahead c)
    /\ forallb (in_cset cs) (firstn n (ahead c)) = true
    /\ k (advance n c) caps = Some x.
Proof.
  cbn [run]. intros H.
  apply backtrack_Some in H as (n & Hn & Hk & _).
  exists n. split; [lia|]. split.
  - pose proof (span_of_le_length cs (ahead c) hi). lia.
  - split; [|exact Hk]. apply span_of_prefix with (limit := hi). lia.
Qed.

(** A repetition of exactly [n] takes [n] characters or fails. *)
Lemma run_exact {R} (ml : bool) (cs : cset) (n : nat) (c : cursor)
      (caps : list str) (k : cursor -> list str -> option R) :
  run ml (Rep cs n (Some n)) c caps k
  = if span_of cs (Some n) (ahead c) =? n then k (advance n c) caps
    else None.
Proof.
  cbn [run]. pose proof (span_of_le_limit cs (ahead c) n) as L.
  destruct (span_of cs (Some n) (ahead c) =? n) eqn:E.
  - apply Nat.eqb_eq in E. rewrite E.
    destruct n as [|n]; cbn [backtrack].
    + now destruct (k (advance 0 c) caps).
    + rewrite Nat.ltb_irrefl. destruct (k (advance (S n) c) caps); auto.
      apply backtrack_None_below. lia.
  - apply Nat.eqb_neq in E. apply backtrack_None_below. lia.
Qed.

Lemma span_of_exact (cs : cset) (n : nat) (g s : str) :
  length g = n -> forallb (in_cset cs) g = true ->
  span_of cs (Some n) (g ++ s) = n.
Proof.
  intros L D. rewrite span_of_app by (auto; intros k E; inversion E; lia).
  cbn [option_map]. rewrite L, Nat.sub_diag, span_of_limit_zero. lia.
Qed.

Lemma span_of_exact_inv (cs : cset) (n : nat) (s : str) :
  span_of cs (Some n) s = n ->
  s = firstn n s ++ skipn n s /\ length (firstn n s) = n
  /\ forallb (in_cset cs) (firstn n s) = true.
Proof.
  intros E. split; [symmetry; apply firstn_skipn|]. split.
  - apply firstn_length_le.
    pose proof (span_of_le_length cs s (Some n)). lia.
  - apply span_of_prefix with (limit := Some n). lia.
Qed.

(** What is not in a group leaves the groups as they are. *)
Lemma run_no_cap {R} (ml : bool) (r : rx) :
  no_cap r = true ->
  forall (c : cursor) (caps : list str)
         (k : cursor -> list str -> option R) (x : R),
    run ml r c caps k = Some x -> exists c', k c' caps = Some x.
Proof.
  induction r as [|cs lo hi| | |r1 IH1 r2 IH2|r1 IH1|r1 IH1];
    intros N c caps k x H; cbn [run no_cap] in *.
  - eauto.
  - apply backtrack_Some in H as (n & _ & Hk & _). eauto.
  - destruct (at_bol ml c); [eauto|discriminate].
  - destruct (at_eol ml c); [eauto|discriminate].
  - apply andb_true_iff in N as [N1 N2].
    apply (IH1 N1) in H as (c1 & H). apply (IH2 N2) in H. exact H.
  - discriminate.
  - destruct (run ml r1 c caps k) eqn:E.
    + inversion H; subst. eapply IH1; eauto.
    + eauto.
Qed.

Lemma last_cons_default {A} (l : list A) :
  forall a d, last (a :: l) d = last l a.
Proof.
  induction l as [|b l IH]; intros a d; [reflexivity|].
  change (last (a :: b :: l) d) with (last (b :: l) d).
  now rewrite !IH.
Qed.

(** A match that [scan] reports starts at some position of the text, with
    the character before that position as its left context. *)
Lemma scan_In (ml : bool) (r : rx) (caps : list str) :
  forall s prev skip,
    In caps (scan ml r prev s skip) ->
    exists pre rest len,
      s = pre ++ rest
      /\ match_at ml r {| before := prev_char prev pre; ahead := rest;
                          offset := 0 |} = Some (len, caps).
Proof.
  assert (Step : forall a s prev,
             (exists pre rest len,
                 s = pre ++ rest
                 /\ match_at ml r {| before := prev_char (Some a) pre;
                                     ahead := rest; offset := 0 |}
                    = Some (len, caps)) ->
             exists pre rest len,
               a :: s = pre ++ rest
               /\ match_at ml r {| before := prev_char prev pre;
                                   ahead := rest; offset := 0 |}
                  = Some (len, caps)).
  { intros a s prev (pre & rest & len & E & M).
    exists (a :: pre), rest, len. split; [now rewrite E|].
    replace (prev_char prev (a :: pre)) with (prev_char (Some a) pre);
      [exact M|].
    unfold prev_char. cbn [map]. symmetry. apply last_cons_default. }
  induction s as [|a s IH]; intros prev skip H.
  - destruct skip; cbn [scan] in H; [|contradiction].
    destruct (match_at ml r _) as [[len caps']|] eqn:M; [|contradiction].
    destruct H as [<-|[]]. exists [], [], len. split; [reflexivity|exact M].
  - destruct skip as [|n]; cbn [scan] in H.
    + destruct (match_at ml r _) as [[len caps']|] eqn:M.
      * destruct H as [<-|H].
        -- exists [], (a :: s), len. split; [reflexivity|exact M].
        -- apply Step. eapply IH; eauto.
      * apply Step. eapply IH; eauto.
    + apply Step. eapply IH; eauto.
Qed.

Lemma findall_In (ml : bool) (r : rx) (s g : str) :
  In g (findall ml r s) ->
  exists pre rest len caps,
    s = pre ++ rest /\ g = hd [] caps
    /\ match_at ml r {| before := prev_char None pre; ahead := rest;
                        offset := 0 |} = Some (len, caps).
Proof.
  unfold findall. intros H. apply in_map_iff in H as (caps & <- & H).
  apply scan_In in H as (pre & rest & len & E & M).
  exists pre, rest, len, caps. auto.
Qed.

Lemma chr_class (a b : ascii) :
  forallb (in_cset (Class (OneOf [a]))) [b] = true -> b = a.
Proof.
  cbn. rewrite !orb_false_r, andb_true_r. apply Ascii.eqb_eq.
Qed.

End RxFacts.

(* ================================================================== *)
(** * The date validator of the summarization request *)
(* ================================================================== *)

Section ValidatorFacts.

Lemma run_Seq {R} (ml : bool) (r1 r2 : rx) (c : cursor) (caps : list str)
      (k : cursor -> list str -> option R) :
  run ml (Seq r1 r2) c caps k
  = run ml r1 c caps (fun c' caps' => run ml r2 c' caps' k).
Proof. reflexivity. Qed.

Lemma run_Bol {R} (ml : bool) (c : cursor) (caps : list str)
      (k : cursor -> list str -> option R) :
  run ml Bol c caps k = if at_bol ml c then k c caps else None.
Proof. reflexivity. Qed.

Lemma run_Eol {R} (ml : bool) (c : cursor) (caps : list str)
      (k : cursor -> list str -> option R) :
  run ml Eol c caps k = if at_eol ml c then k c caps else None.
Proof. reflexivity. Qed.

Lemma at_eol_plain (c : cursor) :
  at_eol false c = true <-> ahead c = [] \/ ahead c = [newline].
Proof.
  unfold at_eol. destruct (ahead c) as [|a [|b rest]]; cbn.
  - tauto.
  - rewrite andb_true_r. unfold is_newline, newline. split.
    + intros E. apply Ascii.eqb_eq in E. subst. now right.
    + intros [E|E]; [discriminate|]. inversion E. reflexivity.
  - rewrite andb_false_r. split; [discriminate|].
    intros [E|E]; discriminate.
Qed.

Lemma one_chr (a : ascii) (g : str) :
  length g = 1 -> forallb (in_cset (Class (OneOf [a]))) g = true -> g = [a].
Proof.
  destruct g as [|b [|? ?]]; try discriminate. intros _ H.
  now rewrite (chr_class a b H).
Qed.

(** A pattern [^\d{n1}s1\d{n2}s2\d{n3}$] matches the texts made of the
    three runs of digits and the two separators, and these texts followed
    by one newline. *)
Lemma fixed_layout (n1 n2 n3 : nat) (s1 s2 : ascii) (v : str) :
  matches (cat [Bol; digit n1 n1; chr s1; digit n2 n2; chr s2;
                digit n3 n3; Eol]) v = true
  <-> exists A B C tail,
      v = A ++ [s1] ++ B ++ [s2] ++ C ++ tail
      /\ digits n1 A /\ digits n2 B /\ digits n3 C
      /\ (tail = [] \/ tail = [newline]).
Proof.
  unfold matches, rmatch, match_at, digit, chr. cbn [cat].
  rewrite run_Seq, run_Bol. cbn [at_bol start before].
  split.
  - intros H.
    destruct (run false _ _ _ _) as [[len caps]|] eqn:R; [|discriminate].
    clear H.
    rewrite run_Seq, run_exact in R.
    destruct (span_of _ _ _ =? n1) eqn:E1; [|discriminate].
    apply Nat.eqb_eq, span_of_exact_inv in E1 as (V1 & L1 & D1).
    cbn [ahead advance] in *.
    rewrite run_Seq, run_exact in R.
    destruct (span_of _ _ _ =? 1) eqn:E2; [|discriminate].
    apply Nat.eqb_eq, span_of_exact_inv in E2 as (V2 & L2 & D2).
    cbn [ahead advance] in *.
    rewrite run_Seq, run_exact in R.
    destruct (span_of _ _ _ =? n2) eqn:E3; [|discriminate].
    apply Nat.eqb_eq, span_of_exact_inv in E3 as (V3 & L3 & D3).
    cbn [ahead advance] in *.
    rewrite run_Seq, run_exact in R.
    destruct (span_of _ _ _ =? 1) eqn:E4; [|discriminate].
    apply Nat.eqb_eq, span_of_exact_inv in E4 as (V4 & L4 & D4).
    cbn [ahead advance] in *.
    rewrite run_Seq, run_exact in R.
    destruct (span_of _ _ _ =? n3) eqn:E5; [|discriminate].
    apply Nat.eqb_eq, span_of_exact_inv in E5 as (V5 & L5 & D5).
    cbn [ahead advance] in *. rewrite run_Eol in R.
    destruct (at_eol false _) eqn:End; [|discriminate].
    apply at_eol_plain in End. cbn [ahead] in End.
    apply one_chr in D2; [|exact L2]. apply one_chr in D4; [|exact L4].
    set (r1 := skipn n1 v) in *. set (r2 := skipn 1 r1) in *.
    set (r3 := skipn n2 r2) in *. set (r4 := skipn 1 r3) in *.
    exists (firstn n1 v), (firstn n2 r2), (firstn n3 r4), (skipn n3 r4).
    split.
    { rewrite V1 at 1. f_equal. rewrite V2 at 1. rewrite D2. f_equal.
      rewrite V3 at 1. f_equal. rewrite V4 at 1. rewrite D4. f_equal.
      exact V5. }
    repeat split; assumption.
  - intros (A & B & C & tail & -> & [LA DA] & [LB DB] & [LC DC] & T).
    assert (Skip : forall (g s : str) n, length g = n -> skipn n (g ++ s) = s).
    { intros g s n <-. rewrite skipn_app, skipn_all, Nat.sub_diag.
      reflexivity. }
    assert (One : forall a : ascii,
               forallb (in_cset (Class (OneOf [a]))) [a] = true).
    { intros a. cbn. now rewrite Ascii.eqb_refl. }
    assert (End : at_eol false
                    (advance n3 (advance 1 (advance n2 (advance 1
                      (advance n1 (start (A ++ [s1] ++ B ++ [s2] ++ C
                                            ++ tail)))))))
                  = true).
    { apply at_eol_plain. cbn [ahead advance start].
      rewrite !Skip by first [exact LA|exact LB|exact LC|reflexivity].
      exact T. }
    rewrite run_Seq, run_exact. cbn [ahead advance start].
    rewrite (span_of_exact (Class Digit) _ A _ LA DA), Nat.eqb_refl.
    rewrite run_Seq, run_exact. cbn [ahead advance start].
    rewrite !Skip by first [exact LA|exact LB|exact LC|reflexivity].
    rewrite (span_of_exact (Class (OneOf [s1])) 1 [s1] _ eq_refl (One s1)), Nat.eqb_refl.
    rewrite run_Seq, run_exact. cbn [ahead advance start].
    rewrite !Skip by first [exact LA|exact LB|exact LC|reflexivity].
    rewrite (span_of_exact (Class Digit) _ B _ LB DB), Nat.eqb_refl.
    rewrite run_Seq, run_exact. cbn [ahead advance start].
    rewrite !Skip by first [exact LA|exact LB|exact LC|reflexivity].
    rewrite (span_of_exact (Class (OneOf [s2])) 1 [s2] _ eq_refl (One s2)), Nat.eqb_refl.
    rewrite run_Seq, run_exact. cbn [ahead advance start].
    rewrite !Skip by first [exact LA|exact LB|exact LC|reflexivity].
    rewrite (span_of_exact (Class Digit) _ C _ LC DC), Nat.eqb_refl.
    rewrite run_Eol, End. reflexivity.
Qed.

Lemma validate_date_format_accepts (v : str) :
  validate_date_format v = Ret v
  <-> exists body,
      (v = body \/ v = body ++ [newline]) /\ date_layout body.
Proof.
  unfold validate_date_format, date_patterns. cbn [existsb].
  rewrite orb_false_r.
  split.
  - intros H.
    destruct (matches _ v) eqn:M1; cbn [orb negb] in H.
    { apply fixed_layout in M1
        as (A & B & C & tail & -> & DA & DB & DC & T).
      exists (dashed A B C). split.
      - unfold dashed. change (lit "-") with ["-"%char].
        destruct T as [->| ->]; [left|right];
          now rewrite <- ?app_assoc, ?app_nil_r.
      - exists A, B, C. left. auto. }
    destruct (matches _ v) eqn:M2 in H; cbn [orb negb] in H.
    { apply fixed_layout in M2
        as (A & B & C & tail & -> & DA & DB & DC & T).
      exists (slashed A B C). split.
      - unfold slashed. change (lit "/") with ["/"%char].
        destruct T as [->| ->]; [left|right];
          now rewrite <- ?app_assoc, ?app_nil_r.
      - exists A, B, C. right. left. auto. }
    destruct (matches _ v) eqn:M3 in H; cbn [negb] in H; [|discriminate].
    apply fixed_layout in M3
      as (A & B & C & tail & -> & DA & DB & DC & T).
    exists (dashed A B C). split.
    + unfold dashed. change (lit "-") with ["-"%char].
      destruct T as [->| ->]; [left|right];
        now rewrite <- ?app_assoc, ?app_nil_r.
    + exists A, B, C. right. right. auto.
  - intros (body & Hv & A & B & C & L).
    assert (T : exists tail, v = body ++ tail
                             /\ (tail = [] \/ tail = [newline])).
    { destruct Hv as [->| ->]; [exists []|exists [newline]];
        rewrite ?app_nil_r; auto. }
    destruct T as (tail & -> & T).
    destruct L as [(-> & DA & DB & DC)|[(-> & DA & DB & DC)
                                       |(-> & DA & DB & DC)]].
    + assert (M : matches (cat [Bol; digit 4 4; chr "-"; digit 2 2; chr "-";
                                digit 2 2; Eol])
                          (dashed A B C ++ tail) = true).
      { apply fixed_layout. exists A, B, C, tail.
        split; [|auto]. unfold dashed. change (lit "-") with ["-"%char].
        now rewrite <- !app_assoc. }
      now rewrite M.
    + assert (M : matches (cat [Bol; digit 2 2; chr "/"; digit 2 2; chr "/";
                                digit 4 4; Eol])
                          (slashed A B C ++ tail) = true).
      { apply fixed_layout. exists A, B, C, tail.
        split; [|auto]. unfold slashed. change (lit "/") with ["/"%char].
        now rewrite <- !app_assoc. }
      rewrite M. now rewrite orb_true_r.
    + assert (M : matches (cat [Bol; digit 2 2; chr "-"; digit 2 2; chr "-";
                                digit 4 4; Eol])
                          (dashed A B C ++ tail) = true).
      { apply fixed_layout. exists A, B, C, tail.
        split; [|auto]. unfold dashed. change (lit "-") with ["-"%char].
        now rewrite <- !app_assoc. }
      rewrite M. now rewrite !orb_true_r.
Qed.

End ValidatorFacts.

(** X8.  [validate_date_format] accepts exactly the texts that are four,
    two and two digits joined by hyphens, or two, two and four digits
    joined by slashes or by hyphens, and these texts followed by one
    newline (which [$] lets through); it returns an accepted text
    unchanged and raises [ValueError] on every other.  That the digits
    are a date of the calendar is not checked: 9999-99-99 passes. *)
Theorem validate_date_format_layouts (v : str) :
  (validate_date_format v = Ret v
   <-> exists body,
       (v = body \/ v = body ++ [newline]) /\ date_layout body)
  /\ (validate_date_format v = Ret v
      \/ exists msg, validate_date_format v = Raise (ValueError msg))
  /\ validate_date_format (lit "9999-99-99") = Ret (lit "9999-99-99").
Proof.
  split; [apply validate_date_format_accepts|].
  split; [|reflexivity].
  unfold validate_date_format. destruct (negb _); eauto.
Qed.

(** X9.  A date of ten characters that [extract_date] finds in a filename
    is a date that the summarization request accepts: what the
    transcription step detects can be sent on as the meeting date. *)
Theorem detected_date_is_accepted (year_padded : bool)
        (filename : option str) (date : str) :
  extract_date year_padded filename = Ret (Some date) ->
  length date = 10 ->
  validate_date_format date = Ret date.
Proof.
  intros E L.
  apply extract_date_valid in E as (y & m & d & V & ->).
  destruct (strftime_ten year_padded y m d V L)
    as (Y & M & D & Eq & DY & DM & DD & _).
  rewrite Eq. apply validate_date_format_accepts.
  exists (dashed Y M D). split; [now left|].
  exists Y, M, D. left. auto.
Qed.

Lemma detected_date_is_accepted_witness :
  extract_date false (Some (lit "27 October 2023 standup.mp3"))
  = Ret (Some (lit "2023-10-27"))
  /\ length (lit "2023-10-27") = 10
  /\ validate_date_format (lit "2023-10-27") = Ret (lit "2023-10-27").
Proof.
  assert (E : extract_date false (Some (lit "27 October 2023 standup.mp3"))
              = Ret (Some (lit "2023-10-27"))) by (vm_compute; reflexivity).
  split; [exact E|]. split; [reflexivity|].
  exact (detected_date_is_accepted
           false (Some (lit "27 October 2023 standup.mp3"))
           (lit "2023-10-27") E eq_refl).
Defined.

(* ================================================================== *)
(** * The order of strings and [sorted] *)
(* ================================================================== *)

Section OrderFacts.

Lemma str_ltb_irrefl (s : str) : str_ltb s s = false.
Proof.
  induction s as [|a s IH]; [reflexivity|].
  cbn [str_ltb]. now rewrite Nat.ltb_irrefl.
Qed.

Lemma str_ltb_trans (s : str) :
  forall t u, str_ltb s t = true -> str_ltb t u = true -> str_ltb s u = true.
Proof.
  induction s as [|a s IH]; intros [|b t] [|c u] H1 H2;
    cbn [str_ltb] in *; try discriminate; try reflexivity.
  repeat match goal with
         | H : context [?x <? ?y] |- _ => destruct (Nat.ltb_spec x y)
         | |- context [?x <? ?y] => destruct (Nat.ltb_spec x y)
         end;
    try discriminate; try reflexivity; try lia.
  eapply IH; eassumption.
Qed.

Lemma nat_of_ascii_inj (a b : ascii) :
  nat_of_ascii a = nat_of_ascii b -> a = b.
Proof.
  intros E. rewrite <- (ascii_nat_embedding a), <- (ascii_nat_embedding b).
  now rewrite E.
Qed.

Lemma str_ltb_total (s : str) :
  forall t, s <> t -> str_ltb s t = false -> str_ltb t s = true.
Proof.
  induction s as [|a s IH]; intros [|b t] N H; cbn [str_ltb] in *;
    try reflexivity; try discriminate; try congruence.
  destruct (Nat.ltb_spec (nat_of_ascii a) (nat_of_ascii b)) as [ab|ab];
    [discriminate|].
  destruct (Nat.ltb_spec (nat_of_ascii b) (nat_of_ascii a)) as [ba|ba];
    [reflexivity|].
  assert (a = b) by (apply nat_of_ascii_inj; lia). subst b.
  apply IH; [congruence|exact H].
Qed.

Lemma str_eqb_true (s t : str) : str_eqb s t = true <-> s = t.
Proof.
  unfold str_eqb. destruct (list_eq_dec ascii_dec s t); split;
    congruence.
Qed.

Lemma In_insert_sorted (x y : str) (l : list str) :
  In y (insert_sorted x l) <-> y = x \/ In y l.
Proof.
  induction l as [|z l IH]; cbn [insert_sorted].
  - cbn. intuition congruence.
  - destruct (str_ltb z x); cbn [In]; [rewrite IH|]; intuition congruence.
Qed.

Lemma In_sorted (y : str) (l : list str) : In y (sorted l) <-> In y l.
Proof.
  induction l as [|x l IH]; [reflexivity|].
  cbn [sorted fold_right]. fold (sorted l).
  rewrite In_insert_sorted, IH. cbn. intuition congruence.
Qed.

Lemma HdRel_insert_sorted (y x : str) (l : list str) :
  HdRel str_lt y l -> str_lt y x -> HdRel str_lt y (insert_sorted x l).
Proof.
  intros H L. destruct l as [|z l]; cbn [insert_sorted].
  - now constructor.
  - destruct (str_ltb z x); constructor; [|exact L].
    now inversion H.
Qed.

Lemma Sorted_insert_sorted (x : str) (l : list str) :
  Sorted str_lt l -> ~ In x l -> Sorted str_lt (insert_sorted x l).
Proof.
  induction 1 as [|y l S IH H]; intros N; cbn [insert_sorted].
  - repeat constructor.
  - destruct (str_ltb y x) eqn:E.
    + constructor.
      * apply IH. intros I. apply N. now right.
      * apply HdRel_insert_sorted; assumption.
    + constructor; [now constructor|]. constructor.
      apply str_ltb_total; [|exact E].
      intros ->. apply N. now left.
Qed.

Lemma NoDup_sorted (l : list str) : NoDup l -> NoDup (sorted l).
Proof.
  induction 1 as [|x l N D IH]; cbn [sorted fold_right]; [constructor|].
  fold (sorted l).
  assert (N' : ~ In x (sorted l)) by now rewrite In_sorted.
  revert IH N'. generalize (sorted l) as m.
  induction m as [|y m IHm]; intros D' N'; cbn [insert_sorted].
  - repeat constructor. intros [].
  - inversion D' as [|? ? Ny Dm]; subst.
    destruct (str_ltb y x).
    + constructor.
      * rewrite In_insert_sorted. intros [->|I]; [|contradiction].
        apply N'. now left.
      * apply IHm; [exact Dm|]. intros I. apply N'. now right.
    + constructor; assumption.
Qed.

Lemma Sorted_sorted (l : list str) : NoDup l -> Sorted str_lt (sorted l).
Proof.
  induction 1 as [|x l N D IH]; cbn [sorted fold_right]; [constructor|].
  fold (sorted l). apply Sorted_insert_sorted; [exact IH|].
  now rewrite In_sorted.
Qed.

Lemma NoDup_set_add (x : str) (members : list str) :
  NoDup members -> NoDup (set_add x members).
Proof.
  intros D. unfold set_add.
  destruct (existsb (str_eqb x) members) eqn:E; [exact D|].
  assert (N : ~ In x members).
  { intros I.
    assert (T : existsb (str_eqb x) members = true).
    { apply existsb_exists. exists x. split; [exact I|].
      now apply str_eqb_true. }
    congruence. }
  clear E. induction D as [|y l Ny D IH]; cbn [app].
  - repeat constructor. intros [].
  - constructor.
    + rewrite in_app_iff. intros [I|[->|[]]]; [contradiction|].
      apply N. now left.
    + apply IH. intros I. apply N. now right.
Qed.

Lemma In_set_add (x y : str) (members : list str) :
  In y (set_add x members) -> y = x \/ In y members.
Proof.
  unfold set_add. destruct (existsb (str_eqb x) members); [now right|].
  rewrite in_app_iff. cbn. intuition congruence.
Qed.

End OrderFacts.

(* ================================================================== *)
(** * The speakers of a transcript *)
(* ================================================================== *)

Section SpeakerFacts.

Lemma run_Cap {R} (ml : bool) (r : rx) (c : cursor) (caps : list str)
      (k : cursor -> list str -> option R) :
  run ml (Cap r) c caps k
  = run ml r c caps
        (fun c' caps' =>
           k c' (caps' ++ [firstn (offset c' - offset c) (ahead c)])).
Proof. reflexivity. Qed.

Lemma backtrack_first {A} (lo k : nat) (try : nat -> option A) (x : A) :
  lo <= k -> try k = Some x -> backtrack lo k try = Some x.
Proof.
  intros L T. destruct k; cbn [backtrack].
  - assert (lo = 0) by lia. subst. cbn. now rewrite T.
  - destruct (Nat.ltb_spec (S k) lo); [lia|]. now rewrite T.
Qed.

Lemma collect_speakers_In (name : str) (found : list str) :
  forall speakers,
    In name (collect_speakers found speakers) ->
    In name speakers
    \/ (In name found /\ rmatch timestamp_pattern name = None).
Proof.
  induction found as [|m found IH]; intros speakers H;
    cbn [collect_speakers] in H; [now left|].
  destruct (rmatch timestamp_pattern m) eqn:T.
  - apply IH in H as [H|[H N]]; [now left|]. right. split; [now right|exact N].
  - apply IH in H as [H|[H N]].
    + apply In_set_add in H as [->|H]; [|now left].
      right. split; [now left|exact T].
    + right. split; [now right|exact N].
Qed.

Lemma collect_speakers_NoDup (found : list str) :
  forall speakers, NoDup speakers -> NoDup (collect_speakers found speakers).
Proof.
  induction found as [|m found IH]; intros speakers D;
    cbn [collect_speakers]; [exact D|].
  destruct (rmatch timestamp_pattern m); apply IH; [exact D|].
  now apply NoDup_set_add.
Qed.

(** What a match of the speaker pattern looks like: an opening bracket,
    the name, which is the group, and a closing bracket. *)
Lemma speaker_match (p : option ascii) (rest : str) (len : nat)
      (caps : list str) :
  match_at false speaker_pattern
           {| before := p; ahead := rest; offset := 0 |} = Some (len, caps) ->
  exists name post,
    caps = [name] /\ name <> []
    /\ forallb (in_cset (Except ["]"%char])) name = true
    /\ rest = lit "[" ++ name ++ lit "]" ++ post.
Proof.
  unfold match_at, speaker_pattern, chr, digit. cbn [cat]. intros M.
  rewrite run_Seq, run_exact in M.
  destruct (span_of _ _ _ =? 1) eqn:E1; [|discriminate].
  apply Nat.eqb_eq, span_of_exact_inv in E1 as (V1 & L1 & D1).
  apply one_chr in D1; [|exact L1].
  cbn [ahead advance] in *.
  rewrite run_Seq, run_Cap in M.
  apply run_Rep in M as (n & Hn & Hlen & Hall & M).
  cbn [ahead advance offset] in *.
  rewrite run_Seq, run_exact in M.
  destruct (span_of _ _ _ =? 1) eqn:E2; [|discriminate].
  apply Nat.eqb_eq, span_of_exact_inv in E2 as (V2 & L2 & D2).
  apply one_chr in D2; [|exact L2].
  cbn [ahead advance] in *.
  apply run_no_cap in M as (c' & M); [|reflexivity].
  injection M as _ <-.
  set (r1 := skipn 1 rest) in *.
  exists (firstn n r1), (skipn 1 (skipn n r1)).
  split.
  { unfold r1. cbn [skipn app]. f_equal. f_equal. lia. }
  split.
  { intros E. apply (f_equal (@length _)) in E.
    rewrite firstn_length_le in E by exact Hlen. cbn in E. lia. }
  split; [exact Hall|].
  rewrite V1 at 1. rewrite D1. change (lit "[") with ["["%char].
  f_equal. rewrite <- (firstn_skipn n r1) at 1. f_equal.
  rewrite V2 at 1. rewrite D2. reflexivity.
Qed.

Lemma no_bracket (name : str) :
  forallb (in_cset (Except ["]"%char])) name = true -> ~ In "]"%char name.
Proof.
  intros H I. rewrite forallb_forall in H. apply H in I. discriminate.
Qed.

(** Two digits, a colon and two digits, or one digit, a colon and two
    digits, are a timestamp. *)
Lemma timestamp_matches (H M : str) :
  digits 1 H \/ digits 2 H -> digits 2 M ->
  rmatch timestamp_pattern (H ++ lit ":" ++ M) <> None.
Proof.
  intros DH [LM DM].
  assert (Tail : forall (b : option ascii) (o : nat),
             run false (cat [chr ":"; digit 2 2; Eol])
                 {| before := b; ahead := lit ":" ++ M; offset := o |} []
                 (fun c' caps => Some (offset c' - 0, caps))
             <> None).
  { intros b o. unfold chr, digit. cbn [cat].
    rewrite run_Seq, run_exact. cbn [ahead].
    change (lit ":" ++ M) with ([":"%char] ++ M).
    rewrite (span_of_exact (Class (OneOf [":"%char])) 1 [":"%char] M
                           eq_refl eq_refl).
    cbn [Nat.eqb]. rewrite run_Seq, run_exact. cbn [ahead advance app skipn].
    rewrite <- (app_nil_r M) at 1.
    rewrite (span_of_exact (Class Digit) 2 M [] LM DM), Nat.eqb_refl.
    rewrite run_Eol, (proj2 (at_eol_plain _)); [discriminate|].
    left. cbn [ahead advance app skipn].
    destruct M as [|? [|? [|? ?]]]; try discriminate. reflexivity. }
  unfold rmatch, match_at, timestamp_pattern.
  change (cat [Bol; digit 1 2; chr ":"; digit 2 2; Eol])
    with (Seq Bol (Seq (digit 1 2) (cat [chr ":"; digit 2 2; Eol]))).
  rewrite run_Seq, run_Bol. cbn [at_bol start before].
  rewrite run_Seq. unfold digit at 1. cbn [run].
  cbn [offset start ahead].
  assert (Sp : span_of (Class Digit) (Some 2) (H ++ lit ":" ++ M)
               = length H).
  { destruct DH as [[L D]|[L D]].
    - destruct H as [|h [|? ?]]; try discriminate.
      cbn in D. rewrite andb_true_r in D.
      cbn [app span_of in_cset in_class option_map pred]. rewrite D.
      reflexivity.
    - rewrite <- L at 1. apply span_of_exact; [reflexivity|].
      rewrite <- D. reflexivity. }
  rewrite Sp.
  assert (C : advance (length H)
                      {| before := None; ahead := H ++ lit ":" ++ M;
                         offset := 0 |}
              = {| before := match length H with
                             | O => None
                             | S m => nth_error (H ++ lit ":" ++ M) m
                             end;
                   ahead := lit ":" ++ M; offset := 0 + length H |}).
  { unfold advance. cbn [ahead before offset]. f_equal.
    rewrite skipn_app, skipn_all, Nat.sub_diag. reflexivity. }
  match goal with
  | |- context [backtrack ?lo ?k ?try] =>
    destruct (try (length H)) as [x|] eqn:T;
      [assert (B : backtrack lo k try = Some x)|]
  end.
  - apply backtrack_first; [|exact T].
    destruct DH as [[L D]|[L D]]; lia.
  - rewrite B. destruct x. discriminate.
  - exfalso. cbn beta in T. unfold start in T. rewrite C in T.
    revert T. apply Tail.
Qed.

End SpeakerFacts.

(** X10.  [extract_speakers] returns the names in increasing order of
    strings, each once.  Every name it returns stands in square brackets
    in the transcript, is not empty, holds no closing bracket and is not
    a timestamp: a bracketed [H:MM] or [HH:MM] is never reported as a
    speaker. *)
Theorem extract_speakers_sound (transcript : str) :
  Sorted str_lt (extract_speakers transcript)
  /\ NoDup (extract_speakers transcript)
  /\ (forall name,
         In name (extract_speakers transcript) ->
         name <> [] /\ ~ In "]"%char name
         /\ rmatch timestamp_pattern name = None
         /\ exists pre post,
             transcript = pre ++ lit "[" ++ name ++ lit "]" ++ post)
  /\ (forall H M,
         digits 1 H \/ digits 2 H -> digits 2 M ->
         ~ In (H ++ lit ":" ++ M) (extract_speakers transcript)).
Proof.
  unfold extract_speakers.
  set (found := findall false speaker_pattern transcript).
  assert (D : NoDup (collect_speakers found []))
    by (apply collect_speakers_NoDup; constructor).
  assert (S : forall name,
             In name (sorted (collect_speakers found [])) ->
             In name found /\ rmatch timestamp_pattern name = None).
  { intros name I. apply In_sorted, collect_speakers_In in I as [[]|I].
    exact I. }
  split; [now apply Sorted_sorted|].
  split; [now apply NoDup_sorted|].
  split.
  - intros name I. apply S in I as [I T].
    apply findall_In in I as (pre & rest & len & caps & E & G & M).
    apply speaker_match in M as (name' & post & -> & N & B & ->).
    cbn [hd] in G. subst name'.
    split; [exact N|]. split; [now apply no_bracket|].
    split; [exact T|]. now exists pre, post.
  - intros H M DH DM I. apply S in I as [_ T].
    now apply (timestamp_matches H M DH DM).
Qed.

(* ================================================================== *)
(** * The headings of a summary *)
(* ================================================================== *)

Section SectionFacts.

Lemma prev_char_None (pre : str) : prev_char None pre = None -> pre = [].
Proof.
  unfold prev_char. destruct pre as [|a pre] using rev_ind; [reflexivity|].
  rewrite map_app. cbn [map]. rewrite last_last. discriminate.
Qed.

Lemma prev_char_Some (pre : str) (a : ascii) :
  prev_char None pre = Some a -> exists pre', pre = pre' ++ [a].
Proof.
  unfold prev_char. destruct pre as [|b pre] using rev_ind; [discriminate|].
  rewrite map_app. cbn [map]. rewrite last_last. intros E. inversion E. eauto.
Qed.

Lemma is_newline_true (a : ascii) : is_newline a = true <-> a = newline.
Proof. unfold is_newline, newline. apply Ascii.eqb_eq. Qed.

Lemma no_newline (title : str) :
  forallb (in_cset not_newline) title = true -> ~ In newline title.
Proof.
  intros H I. rewrite forallb_forall in H. apply H in I. discriminate.
Qed.

Lemma no_newline_inv (title : str) :
  ~ In newline title -> forallb (in_cset not_newline) title = true.
Proof.
  intros N. apply forallb_forall. intros a I.
  unfold not_newline. cbn [in_cset existsb]. rewrite orb_false_r.
  destruct (Ascii.eqb a "010") eqn:E; [|reflexivity].
  apply Ascii.eqb_eq in E. subst a. contradiction.
Qed.

(** What a match of the heading pattern looks like. *)
Lemma section_match (p : option ascii) (rest : str) (len : nat)
      (caps : list str) :
  match_at true section_pattern
           {| before := p; ahead := rest; offset := 0 |} = Some (len, caps) ->
  (p = None \/ p = Some newline)
  /\ exists ws title post,
      caps = [title]
      /\ rest = lit "##" ++ ws ++ title ++ post
      /\ ws <> [] /\ forallb is_space ws = true
      /\ title <> [] /\ forallb (in_cset not_newline) title = true
      /\ (post = [] \/ exists post', post = newline :: post').
Proof.
  unfold match_at, section_pattern, chr. cbn [cat]. intros M.
  rewrite run_Seq, run_Bol in M. unfold at_bol in M. cbn [before] in M.
  assert (P : p = None \/ p = Some newline).
  { destruct p as [a|]; [|now left]. right.
    cbn [andb] in M. destruct (is_newline a) eqn:E; [|discriminate].
    apply is_newline_true in E. now subst. }
  split; [exact P|].
  assert (M' : run true
                   (Seq (Rep (Class (OneOf ["#"%char])) 1 (Some 1))
                        (Seq (Rep (Class (OneOf ["#"%char])) 1 (Some 1))
                             (Seq (Rep (Class Space) 1 None)
                                  (Seq (Cap (Rep not_newline 1 None)) Eol))))
                   {| before := p; ahead := rest; offset := 0 |} []
                   (fun c' caps0 => Some (offset c' - 0, caps0))
               = Some (len, caps)).
  { destruct P as [->| ->]; exact M. }
  clear M. rename M' into M.
  rewrite run_Seq, run_exact in M.
  destruct (span_of _ _ _ =? 1) eqn:E1; [|discriminate].
  apply Nat.eqb_eq, span_of_exact_inv in E1 as (V1 & L1 & D1).
  apply one_chr in D1; [|exact L1].
  cbn [ahead advance] in *.
  rewrite run_Seq, run_exact in M.
  destruct (span_of _ _ _ =? 1) eqn:E2; [|discriminate].
  apply Nat.eqb_eq, span_of_exact_inv in E2 as (V2 & L2 & D2).
  apply one_chr in D2; [|exact L2].
  cbn [ahead advance] in *.
  rewrite run_Seq in M.
  apply run_Rep in M as (n & Hn & Hlen & Hall & M).
  cbn [ahead advance] in *.
  rewrite run_Seq, run_Cap in M.
  apply run_Rep in M as (m & Hm & Hmlen & Hmall & M).
  cbn [ahead advance offset] in *.
  rewrite run_Eol in M.
  destruct (at_eol true _) eqn:End; [|discriminate].
  injection M as _ <-.
  set (r1 := skipn 1 rest) in *. set (r2 := skipn 1 r1) in *.
  set (r3 := skipn n r2) in *.
  exists (firstn n r2), (firstn m r3), (skipn m r3).
  split.
  { cbn [app]. f_equal. f_equal. lia. }
  split.
  { rewrite V1 at 1. rewrite D1. fold r1. rewrite V2 at 1. rewrite D2.
    fold r2. change (lit "##") with (["#"%char] ++ ["#"%char]).
    rewrite <- !app_assoc. f_equal. f_equal.
    rewrite <- (firstn_skipn n r2) at 1. f_equal. fold r3.
    symmetry. apply firstn_skipn. }
  split.
  { intros E. apply (f_equal (@length _)) in E.
    rewrite firstn_length_le in E by exact Hlen. cbn in E. lia. }
  split; [exact Hall|].
  split.
  { intros E. apply (f_equal (@length _)) in E.
    rewrite firstn_length_le in E by exact Hmlen. cbn in E. lia. }
  split; [exact Hmall|].
  unfold at_eol in End. cbn [ahead advance] in End. fold r1 r2 r3 in End.
  destruct (skipn m r3) as [|a post']; [now left|]. right.
  destruct (is_newline a) eqn:N; [|cbn in End; discriminate].
  apply is_newline_true in N. subst a. eauto.
Qed.

(** A scan that is still inside a match to the end of the text finds
    nothing more, unless a match begins at the end. *)
Lemma scan_skip_all (ml : bool) (r : rx) :
  forall (s : str) (prev : option ascii),
    scan ml r prev s (length s)
    = scan ml r (prev_char prev s) [] 0.
Proof.
  induction s as [|a s IH]; intros prev; [reflexivity|].
  cbn [length scan]. rewrite IH.
  replace (prev_char prev (a :: s)) with (prev_char (Some a) s);
    [reflexivity|].
  unfold prev_char. cbn [map]. symmetry. apply last_cons_default.
Qed.

Lemma span_of_all (cs : cset) (s : str) :
  forallb (in_cset cs) s = true -> span_of cs None s = length s.
Proof.
  induction s as [|a s IH]; [reflexivity|].
  cbn [forallb span_of length option_map]. intros H.
  apply andb_true_iff in H as [Ha H]. rewrite Ha. now rewrite IH.
Qed.

End SectionFacts.

(** X11.  Every heading that [extract_sections] returns is not empty,
    holds no newline, and stands in the text after [##] at the beginning
    of a line and after white space, up to the end of its line. *)
Theorem extract_sections_sound (markdown title : str) :
  In title (extract_sections markdown) ->
  title <> [] /\ ~ In newline title
  /\ exists pre ws post,
      markdown = pre ++ lit "##" ++ ws ++ title ++ post
      /\ (pre = [] \/ exists pre', pre = pre' ++ [newline])
      /\ ws <> [] /\ forallb is_space ws = true
      /\ (post = [] \/ exists post', post = newline :: post').
Proof.
  unfold extract_sections. intros I.
  apply findall_In in I as (pre & rest & len & caps & E & G & M).
  apply section_match in M
    as (P & ws & title' & post & -> & -> & W & Ws & T & Tn & Post).
  cbn [hd] in G. subst title'.
  split; [exact T|]. split; [now apply no_newline|].
  exists pre, ws, post. split; [exact E|]. split.
  - destruct P as [P|P].
    + left. now apply prev_char_None.
    + right. now apply prev_char_Some.
  - auto.
Qed.

Lemma extract_sections_sound_witness :
  In (lit "Action Items")
     (extract_sections
        (lit "# Notes" ++ [newline] ++ lit "## Action Items" ++ [newline]
             ++ lit "- send the minutes"))
  /\ lit "Action Items" <> [].
Proof.
  assert (I : In (lit "Action Items")
                 (extract_sections
                    (lit "# Notes" ++ [newline] ++ lit "## Action Items"
                         ++ [newline] ++ lit "- send the minutes")))
    by (vm_compute; left; reflexivity).
  split; [exact I|].
  exact (proj1 (extract_sections_sound _ _ I)).
Defined.

Section HeadingFacts.

Lemma run_Rep_eq {R} (ml : bool) (cs : cset) (lo : nat) (hi : option nat)
      (c : cursor) (caps : list str) (k : cursor -> list str -> option R) :
  run ml (Rep cs lo hi) c caps k
  = backtrack lo (span_of cs hi (ahead c)) (fun n => k (advance n c) caps).
Proof. reflexivity. Qed.

(** A repetition without upper bound stops at the first character that
    is not of its class. *)
Lemma span_of_stop (cs : cset) (g : str) (a : ascii) (s : str) :
  forallb (in_cset cs) g = true -> in_cset cs a = false ->
  span_of cs None (g ++ a :: s) = length g.
Proof.
  intros G A. induction g as [|b g IH]; cbn [app span_of length option_map].
  - now rewrite A.
  - cbn [forallb] in G. apply andb_true_iff in G as [Hb G].
    rewrite Hb. now rewrite IH.
Qed.

Lemma skipn_length_app (g s : str) : skipn (length g) (g ++ s) = s.
Proof. now rewrite skipn_app, skipn_all, Nat.sub_diag. Qed.

(** The heading pattern on [##], white space and a line of text that
    ends the text. *)
Lemma section_match_last_line (ws : str) (a : ascii) (t : str) :
  ws <> [] -> forallb is_space ws = true ->
  is_space a = false -> ~ In newline (a :: t) ->
  match_at true section_pattern
           {| before := None; ahead := lit "##" ++ ws ++ a :: t;
              offset := 0 |}
  = Some (2 + length ws + length (a :: t), [a :: t]).
Proof.
  intros W Ws A N.
  assert (Lw : 1 <= length ws) by (destruct ws; [congruence|cbn; lia]).
  apply no_newline_inv in N.
  unfold match_at, section_pattern, chr. cbn [cat].
  rewrite run_Seq, run_Bol. cbn [at_bol before].
  change (lit "##" ++ ws ++ a :: t)
    with (["#"%char] ++ ["#"%char] ++ ws ++ a :: t).
  rewrite run_Seq, run_exact. cbn [ahead].
  rewrite (span_of_exact (Class (OneOf ["#"%char])) 1 ["#"%char] _
                         eq_refl eq_refl).
  cbn [Nat.eqb]. rewrite run_Seq, run_exact. cbn [ahead advance app skipn].
  change ("#"%char :: ws ++ a :: t) with (["#"%char] ++ ws ++ a :: t).
  rewrite (span_of_exact (Class (OneOf ["#"%char])) 1 ["#"%char] _
                         eq_refl eq_refl).
  cbn [Nat.eqb]. rewrite run_Seq, run_Rep_eq.
  cbn [ahead advance app skipn].
  rewrite (span_of_stop (Class Space) ws a t Ws A).
  apply backtrack_first; [exact Lw|].
  rewrite run_Seq, run_Cap, run_Rep_eq.
  cbn [ahead advance app skipn]. rewrite skipn_length_app.
  rewrite <- (app_nil_r (a :: t)) at 1.
  assert (Sp : span_of not_newline None ((a :: t) ++ []) = length (a :: t)).
  { rewrite app_nil_r. now apply span_of_all. }
  rewrite Sp.
  apply backtrack_first; [cbn; lia|].
  rewrite run_Eol. unfold at_eol. cbn [ahead advance app skipn].
  rewrite skipn_length_app.
  replace (skipn (length (a :: t)) (a :: t)) with (@nil ascii)
    by (symmetry; apply skipn_all).
  cbn [offset advance ahead app skipn].
  assert (E1 : forall w m, 0 + 1 + 1 + w + m - 0 = 2 + w + m)
    by (intros; lia).
  assert (E2 : forall w m, 0 + 1 + 1 + w + m - (0 + 1 + 1 + w) = m)
    by (intros; lia).
  rewrite E1, E2, firstn_all. reflexivity.
Qed.

Lemma scan_cons (ml : bool) (r : rx) (prev : option ascii) (a : ascii)
      (s : str) :
  scan ml r prev (a :: s) 0
  = match match_at ml r {| before := prev; ahead := a :: s; offset := 0 |}
    with
    | Some (len, caps) => caps :: scan ml r (Some a) s (pred len)
    | None => scan ml r (Some a) s 0
    end.
Proof. reflexivity. Qed.

Lemma scan_nil (ml : bool) (r : rx) (prev : option ascii) :
  scan ml r prev [] 0
  = match match_at ml r {| before := prev; ahead := []; offset := 0 |}
    with
    | Some (len, caps) => [caps]
    | None => []
    end.
Proof. reflexivity. Qed.

End HeadingFacts.

(** X12.  The white space after [##] may hold newlines: when [##] is
    followed by white space of any kind and then by one line of text that
    ends the summary, that line is returned as a heading, also when it
    stands on a later line than [##]. *)
Theorem heading_after_any_white_space (ws : str) (a : ascii) (t : str) :
  ws <> [] -> forallb is_space ws = true ->
  is_space a = false -> ~ In newline (a :: t) ->
  extract_sections (lit "##" ++ ws ++ a :: t) = [a :: t].
Proof.
  intros W Ws A N. unfold extract_sections, findall.
  change (lit "##" ++ ws ++ a :: t)
    with ("#"%char :: "#"%char :: ws ++ a :: t).
  rewrite scan_cons.
  change ("#"%char :: "#"%char :: ws ++ a :: t)
    with (lit "##" ++ ws ++ a :: t).
  rewrite (section_match_last_line ws a t W Ws A N).
  replace (pred (2 + length ws + length (a :: t)))
    with (length ("#"%char :: ws ++ a :: t))
    by (cbn [length]; rewrite length_app; cbn [length]; lia).
  rewrite scan_skip_all, scan_nil.
  assert (L : exists b, prev_char (Some "#"%char) ("#"%char :: ws ++ a :: t)
                        = Some b /\ is_newline b = false).
  { destruct (@exists_last _ (a :: t)) as (l & z & E); [discriminate|].
    exists z. rewrite E. split.
    - replace ("#"%char :: ws ++ l ++ [z])
        with (("#"%char :: ws ++ l) ++ [z])
        by (cbn [app]; now rewrite <- app_assoc).
      unfold prev_char. rewrite map_app. cbn [map]. apply last_last.
    - destruct (is_newline z) eqn:Z; [|reflexivity].
      apply is_newline_true in Z. subst z. exfalso. apply N.
      rewrite E. apply in_or_app. right. now left. }
  destruct L as (b & -> & Hb).
  unfold match_at, section_pattern. cbn [cat].
  rewrite run_Seq, run_Bol. unfold at_bol. cbn [before andb].
  rewrite Hb. reflexivity.
Qed.

Lemma heading_after_any_white_space_witness :
  extract_sections (lit "##" ++ [newline] ++ lit "Decisions")
  = [lit "Decisions"].
Proof.
  apply (heading_after_any_white_space [newline] "D"%char (lit "ecisions")).
  - discriminate.
  - reflexivity.
  - reflexivity.
  - vm_compute. intuition discriminate.
Defined.

(* ================================================================== *)
(** * The report of changes of a refinement *)
(* ================================================================== *)

Section ChangeFacts.

(** A text that holds [sub] counts at least one occurrence of it. *)
Lemma contains_count (sub : str) :
  forall s, contains sub s = true -> 1 <= count s sub.
Proof.
  unfold count. induction s as [|a s IH]; cbn [contains count_from]; intros H.
  - rewrite orb_false_r in H. rewrite H. lia.
  - destruct (starts_with sub (a :: s)); [lia|].
    cbn [orb] in H. now apply IH.
Qed.

Lemma occurrences_positive (original placeholder : str) :
  contains placeholder original = true ->
  1 <= occurrences original placeholder.
Proof.
  intros H. unfold occurrences.
  destruct (Nat.eqb_spec (count original (lit "[" ++ placeholder ++ lit "]")) 0);
    [now apply contains_count|lia].
Qed.

Lemma replacements_filter (original refined : str)
      (mapping : list (str * str)) :
  replacements original refined mapping
  = map (fun item => replaced_message (fst item) (snd item)
                                      (occurrences original (fst item)))
        (filter (replaced original refined) mapping).
Proof.
  induction mapping as [|[placeholder real_name] mapping IH];
    [reflexivity|].
  cbn [replacements filter]. unfold replaced at 1. cbn [fst snd].
  destruct (contains placeholder original) eqn:C; cbn [andb];
    [|now rewrite IH].
  destruct (contains real_name refined); [|now rewrite IH].
  fold (occurrences original placeholder).
  pose proof (occurrences_positive original placeholder C) as P.
  destruct (Nat.ltb_spec 0 (occurrences original placeholder)); [|lia].
  cbn [map app fst snd]. now rewrite IH.
Qed.

Lemma replaced_message_head (placeholder real_name : str) (n : nat) :
  exists tail, replaced_message placeholder real_name n = "R"%char :: tail.
Proof. unfold replaced_message. cbn. eauto. Qed.

Lemma replacements_head (original refined : str)
      (mapping : list (str * str)) (message : str) :
  In message (replacements original refined mapping) ->
  exists tail, message = "R"%char :: tail.
Proof.
  rewrite replacements_filter. intros I.
  apply in_map_iff in I as (item & <- & _). apply replaced_message_head.
Qed.

End ChangeFacts.

(** X13.  The report of [detect_changes] holds one message for each item
    of the mapping whose placeholder occurs in the original text and whose
    name occurs in the refined text, in the order of the mapping, with a
    count of at least one: the test that the count is positive never
    fails.  The report is never empty, has at most one message more than
    the mapping has items, and says that no changes were necessary exactly
    when the two texts are equal up to white space around them. *)
Theorem detect_changes_report (original refined : str)
        (mapping : list (str * str)) :
  let messages :=
      map (fun item => replaced_message (fst item) (snd item)
                                        (occurrences original (fst item)))
          (filter (replaced original refined) mapping) in
  let report := detect_changes original refined mapping in
  (forall item, In item mapping -> replaced original refined item = true ->
                1 <= occurrences original (fst item))
  /\ (strip original = strip refined ->
      report = messages ++ [lit "No changes were necessary"])
  /\ (strip original <> strip refined -> messages <> [] ->
      report = messages)
  /\ (strip original <> strip refined -> messages = [] ->
      report = [lit "Speaker names updated and grammar adjusted"])
  /\ report <> []
  /\ length report <= S (length mapping)
  /\ (In (lit "No changes were necessary") report
      <-> strip original = strip refined).
Proof.
  intros messages report.
  assert (R : replacements original refined mapping = messages)
    by apply replacements_filter.
  assert (Len : length messages <= length mapping).
  { unfold messages. rewrite length_map. apply filter_length_le. }
  assert (Head : forall m, In m messages -> exists tail, m = "R"%char :: tail).
  { intros m. rewrite <- R. apply replacements_head. }
  assert (Eq : strip original = strip refined ->
               report = messages ++ [lit "No changes were necessary"]).
  { intros E. unfold report, detect_changes. rewrite R.
    apply str_eqb_true in E. now rewrite E. }
  assert (Ne : strip original <> strip refined ->
               report = match messages with
                        | [] => [lit "Speaker names updated and grammar adjusted"]
                        | _ => messages
                        end).
  { intros E. unfold report, detect_changes. rewrite R.
    destruct (str_eqb (strip original) (strip refined)) eqn:B; [|reflexivity].
    apply str_eqb_true in B. contradiction. }
  split.
  { intros item _ H. apply occurrences_positive.
    unfold replaced in H. now apply andb_true_iff in H as [H _]. }
  split; [exact Eq|].
  split.
  { intros E M. rewrite (Ne E). destruct messages; congruence. }
  split.
  { intros E M. rewrite (Ne E). now rewrite M. }
  destruct (list_eq_dec ascii_dec (strip original) (strip refined)) as [E|E].
  - rewrite (Eq E). split; [now destruct messages|].
    split; [rewrite length_app; cbn [length]; lia|].
    split; [auto|]. intros _. apply in_or_app. right. now left.
  - rewrite (Ne E). split; [now destruct messages|].
    split; [destruct messages; cbn [length] in *; lia|].
    split; [|contradiction].
    intros I. exfalso. destruct messages as [|m ms] eqn:M.
    + destruct I as [I|[]]. discriminate.
    + apply Head in I as (tail & T). discriminate.
Qed.

(* ================================================================== *)
(** * The validator of the speaker mapping *)
(* ================================================================== *)

Section MappingFacts.

Lemma lstrip_nil (s : str) : lstrip s = [] <-> forallb is_space s = true.
Proof.
  induction s as [|a s IH]; cbn [lstrip forallb]; [tauto|].
  destruct (is_space a); cbn [andb]; [exact IH|].
  split; discriminate.
Qed.

Lemma lstrip_blank_head (s : str) (a : ascii) (r : str) :
  lstrip s = a :: r -> is_space a = false.
Proof.
  induction s as [|b s IH]; cbn [lstrip]; [discriminate|].
  destruct (is_space b) eqn:B; [exact IH|].
  intros E. inversion E; subst. exact B.
Qed.

Lemma forallb_rev {A} (f : A -> bool) (l : list A) :
  forallb f (rev l) = forallb f l.
Proof.
  induction l as [|a l IH]; [reflexivity|].
  cbn [rev forallb]. rewrite forallb_app, IH. cbn [forallb].
  rewrite andb_true_r. apply andb_comm.
Qed.

Lemma forallb_lstrip (s : str) :
  forallb is_space (lstrip s) = forallb is_space s.
Proof.
  induction s as [|a s IH]; [reflexivity|].
  cbn [lstrip]. destruct (is_space a) eqn:A; [|reflexivity].
  cbn [forallb]. now rewrite A.
Qed.

(** [s.strip()] is empty exactly when [s] is white space only. *)
Lemma truthy_strip (s : str) :
  truthy (strip s) = negb (forallb is_space s).
Proof.
  unfold strip.
  destruct (forallb is_space s) eqn:B.
  - apply lstrip_nil in B. rewrite B. reflexivity.
  - cbn [negb].
    destruct (lstrip (rev (lstrip s))) as [|a r] eqn:E.
    + apply lstrip_nil in E. rewrite forallb_rev, forallb_lstrip in E.
      congruence.
    + cbn [rev]. now destruct (rev r).
Qed.

Lemma not_blank (s : str) :
  forallb is_space s = false <-> exists a, In a s /\ is_space a = false.
Proof.
  split.
  - intros H. induction s as [|a s IH]; [discriminate|].
    cbn [forallb] in H. destruct (is_space a) eqn:A.
    + destruct (IH H) as (b & I & B). exists b. split; [now right|exact B].
    + exists a. split; [now left|exact A].
  - intros (a & I & A). destruct (forallb is_space s) eqn:B; [|reflexivity].
    rewrite forallb_forall in B. rewrite (B a I) in A. discriminate.
Qed.

End MappingFacts.

(** X14.  [validate_speaker_mapping] returns the mapping unchanged when
    it has an item and every placeholder and every name holds a character
    that is not white space; it raises [ValueError] on every other
    mapping. *)
Theorem validate_speaker_mapping_accepts (v : list (str * str)) :
  (validate_speaker_mapping v = Ret v
   <-> v <> []
       /\ forall placeholder name,
           In (placeholder, name) v ->
           (exists a, In a placeholder /\ is_space a = false)
           /\ (exists a, In a name /\ is_space a = false))
  /\ (validate_speaker_mapping v = Ret v
      \/ exists msg, validate_speaker_mapping v = Raise (ValueError msg)).
Proof.
  unfold validate_speaker_mapping.
  destruct v as [|item v].
  { split; [|right; eauto]. split; [discriminate|]. intros [N _]. congruence. }
  set (items := item :: v).
  destruct (existsb _ items) eqn:B.
  - split; [|right; eauto]. split; [discriminate|]. intros [_ H].
    apply existsb_exists in B as ([placeholder name] & I & B).
    cbn [fst snd] in B. rewrite !truthy_strip, !negb_involutive in B.
    destruct (H placeholder name I) as [P N].
    apply not_blank in P. apply not_blank in N. rewrite P, N in B.
    discriminate.
  - split; [|now left]. split; [|reflexivity]. intros _.
    split; [discriminate|]. intros placeholder name I.
    assert (E : forall x, In x items ->
                          negb (truthy (strip (fst x)))
                          || negb (truthy (strip (snd x))) = false).
    { intros x Ix. destruct (negb _ || negb _) eqn:T; [|reflexivity].
      assert (existsb (fun kv => negb (truthy (strip (fst kv)))
                                 || negb (truthy (strip (snd kv)))) items
              = true) by (apply existsb_exists; eauto).
      congruence. }
    specialize (E _ I). cbn [fst snd] in E.
    rewrite !truthy_strip, !negb_involutive in E.
    apply orb_false_iff in E as [P N].
    split; now apply not_blank.
Qed.

(* ================================================================== *)
(** * The endpoints *)
(* ================================================================== *)

Section EndpointFacts.

Local Open Scope Z_scope.

(** What the retry wrapper hands to its caller: the outcome of one of
    the first three runs of the block, which is a value or an error that
    is not transient, or [RetryError] around the error of the third. *)
Lemma retried_result (provider : nat -> res str) (fuel : nat) :
  (6 <= fuel)%nat ->
  exists result w,
    retried fuel provider = Some (result, w)
    /\ (1 <= calls w <= 3)%nat
    /\ settled result = true
    /\ ((exists k, (k < 3)%nat /\ result = provider k)
        \/ exists e, result = Raise (RetryError (Some e))).
Proof.
  intros F.
  destruct (settled (provider 0%nat)) eqn:S0.
  { exists (provider 0%nat), {| calls := 1; sleeps := [] |}.
    split; [apply retried_more_fuel with (fuel := 2%nat);
            [now apply retried_first|lia]|].
    cbn [calls]. split; [lia|]. split; [exact S0|].
    left. exists 0%nat. split; [lia|reflexivity]. }
  destruct (provider 0%nat) as [v1|e1] eqn:P0; [discriminate|].
  cbn [settled] in S0. apply negb_false_iff in S0.
  destruct (settled (provider 1%nat)) eqn:S1.
  { exists (provider 1%nat), {| calls := 2; sleeps := [2] |}.
    split; [apply retried_more_fuel with (fuel := 4%nat);
            [now apply retried_second with (e1 := e1)|lia]|].
    cbn [calls]. split; [lia|]. split; [exact S1|].
    left. exists 1%nat. split; [lia|reflexivity]. }
  destruct (provider 1%nat) as [v2|e2] eqn:P1; [discriminate|].
  cbn [settled] in S1. apply negb_false_iff in S1.
  destruct (settled (provider 2%nat)) eqn:S2.
  { exists (provider 2%nat), {| calls := 3; sleeps := [2; 2] |}.
    split; [apply retried_more_fuel with (fuel := 6%nat);
            [now apply retried_third with (e1 := e1) (e2 := e2)|lia]|].
    cbn [calls]. split; [lia|]. split; [exact S2|].
    left. exists 2%nat. split; [lia|reflexivity]. }
  destruct (provider 2%nat) as [v3|e3] eqn:P2; [discriminate|].
  cbn [settled] in S2. apply negb_false_iff in S2.
  exists (Raise (RetryError (Some e3))), {| calls := 3; sleeps := [2; 2] |}.
  split; [apply retried_more_fuel with (fuel := 6%nat);
          [now apply retried_exhausted with (e1 := e1) (e2 := e2)|lia]|].
  cbn [calls]. split; [lia|]. split; [reflexivity|]. right. eauto.
Qed.

Lemma nth_error_map_seq {A} (f : nat -> A) (n j : nat) (x : A) :
  forall start,
    nth_error (map f (seq start n)) j = Some x ->
    (j < n)%nat /\ x = f (start + j)%nat.
Proof.
  revert j. induction n as [|n IH]; intros j start H.
  - destruct j; discriminate.
  - destruct j as [|j]; cbn in H.
    + inversion H. split; [lia|]. f_equal. lia.
    + apply IH in H. destruct H as [L ->]. split; [lia|]. f_equal. lia.
Qed.

(** More fuel does not change a result. *)
Lemma attempt_loop_more_fuel (block : nat -> option (res str * Usage)) :
  forall fuel st w used x,
    attempt_loop fuel block st w used = Some x ->
    forall fuel', (fuel <= fuel')%nat ->
                  attempt_loop fuel' block st w used = Some x.
Proof.
  induction fuel as [|fuel IH]; intros st w used x H fuel' L;
    [discriminate|].
  destruct fuel' as [|fuel']; [lia|].
  cbn [attempt_loop] in *.
  destruct (iter retry_policy st) as [|d|r].
  - destruct (block (calls w)) as [[o u]|]; [|discriminate].
    apply IH with (fuel' := fuel') in H; [exact H|lia].
  - apply IH with (fuel' := fuel') in H; [exact H|lia].
  - exact H.
Qed.

Lemma decorated_more_fuel (block : nat -> option (res str * Usage))
      (fuel fuel' : nat) (x : res str * Effects * list Usage) :
  decorated fuel block = Some x -> (fuel <= fuel')%nat ->
  decorated fuel' block = Some x.
Proof.
  unfold decorated. intros H L. eapply attempt_loop_more_fuel; eauto.
Qed.

(** The runs of a decorated method that stop at the first, at the second
    and at the third attempt, and the run that gives up.  The blocks
    after the last attempt are not run: they need not end. *)
Lemma decorated_first (block : nat -> option (res str * Usage))
      (result : res str) (u : Usage) :
  block 0%nat = Some (result, u) -> settled result = true ->
  decorated 2 block
  = Some (result, {| calls := 1; sleeps := [] |}, [u]).
Proof.
  intros B0 S. unfold decorated, initial_state. cbn. rewrite B0. cbn.
  destruct result as [v|e]; cbn in S |- *.
  - reflexivity.
  - apply negb_true_iff in S. now rewrite S.
Qed.

Lemma decorated_second (block : nat -> option (res str * Usage))
      (e1 : exn) (u1 : Usage) (result : res str) (u : Usage) :
  block 0%nat = Some (Raise e1, u1) -> transient e1 = true ->
  block 1%nat = Some (result, u) -> settled result = true ->
  decorated 4 block
  = Some (result, {| calls := 2; sleeps := [2] |}, [u1; u]).
Proof.
  intros B0 T0 B1 S. unfold decorated, initial_state.
  cbn. rewrite B0. cbn. rewrite T0. cbn. rewrite B1. cbn.
  destruct result as [v|e]; cbn in S |- *.
  - reflexivity.
  - apply negb_true_iff in S. now rewrite S.
Qed.

Lemma decorated_third (block : nat -> option (res str * Usage))
      (e1 e2 : exn) (u1 u2 : Usage) (result : res str) (u : Usage) :
  block 0%nat = Some (Raise e1, u1) -> transient e1 = true ->
  block 1%nat = Some (Raise e2, u2) -> transient e2 = true ->
  block 2%nat = Some (result, u) -> settled result = true ->
  decorated 6 block
  = Some (result, {| calls := 3; sleeps := [2; 2] |}, [u1; u2; u]).
Proof.
  intros B0 T0 B1 T1 B2 S. unfold decorated, initial_state.
  cbn. rewrite B0. cbn. rewrite T0. cbn. rewrite B1. cbn. rewrite T1. cbn.
  rewrite B2. cbn.
  destruct result as [v|e]; cbn in S |- *.
  - reflexivity.
  - apply negb_true_iff in S. now rewrite S.
Qed.

Lemma decorated_exhausted (block : nat -> option (res str * Usage))
      (e1 e2 e3 : exn) (u1 u2 u3 : Usage) :
  block 0%nat = Some (Raise e1, u1) -> transient e1 = true ->
  block 1%nat = Some (Raise e2, u2) -> transient e2 = true ->
  block 2%nat = Some (Raise e3, u3) -> transient e3 = true ->
  decorated 6 block
  = Some (Raise (RetryError (Some e3)),
          {| calls := 3; sleeps := [2; 2] |}, [u1; u2; u3]).
Proof.
  intros B0 T0 B1 T1 B2 T2. unfold decorated, initial_state.
  cbn. rewrite B0. cbn. rewrite T0. cbn. rewrite B1. cbn. rewrite T1. cbn.
  rewrite B2. cbn. rewrite T2. reflexivity.
Qed.

(** A decorated method whose first [k] blocks fail with transient errors
    and whose next block settles. *)
Lemma decorated_settled_at (block : nat -> option (res str * Usage))
      (spent : nat -> Usage) (fuel k : nat) (result : res str) :
  (6 <= fuel)%nat -> (k < 3)%nat ->
  (forall j, (j < k)%nat ->
             exists e, block j = Some (Raise e, spent j)
                       /\ transient e = true) ->
  block k = Some (result, spent k) ->
  settled result = true ->
  decorated fuel block
  = Some (result, {| calls := S k; sleeps := repeat 2 k |},
          map spent (seq 0 (S k))).
Proof.
  intros Hf Hk Before Bk St.
  destruct k as [|[|[|k]]]; [| | |lia].
  - apply decorated_more_fuel with (fuel := 2%nat); [|lia].
    now apply decorated_first.
  - destruct (Before 0%nat) as (e1 & B0 & T0); [lia|].
    apply decorated_more_fuel with (fuel := 4%nat); [|lia].
    now apply decorated_second with (e1 := e1).
  - destruct (Before 0%nat) as (e1 & B0 & T0); [lia|].
    destruct (Before 1%nat) as (e2 & B1 & T1); [lia|].
    apply decorated_more_fuel with (fuel := 6%nat); [|lia].
    now apply decorated_third with (e1 := e1) (e2 := e2).
Qed.

(** What a decorated method hands to its caller when the blocks of its
    first three attempts end. *)
Lemma decorated_result (block : nat -> option (res str * Usage))
      (fuel : nat) :
  (6 <= fuel)%nat ->
  (forall k, (k < 3)%nat -> block k <> None) ->
  exists result w used,
    decorated fuel block = Some (result, w, used)
    /\ (1 <= calls w <= 3)%nat
    /\ length used = calls w
    /\ sleeps w = repeat 2 (calls w - 1)
    /\ settled result = true
    /\ ((exists k u, (k < 3)%nat /\ block k = Some (result, u))
        \/ exists e, result = Raise (RetryError (Some e)))
    /\ (forall j u, nth_error used j = Some u ->
                    exists o, block j = Some (o, u)).
Proof.
  intros F Ends.
  set (o := fun k => match block k with
                     | Some (r, _) => r
                     | None => Ret []
                     end).
  set (u := fun k => match block k with
                     | Some (_, v) => v
                     | None => one_request
                     end).
  assert (E : forall k, (k < 3)%nat -> block k = Some (o k, u k)).
  { intros k K. specialize (Ends k K). unfold o, u.
    destruct (block k) as [[r v]|]; [reflexivity|congruence]. }
  rewrite (decorated_retried block o u fuel E).
  destruct (retried_result o fuel F) as (result & w & R & C & S & Src).
  destruct (retried_finishes o fuel F) as (result' & w' & R' & _ & Sl).
  rewrite R in R'. inversion R'; subst result' w'. rewrite R.
  exists result, w, (map u (seq 0 (calls w))).
  split; [reflexivity|]. split; [exact C|].
  split; [now rewrite length_map, length_seq|].
  split.
  { rewrite Sl.
    assert (Cs : calls w = 1%nat \/ calls w = 2%nat \/ calls w = 3%nat)
      by lia.
    destruct Cs as [Cw|[Cw|Cw]]; rewrite Cw; reflexivity. }
  split; [exact S|]. split.
  - destruct Src as [(k & K & ->)|Ex]; [left|right; exact Ex].
    exists k, (u k). split; [exact K|apply E, K].
  - intros j v N. apply nth_error_map_seq in N. destruct N as [L ->].
    exists (o j). apply E. cbn. lia.
Qed.

(** A polling loop that ends has polled at most [patience] times. *)
Lemma wait_polls (get : nat -> res State) :
  forall patience polled state r n,
    wait_while_processing patience get polled state = Some (r, n) ->
    (polled <= n <= polled + patience)%nat.
Proof.
  induction patience as [|patience IH]; intros polled state r n H.
  - destruct state; cbn in H; try discriminate; inversion H; subst; lia.
  - destruct state; cbn [wait_while_processing] in H;
      try (inversion H; subst; lia).
    destruct (get polled) as [state'|e].
    + apply IH in H. lia.
    + inversion H; subst; lia.
Qed.

(** A run of the block of [transcribe_audio] that ends has made between
    one and three requests beside its polls. *)
Lemma transcribe_block_usage (patience : nat) (g : Genai) (r : res str)
      (u : Usage) :
  transcribe_block patience g = Some (r, u) ->
  (1 + polls u <= requests u <= 3 + polls u)%nat
  /\ (polls u <= patience)%nat.
Proof.
  unfold transcribe_block. intros H.
  destruct (upload_file g) as [uploaded|e].
  2:{ inversion H; subst; cbn; lia. }
  destruct (wait_while_processing patience (get_file g) 0 uploaded)
    as [[r' n]|] eqn:W; [|discriminate].
  apply wait_polls in W.
  destruct r' as [state|e].
  2:{ inversion H; subst; cbn; lia. }
  destruct state;
    try (destruct (generate_content g) as [response|e];
         [destruct (delete_file g)|]);
    inversion H; subst; cbn; lia.
Qed.

(** A run of the block of [transcribe_audio] that returns a text returns
    the text of the response without the white space around it, after
    the upload, the polls, the generation and the deletion. *)
Lemma transcribe_block_returns (patience : nat) (g : Genai)
      (transcript : str) (u : Usage) :
  transcribe_block patience g = Some (Ret transcript, u) ->
  exists text,
    generate_content g = Ret (Ret text)
    /\ transcript = strip text
    /\ requests u = (3 + polls u)%nat.
Proof.
  unfold transcribe_block. intros H.
  destruct (upload_file g) as [uploaded|e]; [|discriminate].
  destruct (wait_while_processing patience (get_file g) 0 uploaded)
    as [[r' n]|]; [|discriminate].
  destruct r' as [state|e]; [|discriminate].
  destruct state; try discriminate;
    (destruct (generate_content g) as [[text|e]|e];
     [destruct (delete_file g)|destruct (delete_file g)|]);
    try discriminate; inversion H; subst; exists text; now cbn.
Qed.

Lemma path_join_truthy (directory file : str) :
  truthy file = true -> truthy (path_join directory file) = true.
Proof.
  unfold path_join. intros T.
  destruct (rev directory) as [|c r] eqn:E; [exact T|].
  assert (D : directory <> []) by (intros ->; discriminate).
  destruct directory as [|d directory]; [congruence|].
  now destruct (Ascii.eqb c "/").
Qed.

Lemma temp_file_path_truthy (temp_dir unique_id : str) (file : UploadFile) :
  truthy (temp_file_path temp_dir unique_id file) = true.
Proof. apply path_join_truthy. reflexivity. Qed.

(** An error that is not transient is not a timeout. *)
Lemma settled_except (exn_str : exn -> str) (e : exn) :
  settled (Raise e) = true ->
  transcribe_except exn_str (Raised e)
  = HTTPException 500 (lit "Transcription failed: " ++ exn_str e).
Proof.
  cbn [settled]. intros S. apply negb_true_iff in S.
  destruct e; try reflexivity. discriminate.
Qed.

(** The polling of the slow provider ends after its poll number [n]. *)
Lemma wait_slow (n : nat) (text : str) :
  forall patience polled,
    (polled <= n)%nat -> (n - polled < patience)%nat ->
    wait_while_processing patience (get_file (slow n text)) polled
                          PROCESSING
    = Some (Ret ACTIVE, S n).
Proof.
  induction patience as [|patience IH]; intros polled L P; [lia|].
  cbn [wait_while_processing slow get_file].
  destruct (Nat.ltb_spec polled n) as [Lt|Ge].
  - apply IH; lia.
  - replace polled with n by lia. now destruct patience.
Qed.

End EndpointFacts.

Section TranscribeFacts.

Variable settings : Settings.
Variable year_padded : bool.
Variable exn_str : exn -> str.

Lemma not_rejected (file : UploadFile) (file_size : N) :
  accepted settings file file_size -> ~ rejected settings file.
Proof.
  intros (E & R & S) [E'|(n & R' & S')]; [congruence|].
  rewrite R in R'. inversion R'; subst n. lia.
Qed.

Lemma except_status (e : exn) :
  status (transcribe_except exn_str (Raised e)) = 408
  /\ (exists msg, e = TimeoutError msg)
  \/ status (transcribe_except exn_str (Raised e)) = 500.
Proof. destruct e; cbn; eauto. Qed.

(** What the [finally] clause removes. *)
Lemma cleanup_removes (disk : Disk) (temp_dir unique_id : str)
      (file : UploadFile) :
  let path := temp_file_path temp_dir unique_id file in
  (cleanup disk (Some path) = Some path
   <-> path_exists disk = true /\ exists u, remove_file disk = Ret u)
  /\ (cleanup disk (Some path) = Some path
      \/ cleanup disk (Some path) = None).
Proof.
  intros path. unfold cleanup. subst path.
  rewrite temp_file_path_truthy. cbn [andb].
  destruct (path_exists disk).
  - destruct (remove_file disk) as [u|e].
    + split; [|now left]. split; [eauto|reflexivity].
    + split; [|now right].
      split; [discriminate|intros (_ & u & Bad); discriminate].
  - split; [|now right]. split; [discriminate|intros (Bad & _); discriminate].
Qed.

(** The ways through [transcribe_audio]. *)
Lemma transcribe_audio_cases (fuel patience : nat) (file : UploadFile)
      (temp_dir unique_id : str) (disk : Disk) (provider : nat -> Genai) :
  let run := transcribe_audio settings year_padded exn_str fuel patience
                              file temp_dir unique_id disk provider in
  let path := temp_file_path temp_dir unique_id file in
  let nothing := {| created := None; removed := None; gemini := idle;
                    usage := [] |} in
  (rejected settings file
   /\ exists detail, run = Some (HTTPException 400 detail, nothing))
  \/ (~ rejected settings file
      /\ exists e,
          (upload_read file = Raise e \/ open_file disk = Raise e)
          /\ run = Some (transcribe_except exn_str (Raised e), nothing))
  \/ (~ rejected settings file
      /\ exists e u,
          open_file disk = Ret u /\ write_file disk = Raise e
          /\ run = Some (transcribe_except exn_str (Raised e),
                         {| created := Some path; removed := None;
                            gemini := idle; usage := [] |}))
  \/ (exists file_size u u',
         accepted settings file file_size
         /\ open_file disk = Ret u /\ write_file disk = Ret u'
         /\ run
            = match GeminiService.transcribe_audio fuel patience provider
              with
              | None => None
              | Some (result, w, used) =>
                Some (transcribe_except
                        exn_str
                        match result with
                        | Ret text =>
                          Returned
                            {| filename := upload_name file;
                               detected_date :=
                                 first_valid year_padded PATTERNS
                                             (upload_name file);
                               transcript := text;
                               speakers_identified :=
                                 extract_speakers text |}
                        | Raise e => Raised e
                        end,
                      {| created := Some path;
                         removed := cleanup disk (Some path);
                         gemini := w; usage := used |})
              end).
Proof.
  intros run path nothing. subst run path.
  unfold transcribe_audio, transcribe_try.
  fold (upload_name file).
  fold (validate_extension (upload_name file)
                           (allowed_audio_extensions settings)).
  destruct (validate_extension _ _) eqn:Ext; cbn [negb].
  2:{ left. split; [now left|]. eexists. reflexivity. }
  destruct (upload_read file) as [file_size|e] eqn:Read.
  2:{ right. left. split.
      - intros [E|(n & R & _)]; congruence.
      - exists e. split; [now left|reflexivity]. }
  destruct (N.ltb_spec (max_file_size_bytes settings) file_size) as [Big|Big].
  { left. split; [|eexists; reflexivity]. right. exists file_size.
    split; [exact Read|]. now right. }
  destruct (N.eqb_spec file_size 0) as [Zero|Zero].
  { left. split; [|eexists; reflexivity]. right. exists file_size.
    split; [exact Read|]. now left. }
  assert (Acc : accepted settings file file_size).
  { split; [exact Ext|]. split; [exact Read|]. lia. }
  pose proof (not_rejected file file_size Acc) as NR.
  unfold save_temp_file.
  fold (temp_file_path temp_dir unique_id file).
  destruct (open_file disk) as [u|e] eqn:Open.
  2:{ right. left. split; [exact NR|].
      exists e. split; [now right|reflexivity]. }
  destruct (write_file disk) as [u'|e] eqn:Write.
  2:{ right. right. left. split; [exact NR|].
      exists e, u. split; [reflexivity|]. split; reflexivity. }
  right. right. right. exists file_size, u, u'.
  split; [exact Acc|]. split; [reflexivity|]. split; [reflexivity|].
  rewrite extract_date_first_valid.
  destruct (GeminiService.transcribe_audio fuel patience provider)
    as [[[[text|e] w] used]|]; reflexivity.
Qed.

End TranscribeFacts.

(** X15.  [transcribe_audio] answers every upload for which the polling
    of the provider ends, with status 200, 400, 408 or 500.  It answers
    400 exactly to the uploads whose extension is not allowed or whose
    content is empty or too large, and then it has created no file and
    has made no attempt at the provider.  It answers 408 only when
    reading the upload, or opening or writing the temporary file, timed
    out, before any attempt: a failure of the provider, timeouts
    included, is never answered with 408.  It makes at most three
    attempts at the provider, each of between one and three requests
    beside its polls.  The temporary file that it created is removed
    exactly when it was written, still exists when the request ends, and
    [os.remove] does not fail: a file whose writing failed stays. *)
Theorem transcribe_audio_replies
        (settings : Settings) (year_padded : bool) (exn_str : exn -> str)
        (fuel patience : nat) (file : UploadFile) (temp_dir unique_id : str)
        (disk : Disk) (provider : nat -> Genai) :
  6 <= fuel ->
  polling_ends patience provider ->
  exists reply trace,
    transcribe_audio settings year_padded exn_str fuel patience file
                     temp_dir unique_id disk provider
    = Some (reply, trace)
    /\ In (status reply) [200; 400; 408; 500]
    /\ (status reply = 400 <-> rejected settings file)
    /\ (status reply = 400 ->
        created trace = None /\ calls (gemini trace) = 0)
    /\ (status reply = 408 ->
        calls (gemini trace) = 0
        /\ exists msg, upload_read file = Raise (TimeoutError msg)
                       \/ open_file disk = Raise (TimeoutError msg)
                       \/ write_file disk = Raise (TimeoutError msg))
    /\ calls (gemini trace) <= 3
    /\ length (usage trace) = calls (gemini trace)
    /\ (forall u, In u (usage trace) ->
                  1 + polls u <= requests u <= 3 + polls u
                  /\ polls u <= patience)
    /\ (forall path, removed trace = Some path ->
                     created trace = Some path)
    /\ (forall path,
           created trace = Some path ->
           (removed trace = Some path
            <-> (exists u, write_file disk = Ret u)
                /\ path_exists disk = true
                /\ exists u, remove_file disk = Ret u)).
Proof.
  intros F Ends.
  destruct (transcribe_audio_cases settings year_padded exn_str fuel
                                   patience file temp_dir unique_id disk
                                   provider)
    as [(Rej & detail & ->)
       |[(Rej & e & Src & ->)
        |[(Rej & e & u & Open & Write & ->)
         |(n & u & u' & Acc & Open & Write & ->)]]].
  - eexists _, _. split; [reflexivity|].
    cbn [status created removed gemini usage idle calls length].
    split; [cbn; auto|]. split; [tauto|]. split; [auto|].
    split; [discriminate|]. split; [lia|]. split; [reflexivity|].
    split; [intros u []|]. split; discriminate.
  - eexists _, _. split; [reflexivity|].
    cbn [created removed gemini usage idle calls length].
    assert (Src' : forall msg,
               e = TimeoutError msg ->
               upload_read file = Raise (TimeoutError msg)
               \/ open_file disk = Raise (TimeoutError msg)
               \/ write_file disk = Raise (TimeoutError msg)).
    { intros msg ->. destruct Src; auto. }
    destruct (except_status exn_str e) as [[S (msg & E)]|S]; rewrite S.
    + split; [cbn; auto|]. split; [split; [discriminate|contradiction]|].
      split; [discriminate|]. split.
      { intros _. split; [reflexivity|]. exists msg. now apply Src'. }
      split; [lia|]. split; [reflexivity|].
      split; [intros v []|]. split; discriminate.
    + split; [cbn; auto|]. split; [split; [discriminate|contradiction]|].
      split; [discriminate|]. split; [discriminate|].
      split; [lia|]. split; [reflexivity|].
      split; [intros v []|]. split; discriminate.
  - eexists _, _. split; [reflexivity|].
    cbn [created removed gemini usage idle calls length].
    assert (Kept : forall path : str,
               Some (temp_file_path temp_dir unique_id file) = Some path ->
               (@None str = Some path
                <-> (exists u, write_file disk = Ret u)
                    /\ path_exists disk = true
                    /\ exists u, remove_file disk = Ret u)).
    { intros path _. split; [discriminate|].
      intros ((v & Bad) & _). congruence. }
    destruct (except_status exn_str e) as [[S (msg & E)]|S]; rewrite S.
    + split; [cbn; auto|]. split; [split; [discriminate|contradiction]|].
      split; [discriminate|]. split.
      { intros _. split; [reflexivity|]. exists msg. subst e. auto. }
      split; [lia|]. split; [reflexivity|].
      split; [intros v []|]. split; [discriminate|exact Kept].
    + split; [cbn; auto|]. split; [split; [discriminate|contradiction]|].
      split; [discriminate|]. split; [discriminate|].
      split; [lia|]. split; [reflexivity|].
      split; [intros v []|]. split; [discriminate|exact Kept].
  - unfold GeminiService.transcribe_audio.
    destruct (decorated_result
                (fun k => transcribe_block patience (provider k)) fuel F Ends)
      as (result & w & used & -> & C & Len & _ & S & _ & Each).
    eexists _, _. split; [reflexivity|].
    cbn [created removed gemini usage].
    pose proof (not_rejected settings file n Acc) as NR.
    destruct (cleanup_removes disk temp_dir unique_id file) as [Rm Cl].
    cbn zeta in Rm, Cl.
    assert (Use : forall v, In v used ->
                            1 + polls v <= requests v <= 3 + polls v
                            /\ polls v <= patience).
    { intros v I. apply In_nth_error in I. destruct I as [j N].
      destruct (Each j v N) as (o & B).
      now apply transcribe_block_usage in B. }
    assert (Back : forall path,
               cleanup disk (Some (temp_file_path temp_dir unique_id file))
               = Some path ->
               Some (temp_file_path temp_dir unique_id file) = Some path).
    { intros path H. destruct Cl as [Cl|Cl]; congruence. }
    assert (Gone : forall path,
               Some (temp_file_path temp_dir unique_id file) = Some path ->
               (cleanup disk (Some (temp_file_path temp_dir unique_id file))
                = Some path
                <-> (exists u, write_file disk = Ret u)
                    /\ path_exists disk = true
                    /\ exists u, remove_file disk = Ret u)).
    { intros path E. inversion E; subst path. rewrite Rm.
      split; [intros (P & R); eauto|intros (_ & P & R); eauto]. }
    destruct result as [text|e].
    + cbn [transcribe_except status].
      split; [cbn; auto|]. split; [split; [discriminate|contradiction]|].
      split; [discriminate|]. split; [discriminate|].
      split; [lia|]. split; [exact Len|]. split; [exact Use|].
      split; [exact Back|exact Gone].
    + rewrite (settled_except exn_str e S). cbn [status].
      split; [cbn; auto|]. split; [split; [discriminate|contradiction]|].
      split; [discriminate|]. split; [discriminate|].
      split; [lia|]. split; [exact Len|]. split; [exact Use|].
      split; [exact Back|exact Gone].
Qed.

Lemma transcribe_audio_replies_witness :
  6 <= 6
  /\ polling_ends 0 (fun _ => {| upload_file := Raise (TimeoutError "timed out");
                                 get_file := fun _ => Ret ACTIVE;
                                 generate_content := Ret (Ret []);
                                 delete_file := Ret tt |})
  /\ exists reply trace,
      transcribe_audio
        defaults false (fun _ => lit "error")
        6 0 {| upload_filename := Some (lit "2023-10-27_standup.mp3");
               upload_read := Ret 2048%N |}
        (lit "/tmp") (lit "0123456789ab")
        {| open_file := Ret tt; write_file := Ret tt;
           path_exists := true; remove_file := Ret tt |}
        (fun _ => {| upload_file := Raise (TimeoutError "timed out");
                     get_file := fun _ => Ret ACTIVE;
                     generate_content := Ret (Ret []);
                     delete_file := Ret tt |})
      = Some (reply, trace)
      /\ status reply <> 408
      /\ removed trace = created trace.
Proof.
  assert (Ends : polling_ends
                   0 (fun _ => {| upload_file :=
                                    Raise (TimeoutError "timed out");
                                  get_file := fun _ => Ret ACTIVE;
                                  generate_content := Ret (Ret []);
                                  delete_file := Ret tt |}))
    by (intros k _; discriminate).
  split; [apply Nat.le_refl|]. split; [exact Ends|].
  destruct (transcribe_audio_replies
              defaults false (fun _ => lit "error")
              6 0 {| upload_filename := Some (lit "2023-10-27_standup.mp3");
                     upload_read := Ret 2048%N |}
              (lit "/tmp") (lit "0123456789ab")
              {| open_file := Ret tt; write_file := Ret tt;
                 path_exists := true; remove_file := Ret tt |}
              (fun _ => {| upload_file := Raise (TimeoutError "timed out");
                           get_file := fun _ => Ret ACTIVE;
                           generate_content := Ret (Ret []);
                           delete_file := Ret tt |})
              (Nat.le_refl 6) Ends)
    as (reply & trace & E & _ & _ & _ & T & _ & _ & _ & _ & _).
  exists reply, trace. split; [exact E|]. split.
  - intros S. destruct (T S) as (_ & msg & [R|[R|R]]); discriminate.
  - vm_compute in E. inversion E. reflexivity.
Defined.
Section ProviderFacts.

Local Open Scope Z_scope.





End ProviderFacts.

(** X16.  When the three attempts at the provider for an upload that
    passed the checks and was written to disk fail with a timeout (or a
    lost connection), [transcribe_audio] answers 500 with the text of the
    [RetryError] around the third error, not 408: the
    [except TimeoutError] clause is not reached.  Three attempts were
    made, with two sleeps of two seconds, and the temporary file is
    removed when it still exists and [os.remove] does not fail. *)
Theorem provider_timeouts_answer_500
        (settings : Settings) (year_padded : bool) (exn_str : exn -> str)
        (fuel patience : nat) (file : UploadFile) (file_size : N)
        (temp_dir unique_id : str) (disk : Disk) (provider : nat -> Genai)
        (e1 e2 e3 : exn) (u1 u2 u3 : Usage) :
  6 <= fuel ->
  accepted settings file file_size ->
  open_file disk = Ret tt -> write_file disk = Ret tt ->
  transcribe_block patience (provider 0) = Some (Raise e1, u1) ->
  transient e1 = true ->
  transcribe_block patience (provider 1) = Some (Raise e2, u2) ->
  transient e2 = true ->
  transcribe_block patience (provider 2) = Some (Raise e3, u3) ->
  transient e3 = true ->
  transcribe_audio settings year_padded exn_str fuel patience file
                   temp_dir unique_id disk provider
  = Some (HTTPException
            500
            (lit "Transcription failed: "
                 ++ exn_str (RetryError (Some e3))),
          {| created := Some (temp_file_path temp_dir unique_id file);
             removed :=
               if path_exists disk
               then match remove_file disk with
                    | Ret _ => Some (temp_file_path temp_dir unique_id file)
                    | Raise _ => None
                    end
               else None;
             gemini := {| calls := 3; sleeps := [2%Z; 2%Z] |};
             usage := [u1; u2; u3] |}).
Proof.
  intros F Acc Open Write B0 T0 B1 T1 B2 T2.
  destruct (transcribe_audio_cases settings year_padded exn_str fuel
                                   patience file temp_dir unique_id disk
                                   provider)
    as [(Rej & _)
       |[(_ & e & [R|O] & _)
        |[(_ & e & u & _ & W & _)
         |(n & u & u' & _ & _ & _ & ->)]]].
  - now apply not_rejected in Acc.
  - destruct Acc as (_ & R' & _). congruence.
  - congruence.
  - congruence.
  - unfold GeminiService.transcribe_audio.
    rewrite (decorated_more_fuel
               (fun k => transcribe_block patience (provider k)) 6 fuel _
               (decorated_exhausted
                  (fun k => transcribe_block patience (provider k))
                  e1 e2 e3 u1 u2 u3 B0 T0 B1 T1 B2 T2) F).
    unfold cleanup. rewrite temp_file_path_truthy. reflexivity.
Qed.

Lemma provider_timeouts_answer_500_witness :
  transcribe_audio
    defaults false (fun _ => lit "RetryError")
    6 0 {| upload_filename := Some (lit "2023-10-27_standup.mp3");
           upload_read := Ret 2048%N |}
    (lit "/tmp") (lit "0123456789ab")
    {| open_file := Ret tt; write_file := Ret tt;
       path_exists := true; remove_file := Ret tt |}
    (fun _ => {| upload_file := Raise (TimeoutError "timed out");
                 get_file := fun _ => Ret ACTIVE;
                 generate_content := Ret (Ret []);
                 delete_file := Ret tt |})
  = Some (HTTPException
            500 (lit "Transcription failed: RetryError"),
          {| created := Some (lit "/tmp/audio_0123456789ab.mp3");
             removed := Some (lit "/tmp/audio_0123456789ab.mp3");
             gemini := {| calls := 3; sleeps := [2%Z; 2%Z] |};
             usage := [{| requests := 1; polls := 0 |};
                       {| requests := 1; polls := 0 |};
                       {| requests := 1; polls := 0 |}] |}).
Proof.
  apply (provider_timeouts_answer_500
           defaults false (fun _ => lit "RetryError")
           6 0 {| upload_filename := Some (lit "2023-10-27_standup.mp3");
                  upload_read := Ret 2048%N |}
           2048%N (lit "/tmp") (lit "0123456789ab")
           {| open_file := Ret tt; write_file := Ret tt;
              path_exists := true; remove_file := Ret tt |}
           (fun _ => {| upload_file := Raise (TimeoutError "timed out");
                        get_file := fun _ => Ret ACTIVE;
                        generate_content := Ret (Ret []);
                        delete_file := Ret tt |})
           (TimeoutError "timed out") (TimeoutError "timed out")
           (TimeoutError "timed out")
           {| requests := 1; polls := 0 |} {| requests := 1; polls := 0 |}
           {| requests := 1; polls := 0 |} (Nat.le_refl 6)).
  - split; [vm_compute; reflexivity|]. split; [reflexivity|].
    vm_compute. split; [reflexivity|discriminate].
  - reflexivity.
  - reflexivity.
  - reflexivity.
  - reflexivity.
  - reflexivity.
  - reflexivity.
  - reflexivity.
  - reflexivity.
Defined.

(** X17.  For an upload that passed the checks and was written to disk,
    when an attempt at the provider returns a transcript, after attempts
    that failed with transient errors only, [transcribe_audio] answers
    with the name of the upload, the date that [extract_date] finds in
    this name, the text of the response without the white space around
    it, and the speakers that [extract_speakers] finds in this stripped
    text.  The attempt that returned made three requests beside its
    polls; the temporary file is removed when it still exists and
    [os.remove] does not fail. *)
Theorem transcription_response
        (settings : Settings) (year_padded : bool) (exn_str : exn -> str)
        (fuel patience k : nat) (file : UploadFile) (file_size : N)
        (temp_dir unique_id : str) (disk : Disk) (provider : nat -> Genai)
        (spent : nat -> Usage) (transcript : str) :
  6 <= fuel ->
  accepted settings file file_size ->
  open_file disk = Ret tt -> write_file disk = Ret tt ->
  k < 3 ->
  (forall j, j < k ->
             exists e, transcribe_block patience (provider j)
                       = Some (Raise e, spent j)
                       /\ transient e = true) ->
  transcribe_block patience (provider k) = Some (Ret transcript, spent k) ->
  exists date text,
    extract_date year_padded (Some (upload_name file)) = Ret date
    /\ generate_content (provider k) = Ret (Ret text)
    /\ transcript = strip text
    /\ requests (spent k) = 3 + polls (spent k)
    /\ transcribe_audio settings year_padded exn_str fuel patience file
                        temp_dir unique_id disk provider
       = Some (Ok {| filename := upload_name file;
                     detected_date := date;
                     transcript := strip text;
                     speakers_identified := extract_speakers (strip text) |},
               {| created := Some (temp_file_path temp_dir unique_id file);
                  removed :=
                    if path_exists disk
                    then match remove_file disk with
                         | Ret _ =>
                           Some (temp_file_path temp_dir unique_id file)
                         | Raise _ => None
                         end
                    else None;
                  gemini := {| calls := S k; sleeps := repeat 2%Z k |};
                  usage := map spent (seq 0 (S k)) |}).
Proof.
  intros F Acc Open Write K Before Bk.
  destruct (transcribe_block_returns patience (provider k) transcript
                                     (spent k) Bk)
    as (text & G & -> & Rq).
  exists (first_valid year_padded PATTERNS (upload_name file)), text.
  split; [apply extract_date_first_valid|].
  split; [exact G|]. split; [reflexivity|]. split; [exact Rq|].
  destruct (transcribe_audio_cases settings year_padded exn_str fuel
                                   patience file temp_dir unique_id disk
                                   provider)
    as [(Rej & _)
       |[(_ & e & [R|O] & _)
        |[(_ & e & u & _ & W & _)
         |(n & u & u' & _ & _ & _ & ->)]]].
  - now apply not_rejected in Acc.
  - destruct Acc as (_ & R' & _). congruence.
  - congruence.
  - congruence.
  - unfold GeminiService.transcribe_audio.
    rewrite (decorated_settled_at
               (fun j => transcribe_block patience (provider j))
               spent fuel k (Ret (strip text)) F K Before Bk eq_refl).
    unfold cleanup. rewrite temp_file_path_truthy. reflexivity.
Qed.

Lemma transcription_response_witness :
  exists date text,
    extract_date false (Some (lit "2023-10-27_standup.mp3")) = Ret date
    /\ generate_content (slow 1 (lit " [Speaker A]: hello ")) = Ret (Ret text)
    /\ lit "[Speaker A]: hello" = strip text
    /\ 5 = 3 + 2
    /\ transcribe_audio
         defaults false (fun _ => lit "error")
         6 2 {| upload_filename := Some (lit "2023-10-27_standup.mp3");
                upload_read := Ret 2048%N |}
         (lit "/tmp") (lit "0123456789ab")
         {| open_file := Ret tt; write_file := Ret tt;
            path_exists := true; remove_file := Ret tt |}
         (fun k => if k =? 0
                   then {| upload_file := Raise (ConnectionError "reset");
                           get_file := fun _ => Ret ACTIVE;
                           generate_content := Ret (Ret []);
                           delete_file := Ret tt |}
                   else slow 1 (lit " [Speaker A]: hello "))
       = Some (Ok {| filename := lit "2023-10-27_standup.mp3";
                     detected_date := date;
                     transcript := strip text;
                     speakers_identified := extract_speakers (strip text) |},
               {| created := Some (lit "/tmp/audio_0123456789ab.mp3");
                  removed := Some (lit "/tmp/audio_0123456789ab.mp3");
                  gemini := {| calls := 2; sleeps := [2%Z] |};
                  usage := [{| requests := 1; polls := 0 |};
                            {| requests := 5; polls := 2 |}] |}).
Proof.
  apply (transcription_response
           defaults false (fun _ => lit "error")
           6 2 1 {| upload_filename := Some (lit "2023-10-27_standup.mp3");
                    upload_read := Ret 2048%N |}
           2048%N (lit "/tmp") (lit "0123456789ab")
           {| open_file := Ret tt; write_file := Ret tt;
              path_exists := true; remove_file := Ret tt |}
           (fun k => if k =? 0
                     then {| upload_file := Raise (ConnectionError "reset");
                             get_file := fun _ => Ret ACTIVE;
                             generate_content := Ret (Ret []);
                             delete_file := Ret tt |}
                     else slow 1 (lit " [Speaker A]: hello "))
           (fun k => if k =? 0 then {| requests := 1; polls := 0 |}
                     else {| requests := 5; polls := 2 |})
           (lit "[Speaker A]: hello") (Nat.le_refl 6)).
  - split; [vm_compute; reflexivity|]. split; [reflexivity|].
    vm_compute. split; [reflexivity|discriminate].
  - reflexivity.
  - reflexivity.
  - repeat constructor.
  - intros j Hj. exists (ConnectionError "reset").
    destruct j; [split; reflexivity|lia].
  - reflexivity.
Defined.





(* ================================================================== *)
(** * The extension of an upload *)
(* ================================================================== *)

Section PathFacts.

Lemma split_cons (sep : ascii) (s : str) :
  exists part rest, split sep s = part :: rest.
Proof.
  destruct s as [|a s]; cbn [split]; [eauto|].
  destruct (Ascii.eqb a sep); [eauto|].
  destruct (split sep s); eauto.
Qed.

Lemma split_whole (sep : ascii) (s : str) :
  ~ In sep s -> split sep s = [s].
Proof.
  induction s as [|a s IH]; intros N; [reflexivity|].
  cbn [split]. destruct (Ascii.eqb_spec a sep) as [->|_].
  - exfalso. apply N. now left.
  - rewrite IH; [reflexivity|]. intros I. apply N. now right.
Qed.

Lemma split_app (sep : ascii) (p q : str) :
  split sep (p ++ sep :: q) = split sep p ++ split sep q.
Proof.
  induction p as [|a p IH]; cbn [app split].
  - now rewrite Ascii.eqb_refl.
  - rewrite IH. destruct (Ascii.eqb a sep); [reflexivity|].
    destruct (split_cons sep p) as (part & rest & ->). reflexivity.
Qed.

Lemma split_chars (sep : ascii) (s part : str) (a : ascii) :
  In part (split sep s) -> In a part -> In a s.
Proof.
  revert part. induction s as [|b s IH]; intros part I A; cbn [split] in I.
  - destruct I as [<-|[]]. contradiction.
  - destruct (Ascii.eqb b sep).
    + destruct I as [<-|I]; [contradiction|]. right. eapply IH; eassumption.
    + destruct (split_cons sep s) as (p0 & rest & E). rewrite E in *.
      destruct I as [<-|I].
      * destruct A as [<-|A]; [now left|]. right.
        apply (IH p0); [now left|exact A].
      * right. apply (IH part); [now right|exact A].
Qed.

Lemma rfind_None (c : ascii) (s : str) : ~ In c s -> rfind c s = None.
Proof.
  induction s as [|a s IH]; intros N; [reflexivity|].
  cbn [rfind]. rewrite IH by (intros I; apply N; now right).
  destruct (Ascii.eqb_spec a c) as [->|_]; [|reflexivity].
  exfalso. apply N. now left.
Qed.

Lemma rfind_last (c : ascii) (s e : str) :
  ~ In c e -> rfind c (s ++ c :: e) = Some (length s).
Proof.
  intros N. induction s as [|a s IH]; cbn [app rfind length].
  - now rewrite (rfind_None c e N), Ascii.eqb_refl.
  - now rewrite IH.
Qed.

Lemma last_in {A} (l : list A) (d : A) : l <> [] -> In (last l d) l.
Proof.
  induction l as [|a [|b l] IH]; intros N; [congruence|now left|].
  right. apply IH. discriminate.
Qed.

(** The name of a path without a dot has no dot. *)
Lemma name_chars (path : str) (a : ascii) :
  In a (name path) -> In a path.
Proof.
  unfold name, parts. intros I.
  destruct (filter _ (split "/" path)) as [|p l] eqn:E; [contradiction|].
  assert (L : In (last (p :: l) []) (p :: l)) by (apply last_in; discriminate).
  rewrite <- E in L at 2. apply filter_In in L as [L _].
  eapply split_chars; eassumption.
Qed.

(** The name of a path that ends with a component [base]. *)
Lemma name_base (directory base : str) :
  directory = [] \/ (exists d, directory = d ++ lit "/") ->
  ~ In "/"%char base -> base <> [] -> base <> lit "." ->
  name (directory ++ base) = base.
Proof.
  intros D S N Dot. unfold name, parts.
  assert (Keep : truthy base && negb (str_eqb base (lit ".")) = true).
  { destruct base as [|a base]; [congruence|]. cbn [truthy andb].
    unfold str_eqb. now destruct (list_eq_dec ascii_dec (a :: base) (lit ".")). }
  destruct D as [->|(d & ->)].
  - cbn [app]. rewrite (split_whole "/" base S). cbn [filter].
    now rewrite Keep.
  - change (lit "/") with ["/"%char]. rewrite <- app_assoc. cbn [app].
    rewrite split_app, (split_whole "/" base S), filter_app.
    cbn [filter]. rewrite Keep. apply last_last.
Qed.

End PathFacts.

(** X20.  [validate_extension] looks at the last component of the name
    only, and there at what follows its last dot, whatever the case of
    the letters: a name that ends with a component made of a stem that is
    not empty, a dot and an extension without dot is accepted exactly when
    the extension, in lower case and with its dot, is one of the allowed
    ones.  A name without any dot is accepted only when the empty string
    is allowed. *)
Theorem extension_decides (allowed : list str) :
  (forall directory stem e,
      directory = [] \/ (exists d, directory = d ++ lit "/") ->
      stem <> [] -> ~ In "/"%char stem ->
      e <> [] -> ~ In "/"%char e -> ~ In "."%char e ->
      validate_extension (directory ++ stem ++ lit "." ++ e) allowed
      = existsb (str_eqb (lit "." ++ lower e)) allowed)
  /\ (forall filename,
         ~ In "."%char filename ->
         validate_extension filename allowed = existsb (str_eqb []) allowed).
Proof.
  split.
  - intros directory stem e D St Ss E Es Ed.
    unfold validate_extension, suffix.
    assert (B : name (directory ++ stem ++ lit "." ++ e)
                = stem ++ lit "." ++ e).
    { apply name_base; [exact D| | |].
      - intros I. apply in_app_or in I as [I|[I|I]];
          [contradiction|discriminate|contradiction].
      - destruct stem; [congruence|discriminate].
      - destruct stem as [|a [|b stem]]; [congruence| |discriminate].
        destruct e; [congruence|discriminate]. }
    rewrite B. change (lit "." ++ e) with ("."%char :: e).
    rewrite (rfind_last "." stem e Ed).
    assert (L : (0 <? length stem)
                && (length stem <? length (stem ++ "."%char :: e) - 1)
                = true).
    { rewrite length_app. cbn [length].
      destruct stem; [congruence|]. destruct e; [congruence|].
      cbn [length]. apply andb_true_iff.
      split; [reflexivity|]. apply Nat.ltb_lt. lia. }
    rewrite L, skipn_app, skipn_all, Nat.sub_diag. reflexivity.
  - intros filename N. unfold validate_extension, suffix.
    rewrite rfind_None; [reflexivity|].
    intros I. apply N. now apply name_chars.
Qed.

Lemma extension_decides_witness :
  validate_extension (lit "uploads/Standup.2023.MP3")
                     (allowed_audio_extensions defaults) = true
  /\ validate_extension (lit "recording")
                        (allowed_audio_extensions defaults) = false.
Proof.
  split.
  - change (lit "uploads/Standup.2023.MP3")
      with (lit "uploads/" ++ lit "Standup.2023" ++ lit "." ++ lit "MP3").
    rewrite (proj1 (extension_decides (allowed_audio_extensions defaults))
                   (lit "uploads/") (lit "Standup.2023") (lit "MP3")).
    + reflexivity.
    + right. now exists (lit "uploads").
    + discriminate.
    + vm_compute. intuition discriminate.
    + discriminate.
    + vm_compute. intuition discriminate.
    + vm_compute. intuition discriminate.
  - rewrite (proj2 (extension_decides (allowed_audio_extensions defaults))
                   (lit "recording")).
    + reflexivity.
    + vm_compute. intuition discriminate.
Defined.

(* ================================================================== *)
(** * The first label of a transcript *)
(* ================================================================== *)

Section LabelFacts.

Lemma run_Opt {R} (ml : bool) (r : rx) (c : cursor) (caps : list str)
      (k : cursor -> list str -> option R) :
  run ml (Opt r) c caps k
  = match run ml r c caps k with
    | Some x => Some x
    | None => k c caps
    end.
Proof. reflexivity. Qed.

(** The speaker pattern on a label that is followed by a colon. *)
Lemma speaker_match_label (p : option ascii) (name post : str) :
  name <> [] -> ~ In "]"%char name ->
  match_at false speaker_pattern
           {| before := p;
              ahead := lit "[" ++ name ++ lit "]:" ++ post;
              offset := 0 |}
  = Some (length name + 3, [name]).
Proof.
  intros N B.
  assert (Ln : 1 <= length name) by (destruct name; [congruence|cbn; lia]).
  assert (Bs : forallb (in_cset (Except ["]"%char])) name = true).
  { apply forallb_forall. intros a I. cbn [in_cset existsb].
    rewrite orb_false_r. destruct (Ascii.eqb_spec a "]") as [->|_];
      [contradiction|reflexivity]. }
  unfold match_at, speaker_pattern, chr, digit. cbn [cat].
  change (lit "[" ++ name ++ lit "]:" ++ post)
    with (["["%char] ++ name ++ "]"%char :: ":"%char :: post).
  rewrite run_Seq, run_exact. cbn [ahead].
  rewrite (span_of_exact (Class (OneOf ["["%char])) 1 ["["%char] _
                         eq_refl eq_refl).
  cbn [Nat.eqb]. rewrite run_Seq, run_Cap, run_Rep_eq.
  cbn [ahead advance app skipn].
  rewrite (span_of_stop (Except ["]"%char]) name "]" (":"%char :: post)
                        Bs eq_refl).
  apply backtrack_first; [exact Ln|].
  rewrite run_Seq, run_exact. cbn [ahead advance app skipn].
  rewrite skipn_length_app.
  change ("]"%char :: ":"%char :: post) with (["]"%char] ++ ":"%char :: post).
  rewrite (span_of_exact (Class (OneOf ["]"%char])) 1 ["]"%char] _
                         eq_refl eq_refl).
  cbn [Nat.eqb]. rewrite run_Seq, run_Opt.
  match goal with
  | |- match ?g with _ => _ end = _ =>
    assert (G : g = None)
  end.
  { rewrite run_Seq, run_Rep_eq. cbn [ahead advance app skipn].
    rewrite skipn_length_app. cbn [skipn span_of in_cset in_class].
    change (is_space ":") with false. cbn [backtrack Nat.ltb Nat.leb].
    rewrite run_Seq, run_exact. cbn [ahead advance app skipn].
    rewrite skipn_length_app. reflexivity. }
  rewrite G. rewrite run_exact. cbn [ahead advance app skipn].
  rewrite skipn_length_app. cbn [skipn].
  change (":"%char :: post) with ([":"%char] ++ post).
  rewrite (span_of_exact (Class (OneOf [":"%char])) 1 [":"%char] _
                         eq_refl eq_refl).
  cbn [Nat.eqb offset advance app]. f_equal. f_equal; [lia|].
  f_equal.
  match goal with
  | |- firstn ?n _ = _ => replace n with (length name) by lia
  end.
  rewrite firstn_app, Nat.sub_diag, firstn_all. cbn [firstn].
  apply app_nil_r.
Qed.

(** No match of the speaker pattern begins before the first opening
    bracket. *)
Lemma scan_before_bracket (pre s : str) :
  ~ In "["%char pre ->
  forall prev,
    scan false speaker_pattern prev (pre ++ s) 0
    = scan false speaker_pattern (prev_char prev pre) s 0.
Proof.
  induction pre as [|a pre IH]; intros N prev; [reflexivity|].
  cbn [app]. rewrite scan_cons.
  assert (M : match_at false speaker_pattern
                       {| before := prev; ahead := a :: pre ++ s;
                          offset := 0 |} = None).
  { unfold match_at, speaker_pattern, chr. cbn [cat].
    rewrite run_Seq, run_exact. cbn [ahead span_of in_cset in_class existsb].
    destruct (Ascii.eqb_spec a "[") as [->|_].
    - exfalso. apply N. now left.
    - reflexivity. }
  rewrite M, IH by (intros I; apply N; now right).
  f_equal. unfold prev_char. cbn [map]. symmetry. apply last_cons_default.
Qed.

Lemma collect_speakers_keeps (name : str) (found : list str) :
  forall speakers,
    In name speakers -> In name (collect_speakers found speakers).
Proof.
  induction found as [|m found IH]; intros speakers I;
    cbn [collect_speakers]; [exact I|].
  destruct (rmatch timestamp_pattern m); apply IH; [exact I|].
  unfold set_add. destruct (existsb (str_eqb m) speakers); [exact I|].
  apply in_or_app. now left.
Qed.

Lemma collect_speakers_adds (name : str) (found : list str) :
  forall speakers,
    In name found -> rmatch timestamp_pattern name = None ->
    In name (collect_speakers found speakers).
Proof.
  induction found as [|m found IH]; intros speakers I T; [contradiction|].
  cbn [collect_speakers]. destruct I as [->|I].
  - rewrite T. apply collect_speakers_keeps. unfold set_add.
    destruct (existsb (str_eqb name) speakers) eqn:E.
    + apply existsb_exists in E as (x & Ix & E).
      apply str_eqb_true in E. now subst x.
    + apply in_or_app. right. now left.
  - destruct (rmatch timestamp_pattern m); now apply IH.
Qed.

End LabelFacts.

(** X21.  The first label of a transcript is reported: when the text up
    to the first opening bracket is followed by [[name]:], where the name
    is not empty, holds no closing bracket and is not a timestamp, the
    name is among the speakers that [extract_speakers] returns. *)
Theorem first_label_is_reported (pre name post : str) :
  ~ In "["%char pre ->
  name <> [] -> ~ In "]"%char name ->
  rmatch timestamp_pattern name = None ->
  In name (extract_speakers (pre ++ lit "[" ++ name ++ lit "]:" ++ post)).
Proof.
  intros P N B T. unfold extract_speakers.
  apply In_sorted, collect_speakers_adds; [|exact T].
  unfold findall. rewrite (scan_before_bracket pre _ P).
  change (lit "[" ++ name ++ lit "]:" ++ post)
    with ("["%char :: name ++ lit "]:" ++ post).
  rewrite scan_cons.
  change ("["%char :: name ++ lit "]:" ++ post)
    with (lit "[" ++ name ++ lit "]:" ++ post).
  rewrite (speaker_match_label _ name post N B).
  cbn [map hd]. now left.
Qed.

Lemma first_label_is_reported_witness :
  In (lit "Speaker A")
     (extract_speakers (lit "Intro. [Speaker A]: hello [Speaker B]: hi")).
Proof.
  apply (first_label_is_reported
           (lit "Intro. ") (lit "Speaker A")
           (lit " hello [Speaker B]: hi")).
  - vm_compute. intuition discriminate.
  - discriminate.
  - vm_compute. intuition discriminate.
  - reflexivity.
Defined.

Section PollingFacts.

Lemma transcribe_block_stuck (patience : nat) :
  transcribe_block patience stuck = None.
Proof.
  unfold transcribe_block, stuck. cbn [upload_file get_file].
  now rewrite wait_while_processing_stuck.
Qed.

Lemma decorated_first_stuck (fuel : nat)
      (block : nat -> option (res str * Usage)) :
  block 0 = None -> decorated fuel block = None.
Proof.
  intros B. unfold decorated. destruct fuel as [|fuel]; [reflexivity|].
  cbn. now rewrite B.
Qed.

Lemma transcribe_block_slow (patience n : nat) (text : str) :
  n < patience ->
  transcribe_block patience (slow n text)
  = Some (Ret (strip text), {| requests := 3 + S n; polls := S n |}).
Proof.
  intros P. unfold transcribe_block.
  change (upload_file (slow n text)) with (@Ret State PROCESSING).
  cbv iota beta. rewrite wait_slow by lia. reflexivity.
Qed.

End PollingFacts.

(** X22.  The polling of [GeminiService.transcribe_audio] has no bound of
    its own, and the decorator does not bound it.  A provider that
    leaves the file in [PROCESSING] for the first [n] polls is polled
    [n + 1] times, within a single attempt, which makes [n + 4] requests
    in all and returns the stripped text.  With a provider that never
    leaves [PROCESSING] the method does not return, and
    [transcribe_audio] gives no answer to an upload that passed the
    checks and was written to disk. *)
Theorem polling_has_no_bound (fuel patience n : nat) (text : str) :
  2 <= fuel -> n < patience ->
  GeminiService.transcribe_audio fuel patience (fun _ => slow n text)
  = Some (Ret (strip text), {| calls := 1; sleeps := [] |},
          [{| requests := n + 4; polls := n + 1 |}])
  /\ (forall fuel' patience',
         GeminiService.transcribe_audio fuel' patience' (fun _ => stuck)
         = None)
  /\ (forall settings year_padded exn_str fuel' patience' file file_size
             temp_dir unique_id disk,
         accepted settings file file_size ->
         open_file disk = Ret tt -> write_file disk = Ret tt ->
         transcribe_audio settings year_padded exn_str fuel' patience' file
                          temp_dir unique_id disk (fun _ => stuck)
         = None).
Proof.
  intros F P.
  assert (Stuck : forall fuel' patience',
             GeminiService.transcribe_audio fuel' patience' (fun _ => stuck)
             = None).
  { intros fuel' patience'. unfold GeminiService.transcribe_audio.
    apply decorated_first_stuck, transcribe_block_stuck. }
  split; [|split; [exact Stuck|]].
  - unfold GeminiService.transcribe_audio.
    apply decorated_more_fuel with (fuel := 2); [|exact F].
    replace (n + 4) with (3 + S n) by lia.
    replace (n + 1) with (S n) by lia.
    apply decorated_first; [now apply transcribe_block_slow|reflexivity].
  - intros settings year_padded exn_str fuel' patience' file file_size
           temp_dir unique_id disk Acc Open Write.
    destruct (transcribe_audio_cases settings year_padded exn_str fuel'
                                     patience' file temp_dir unique_id disk
                                     (fun _ => stuck))
      as [(Rej & _)
         |[(_ & e & [R|O] & _)
          |[(_ & e & u & _ & W & _)
           |(m & u & u' & _ & _ & _ & ->)]]].
    + now apply not_rejected in Acc.
    + destruct Acc as (_ & R' & _). congruence.
    + congruence.
    + congruence.
    + now rewrite Stuck.
Qed.

Lemma polling_has_no_bound_witness :
  GeminiService.transcribe_audio
    2 1000 (fun _ => slow 999 (lit " [Speaker A]: hello "))
  = Some (Ret (lit "[Speaker A]: hello"), {| calls := 1; sleeps := [] |},
          [{| requests := 1003; polls := 1000 |}])
  /\ transcribe_audio
       defaults false (fun _ => lit "error")
       6 1000 {| upload_filename := Some (lit "2023-10-27_standup.mp3");
                 upload_read := Ret 2048%N |}
       (lit "/tmp") (lit "0123456789ab")
       {| open_file := Ret tt; write_file := Ret tt;
          path_exists := true; remove_file := Ret tt |}
       (fun _ => stuck)
     = None.
Proof.
  destruct (polling_has_no_bound
              2 1000 999 (lit " [Speaker A]: hello ") (Nat.le_refl 2)
              (Nat.lt_succ_diag_r 999))
    as (Slow & _ & Never).
  split; [exact Slow|].
  apply (Never defaults false (fun _ => lit "error") 6 1000
               {| upload_filename := Some (lit "2023-10-27_standup.mp3");
                  upload_read := Ret 2048%N |}
               2048%N (lit "/tmp") (lit "0123456789ab")
               {| open_file := Ret tt; write_file := Ret tt;
                  path_exists := true; remove_file := Ret tt |}).
  - split; [vm_compute; reflexivity|]. split; [reflexivity|].
    vm_compute. split; [reflexivity|discriminate].
  - reflexivity.
  - reflexivity.
Defined.
